(** * DynamicModel_Package: the derivative evaluator, the Euler integrators
      and the 2D grid sampler

    A shallow embedding of [ModelBase.py] and [DynamicModel2D_Base.py].

    - In the modules [Py], [Pandas], [ModelBase], [Numpy] and
      [DynamicModel2D_Base], Python numbers are exact rationals ([Q], kept
      in lowest terms), which is the arithmetic the code performs on [int]
      and [Fraction] inputs; the one non-number the code meets is pandas'
      missing-value marker [NaN].  The [float] literal [1e-14] enters
      there as the rational it denotes.
    - The module [Binary64] holds [euler_integrate] once more, on binary64
      numbers (Rocq's primitive floats), which is the arithmetic the code
      performs on [float] inputs; what is stated of the exact model and
      fails under rounding is shown there.
    - A Python [dict] is an insertion-ordered association list.
    - A raised exception is a value of [result]; the two [while] loops take
      a bound on the number of iterations ([fuel]) and answer [None] when
      it is exhausted.
    - The module [Effects] holds the evaluator with derivative functions
      that may write to what they are given and to anything else; the
      module [Rendering] holds the drawing methods as the list of calls
      they make on the axes. *)

From Stdlib Require Import List String Bool Arith ZArith QArith Qreduction.
From Stdlib Require Import Qround Lia Lqa.
From Stdlib Require Floats.
Import ListNotations.

Open Scope string_scope.
Open Scope list_scope.

(* ================================================================== *)
(** ** Python values, exceptions and dictionaries *)

Module Py.

(** A scalar: a number, or the missing-value marker [nan]. *)
Inductive value : Type :=
| Num (q : Q)
| NaN.

(** A numeric literal, in lowest terms. *)
Definition num (q : Q) : value := Num (Qred q).

(** [a + b], [a - b], [a * b] and [- a] on [int] and [Fraction]
    operands: no rounding.  [Binary64] has them on [float] operands. *)
Definition vadd (a b : value) : value :=
  match a, b with
  | Num x, Num y => Num (Qred (x + y))
  | _, _ => NaN
  end.

Definition vsub (a b : value) : value :=
  match a, b with
  | Num x, Num y => Num (Qred (x - y))
  | _, _ => NaN
  end.

Definition vmul (a b : value) : value :=
  match a, b with
  | Num x, Num y => Num (Qred (x * y))
  | _, _ => NaN
  end.

Definition vneg (a : value) : value :=
  match a with
  | Num x => Num (Qred (- x))
  | NaN => NaN
  end.

Definition Qltb (x y : Q) : bool :=
  match Qcompare x y with
  | Lt => true
  | _ => false
  end.

(** [a < b]; every comparison with [nan] is [False]. *)
Definition vltb (a b : value) : bool :=
  match a, b with
  | Num x, Num y => Qltb x y
  | _, _ => false
  end.

Inductive exn : Type :=
| KeyError (key : string)
| IndexError.

Inductive result (A : Type) : Type :=
| Ok (a : A)
| Raise (e : exn).
Arguments Ok {A} a.
Arguments Raise {A} e.

Definition bind {A B : Type} (r : result A) (k : A -> result B) : result B :=
  match r with
  | Ok a => k a
  | Raise e => Raise e
  end.

(** A dictionary: keys in insertion order. *)
Definition dict (A : Type) : Type := list (string * A).

Definition keys {A : Type} (d : dict A) : list string := map fst d.

Fixpoint dict_get {A : Type} (d : dict A) (k : string) : option A :=
  match d with
  | [] => None
  | (k', v) :: rest => if String.eqb k k' then Some v else dict_get rest k
  end.

(** [k in d.keys()] *)
Definition contains {A : Type} (k : string) (d : dict A) : bool :=
  match dict_get d k with
  | Some _ => true
  | None => false
  end.

(** [d[k]] as an expression. *)
Definition getitem {A : Type} (d : dict A) (k : string) : result A :=
  match dict_get d k with
  | Some v => Ok v
  | None => Raise (KeyError k)
  end.

(** [d[k] = v]: an existing key keeps its place, a new key goes last. *)
Fixpoint dict_set {A : Type} (d : dict A) (k : string) (v : A) : dict A :=
  match d with
  | [] => [(k, v)]
  | (k', v') :: rest =>
      if String.eqb k k' then (k', v) :: rest
      else (k', v') :: dict_set rest k v
  end.

(** Membership in a list of names. *)
Definition mem (k : string) (l : list string) : bool :=
  existsb (String.eqb k) l.

End Py.

Import Py.

Declare Scope py_scope.
Delimit Scope py_scope with py.
Notation "x <- r ;; k" := (bind r (fun x => k))
  (at level 61, r at next level, right associativity) : py_scope.
Open Scope py_scope.

(* ================================================================== *)
(** ** The part of pandas the integrators use *)

Module Pandas.

(** A frame: its column labels and its rows, oldest first.  Every
    operation below produces rows keyed by the frame's columns. *)
Record DataFrame : Type := {
  columns : list string;
  rows : list (dict value)
}.

(** [pd.DataFrame(columns = cols)] *)
Definition DataFrame_columns (cols : list string) : DataFrame :=
  {| columns := cols; rows := [] |}.

(** [pd.DataFrame(d, index = [0])] for a dictionary of scalars. *)
Definition DataFrame_row (d : dict value) : DataFrame :=
  {| columns := keys d; rows := [d] |}.

(** A row relabelled to [cols]; a label it lacks is filled with [nan]. *)
Definition reindex (cols : list string) (row : dict value) : dict value :=
  map (fun c => (c, match dict_get row c with
                    | Some v => v
                    | None => NaN
                    end)) cols.

(** [pd.concat([a, b], ignore_index = True)]: the columns of [a], then
    those of [b] that [a] lacks; the rows of [a], then those of [b]. *)
Definition concat (a b : DataFrame) : DataFrame :=
  let cols :=
    columns a ++ filter (fun c => negb (mem c (columns a))) (columns b) in
  {| columns := cols; rows := map (reindex cols) (rows a ++ rows b) |}.

(** [df[c].values[-1]] *)
Definition last_value (df : DataFrame) (c : string) : result value :=
  if mem c (columns df) then
    match rev (rows df) with
    | [] => Raise IndexError
    | row :: _ => getitem row c
    end
  else Raise (KeyError c).

(** [df.iloc[-1].to_dict().copy()] *)
Definition iloc_last (df : DataFrame) : result (dict value) :=
  match rev (rows df) with
  | [] => Raise IndexError
  | row :: _ => Ok row
  end.

(** The same function applied to every cell of a row. *)
Definition map_cells (cell : value -> value) (row : dict value)
    : dict value :=
  map (fun kv : string * value => (fst kv, cell (snd kv))) row.

(** One cell under [df[df < bound] = 0]: [0] where the mask [v < bound]
    holds, [v] where it does not. *)
Definition below_to_zero (bound v : value) : value :=
  if vltb v bound then num 0 else v.

(** [df[df < bound] = 0] *)
Definition zero_below (bound : value) (df : DataFrame) : DataFrame :=
  {| columns := columns df;
     rows := map (map_cells (below_to_zero bound)) (rows df) |}.

(** The values of column [c], oldest first. *)
Definition column (df : DataFrame) (c : string) : list (option value) :=
  map (fun row => dict_get row c) (rows df).

End Pandas.

(* ================================================================== *)
(** ** ModelBase.py *)

Module ModelBase.

Import Pandas.

(** One entry of [self.variables].  The base class stores no ['axis'];
    the 2D subclass does. *)
Record var_info : Type := {
  derivative_function : dict value -> dict value -> result value;
  parameters : dict value;
  axis : option string
}.

Record DynamicModel : Type := {
  variables : dict var_info
}.

(** [DynamicModel.__init__] *)
Definition time_info : var_info :=
  {| derivative_function := fun _ _ => Ok (num 1);
     parameters := [];
     axis := None |}.

Definition init : DynamicModel :=
  {| variables := [("t", time_info)] |}.

Definition add_variable (self : DynamicModel) (name : string)
    (derivative_function : dict value -> dict value -> result value)
    (parameters : dict value) : DynamicModel :=
  {| variables :=
       dict_set (variables self) name
         {| derivative_function := derivative_function;
            parameters := parameters;
            axis := None |} |}.

(** The loop of [compute_derivative] over [self.variables.items()]. *)
Fixpoint compute_derivative_items (items : dict var_info)
    (variable_values : dict value) (derivatives : dict value)
    : result (dict value) :=
  match items with
  | [] => Ok derivatives
  | (variable, info) :: rest =>
      d <- derivative_function info variable_values (parameters info) ;;
      compute_derivative_items rest variable_values
        (dict_set derivatives variable d)
  end.

Definition compute_derivative (self : DynamicModel)
    (variable_values : dict value) : result (dict value) :=
  compute_derivative_items (variables self) variable_values [].

(** The inner [for variable in derivatives.keys()] of both integrators. *)
Fixpoint euler_update (names : list string)
    (variable_values_t derivatives : dict value) (dt : value)
    (result_values : dict value) : result (dict value) :=
  match names with
  | [] => Ok result_values
  | variable :: rest =>
      x <- getitem variable_values_t variable ;;
      d <- getitem derivatives variable ;;
      euler_update rest variable_values_t derivatives dt
        (dict_set result_values variable (vadd x (vmul d dt)))
  end.

(** One pass through the body of the [while] loop, up to the assignment
    [t = result_values['t']]: the new row and the new [t]. *)
Definition euler_step (self : DynamicModel) (dt : value)
    (result_df : DataFrame) : result (dict value * value) :=
  variable_values_t <- iloc_last result_df ;;
  derivatives <- compute_derivative self variable_values_t ;;
  result_values <-
    euler_update (keys derivatives) variable_values_t derivatives dt [] ;;
  t <- getitem result_values "t" ;;
  Ok (result_values, t).

(** The [while t < t_final] loop.  [post] is what is done to the frame
    of the new row before it is appended: nothing in [euler_integrate],
    the clamp in [euler_integrate_keep_positive]. *)
Fixpoint euler_loop (post : DataFrame -> DataFrame) (self : DynamicModel)
    (t_final dt : value) (fuel : nat) (result_df : DataFrame) (t : value)
    : option (result DataFrame) :=
  if vltb t t_final then
    match fuel with
    | O => None
    | S fuel' =>
        match euler_step self dt result_df with
        | Raise e => Some (Raise e)
        | Ok (result_values, t') =>
            euler_loop post self t_final dt fuel'
              (concat result_df (post (DataFrame_row result_values))) t'
        end
    end
  else Some (Ok result_df).

(** Lines 61-64 and 95-98: the frame holding the initial row, and the
    first reading of [t]. *)
Definition initial_frame (self : DynamicModel)
    (variables_initial : dict value) : DataFrame :=
  concat (DataFrame_columns (keys (variables self)))
         (DataFrame_row variables_initial).

Definition integrate_from (post : DataFrame -> DataFrame)
    (self : DynamicModel) (variables_initial : dict value)
    (t_final dt : value) (fuel : nat) : option (result DataFrame) :=
  let result_df := initial_frame self variables_initial in
  match last_value result_df "t" with
  | Raise e => Some (Raise e)
  | Ok t => euler_loop post self t_final dt fuel result_df t
  end.

(** [euler_integrate]: the caller's dictionary as the call leaves it,
    and the outcome. *)
Definition euler_integrate (self : DynamicModel)
    (variables_initial : dict value) (t_final dt : value) (fuel : nat)
    : dict value * option (result DataFrame) :=
  let variables_initial :=
    if negb (contains "t" variables_initial)
    then dict_set variables_initial "t" (num 0)
    else variables_initial in
  (variables_initial,
   integrate_from (fun df => df) self variables_initial t_final dt fuel).

(** The literal [1e-14] of line 108 is the binary64 number nearest to
    [10^-14], which is [6338253001141147 / 2^99], a little below it.
    Python compares an [int] or a [Fraction] with it exactly. *)
Definition literal_1e_14 : Q :=
  (6338253001141147 # 633825300114114700748351602688)%Q.

(** [euler_integrate_keep_positive]: it assigns to nothing the caller
    holds. *)
Definition euler_integrate_keep_positive (self : DynamicModel)
    (variables_initial : dict value) (t_final dt : value) (fuel : nat)
    : option (result DataFrame) :=
  integrate_from (zero_below (num literal_1e_14)) self variables_initial
    t_final dt fuel.

End ModelBase.

(* ================================================================== *)
(** ** The part of numpy the grid sampler uses *)

Module Numpy.

(** A two-dimensional array, as the list of its rows. *)
Definition ndarray : Type := list (list value).

Definition vdiv (a b : value) : value :=
  match a, b with
  | Num x, Num y => Num (Qred (x / y))
  | _, _ => NaN
  end.

Definition of_nat (n : nat) : value := num (inject_Z (Z.of_nat n)).

(** [np.linspace(start, stop, num)]: [num] evenly spaced samples, the
    last one [stop] itself when there are at least two. *)
Definition linspace (start stop : value) (num : nat) : list value :=
  match num with
  | O => []
  | S O => [vadd (vmul (of_nat 0) (vsub stop start)) start]
  | S div =>
      let step := vdiv (vsub stop start) (of_nat div) in
      map (fun i => vadd (vmul (of_nat i) step) start) (seq 0 div)
        ++ [stop]
  end.

(** [np.meshgrid(xs, ys)] with its default indexing ('xy'): both arrays
    have [len(ys)] rows and [len(xs)] columns. *)
Definition meshgrid (xs ys : list value) : ndarray * ndarray :=
  (map (fun _ => xs) ys, map (fun y => map (fun _ => y) xs) ys).

(** [np.empty_like(a)]: the shape of [a]; [garbage r c] stands for
    whatever the fresh memory holds at row [r], column [c]. *)
Definition empty_like (garbage : nat -> nat -> value) (a : ndarray)
    : ndarray :=
  map (fun r => map (garbage r) (seq 0 (List.length (nth r a []))))
      (seq 0 (List.length a)).

(** [a[i, j]] for [i, j >= 0] *)
Definition getitem2 (a : ndarray) (i j : nat) : result value :=
  match nth_error a i with
  | None => Raise IndexError
  | Some row =>
      match nth_error row j with
      | None => Raise IndexError
      | Some v => Ok v
      end
  end.

Fixpoint set_nth {A : Type} (l : list A) (n : nat) (x : A)
    : option (list A) :=
  match l, n with
  | [], _ => None
  | _ :: rest, O => Some (x :: rest)
  | y :: rest, S n' =>
      match set_nth rest n' x with
      | Some rest' => Some (y :: rest')
      | None => None
      end
  end.

(** [a[i, j] = v] for [i, j >= 0] *)
Definition setitem2 (a : ndarray) (i j : nat) (v : value)
    : result ndarray :=
  match nth_error a i with
  | None => Raise IndexError
  | Some row =>
      match set_nth row j v with
      | None => Raise IndexError
      | Some row' =>
          match set_nth a i row' with
          | None => Raise IndexError
          | Some a' => Ok a'
          end
      end
  end.

(** [a.shape == (r, c)] *)
Definition has_shape (a : ndarray) (r c : nat) : Prop :=
  List.length a = r /\ Forall (fun row => List.length row = c) a.

End Numpy.

(* ================================================================== *)
(** ** DynamicModel2D_Base.py *)

Module DynamicModel2D_Base.

Import Pandas ModelBase Numpy.

Record nullcline : Type := {
  nullcline_function : value -> dict value -> result value;
  nullcline_parameters : dict value;
  y_fun_x : bool
}.

Record DynamicModel2D : Type := {
  base : DynamicModel;
  variable_x : string;
  variable_y : string;
  nullclines : dict (list nullcline)
}.

(** The subclass's [add_variable], with the axis tag. *)
Definition add_variable (self : DynamicModel) (name : string)
    (derivative_function : dict value -> dict value -> result value)
    (parameters : dict value) (axis : string) : DynamicModel :=
  {| variables :=
       dict_set (variables self) name
         {| derivative_function := derivative_function;
            parameters := parameters;
            axis := Some axis |} |}.

(** [DynamicModel2D.__init__] *)
Definition init (variable_x : string)
    (derivative_function_x : dict value -> dict value -> result value)
    (parameters_x : dict value) (variable_y : string)
    (derivative_function_y : dict value -> dict value -> result value)
    (parameters_y : dict value) : DynamicModel2D :=
  let self := ModelBase.init in
  let self :=
    add_variable self variable_x derivative_function_x parameters_x "x" in
  let self :=
    add_variable self variable_y derivative_function_y parameters_y "y" in
  {| base := self;
     variable_x := variable_x;
     variable_y := variable_y;
     nullclines := [] |}.

Definition add_nullcline (self : DynamicModel2D) (name : string)
    (nullcline_function : value -> dict value -> result value)
    (parameters : dict value) (y_fun_x : bool) : DynamicModel2D :=
  let mydict :=
    {| nullcline_function := nullcline_function;
       nullcline_parameters := parameters;
       y_fun_x := y_fun_x |} in
  {| base := base self;
     variable_x := variable_x self;
     variable_y := variable_y self;
     nullclines :=
       match dict_get (nullclines self) name with
       | Some l => dict_set (nullclines self) name (l ++ [mydict])
       | None => dict_set (nullclines self) name [mydict]
       end |}.

(** The body of the two nested loops of [create_meshgrid_derivatives]
    at the index pair [(i, j)]. *)
Definition sample_point (self : DynamicModel2D) (t : value)
    (Xv Hv : ndarray) (i j : nat) (dots : ndarray * ndarray)
    : result (ndarray * ndarray) :=
  let X_name := variable_x self in
  let Y_name := variable_y self in
  x <- getitem2 Xv i j ;;
  y <- getitem2 Hv i j ;;
  let var_dict := dict_set (dict_set (dict_set [] "t" t) X_name x) Y_name y in
  derivatives <- compute_derivative (base self) var_dict ;;
  dy <- getitem derivatives Y_name ;;
  Ydot <- setitem2 (snd dots) i j dy ;;
  dx <- getitem derivatives X_name ;;
  Xdot <- setitem2 (fst dots) i j dx ;;
  Ok (Xdot, Ydot).

(** [for j in range(n_Y)] at a fixed [i] *)
Fixpoint sample_row (self : DynamicModel2D) (t : value) (Xv Hv : ndarray)
    (i : nat) (range_Y : list nat) (dots : ndarray * ndarray)
    : result (ndarray * ndarray) :=
  match range_Y with
  | [] => Ok dots
  | j :: rest =>
      dots' <- sample_point self t Xv Hv i j dots ;;
      sample_row self t Xv Hv i rest dots'
  end.

(** [for i in range(n_X)] *)
Fixpoint sample_rows (self : DynamicModel2D) (t : value) (Xv Hv : ndarray)
    (range_X range_Y : list nat) (dots : ndarray * ndarray)
    : result (ndarray * ndarray) :=
  match range_X with
  | [] => Ok dots
  | i :: rest =>
      dots' <- sample_row self t Xv Hv i range_Y dots ;;
      sample_rows self t Xv Hv rest range_Y dots'
  end.

(** [create_meshgrid_derivatives]; [garbage_x] and [garbage_y] are the
    unspecified contents of the two [np.empty_like] arrays. *)
Definition create_meshgrid_derivatives
    (garbage_x garbage_y : nat -> nat -> value)
    (self : DynamicModel2D) (n_X n_Y : nat) (Xlim Ylim : value * value)
    (t : value) : result (ndarray * ndarray * ndarray * ndarray) :=
  let (Xv, Hv) :=
    meshgrid (linspace (fst Xlim) (snd Xlim) n_X)
             (linspace (fst Ylim) (snd Ylim) n_Y) in
  let Xdot := empty_like garbage_x Xv in
  let Ydot := empty_like garbage_y Hv in
  dots <- sample_rows self t Xv Hv (seq 0 n_X) (seq 0 n_Y) (Xdot, Ydot) ;;
  Ok (Xv, Hv, fst dots, snd dots).

End DynamicModel2D_Base.

(* ================================================================== *)
(** ** The example model of [ModelBase.py]'s [__main__] block *)

Module Example.

Import Pandas ModelBase.

(** [parameters['a'] * variables['y']] *)
Definition derivative_function_x (variables parameters : dict value)
    : result value :=
  a <- getitem parameters "a" ;;
  y <- getitem variables "y" ;;
  Ok (vmul a y).

(** [-parameters['b'] * variables['x']] *)
Definition derivative_function_y (variables parameters : dict value)
    : result value :=
  b <- getitem parameters "b" ;;
  x <- getitem variables "x" ;;
  Ok (vmul (vneg b) x).

Definition model : DynamicModel :=
  let model := ModelBase.init in
  let model :=
    ModelBase.add_variable model "x" derivative_function_x
      [("a", num 1)] in
  ModelBase.add_variable model "y" derivative_function_y
    [("b", num 100)].

(** The same two variables as a 2D model. *)
Definition model2D : DynamicModel2D_Base.DynamicModel2D :=
  DynamicModel2D_Base.init "x" derivative_function_x [("a", num 1)]
                           "y" derivative_function_y [("b", num 100)].

End Example.

(* ================================================================== *)
(** ** The derivative evaluator with the callables' effects spelled out

    Above, a derivative function is a function of its two arguments.  A
    Python callable can do more: assign to the snapshot and to the
    parameter dictionary it is handed, and to anything else it can reach.
    Here [compute_derivative] is written against such callables, so that
    what the evaluator itself does to the state can be stated. *)

Module Effects.

Section World.

(** Whatever a callable can reach besides its two arguments. *)
Variable W : Type.

(** The outcome of a call, and the snapshot, the parameters and the
    world as the call leaves them. *)
Definition callable : Type :=
  dict value -> dict value -> W ->
  result value * dict value * dict value * W.

Record var_info : Type := {
  derivative_function : callable;
  parameters : dict value
}.

(** What one call of the evaluator can read and write. *)
Record heap : Type := {
  self_variables : dict var_info;
  variable_values : dict value;
  world : W
}.

(** The loop over [self.variables.items()]: the outcome, the entries
    as the loop leaves them, the snapshot and the world. *)
Fixpoint compute_derivative_items (items : dict var_info)
    (variable_values : dict value) (w : W) (derivatives : dict value)
    : result (dict value) * dict var_info * dict value * W :=
  match items with
  | [] => (Ok derivatives, [], variable_values, w)
  | (variable, info) :: rest =>
      let '(r, variable_values', parameters', w') :=
        derivative_function info variable_values (parameters info) w in
      let info' :=
        {| derivative_function := derivative_function info;
           parameters := parameters' |} in
      match r with
      | Raise e =>
          (Raise e, (variable, info') :: rest, variable_values', w')
      | Ok d =>
          let '(r', rest', variable_values'', w'') :=
            compute_derivative_items rest variable_values' w'
              (dict_set derivatives variable d) in
          (r', (variable, info') :: rest', variable_values'', w'')
      end
  end.

Definition compute_derivative (h : heap) : result (dict value) * heap :=
  let '(r, items, variable_values', w') :=
    compute_derivative_items (self_variables h) (variable_values h)
      (world h) [] in
  (r, {| self_variables := items;
         variable_values := variable_values';
         world := w' |}).

(** A pure callable: its outcome is a function of its arguments, and
    it leaves everything as it found it. *)
Definition pure (f : callable) : Prop :=
  exists g : dict value -> dict value -> result value,
    forall variables parameters w,
      f variables parameters w = (g variables parameters, variables,
                                  parameters, w).

Definition all_pure (items : dict var_info) : Prop :=
  Forall (fun entry => pure (derivative_function (snd entry))) items.

(** The callable that a function of the two arguments stands for. *)
Definition lift (g : dict value -> dict value -> result value)
    : callable :=
  fun variables parameters w =>
    (g variables parameters, variables, parameters, w).

Definition lift_info (info : ModelBase.var_info) : var_info :=
  {| derivative_function := lift (ModelBase.derivative_function info);
     parameters := ModelBase.parameters info |}.

Definition lift_variables (items : dict ModelBase.var_info)
    : dict var_info :=
  map (fun entry => (fst entry, lift_info (snd entry))) items.

End World.

Arguments derivative_function {W} _.
Arguments parameters {W} _.
Arguments self_variables {W} _.
Arguments variable_values {W} _.
Arguments world {W} _.
Arguments compute_derivative_items {W} _ _ _ _.
Arguments compute_derivative {W} _.
Arguments pure {W} _.
Arguments all_pure {W} _.
Arguments lift {W} _.
Arguments lift_info {W} _.
Arguments lift_variables {W} _.

End Effects.

(* ================================================================== *)
(** ** [euler_integrate] on binary64 numbers

    On [float] inputs Python adds, multiplies and compares in binary64.
    This is [ModelBase.euler_integrate] again, line for line, over the
    kernel's binary64 numbers, whose operations round as IEEE 754 does
    and whose [nan] is pandas' missing value. *)

Module Binary64.

Import PrimFloat.

Record DataFrame : Type := {
  columns : list string;
  rows : list (dict float)
}.

(** [pd.DataFrame(columns = cols)] *)
Definition DataFrame_columns (cols : list string) : DataFrame :=
  {| columns := cols; rows := [] |}.

(** [pd.DataFrame(d, index = [0])] *)
Definition DataFrame_row (d : dict float) : DataFrame :=
  {| columns := keys d; rows := [d] |}.

Definition reindex (cols : list string) (row : dict float) : dict float :=
  map (fun c => (c, match dict_get row c with
                    | Some v => v
                    | None => nan
                    end)) cols.

(** [pd.concat([a, b], ignore_index = True)] *)
Definition concat (a b : DataFrame) : DataFrame :=
  let cols :=
    columns a ++ filter (fun c => negb (mem c (columns a))) (columns b) in
  {| columns := cols; rows := map (reindex cols) (rows a ++ rows b) |}.

(** [df[c].values[-1]] *)
Definition last_value (df : DataFrame) (c : string) : result float :=
  if mem c (columns df) then
    match rev (rows df) with
    | [] => Raise IndexError
    | row :: _ => getitem row c
    end
  else Raise (KeyError c).

(** [df.iloc[-1].to_dict().copy()] *)
Definition iloc_last (df : DataFrame) : result (dict float) :=
  match rev (rows df) with
  | [] => Raise IndexError
  | row :: _ => Ok row
  end.

Record var_info : Type := {
  derivative_function : dict float -> dict float -> result float;
  parameters : dict float;
  axis : option string
}.

Record DynamicModel : Type := {
  variables : dict var_info
}.

(** [DynamicModel.__init__]; the [1] the lambda returns enters the
    product [1 * dt] as [1.0]. *)
Definition time_info : var_info :=
  {| derivative_function := fun _ _ => Ok 1%float;
     parameters := [];
     axis := None |}.

Definition init : DynamicModel :=
  {| variables := [("t", time_info)] |}.

Definition add_variable (self : DynamicModel) (name : string)
    (derivative_function : dict float -> dict float -> result float)
    (parameters : dict float) : DynamicModel :=
  {| variables :=
       dict_set (variables self) name
         {| derivative_function := derivative_function;
            parameters := parameters;
            axis := None |} |}.

Fixpoint compute_derivative_items (items : dict var_info)
    (variable_values : dict float) (derivatives : dict float)
    : result (dict float) :=
  match items with
  | [] => Ok derivatives
  | (variable, info) :: rest =>
      d <- derivative_function info variable_values (parameters info) ;;
      compute_derivative_items rest variable_values
        (dict_set derivatives variable d)
  end.

Definition compute_derivative (self : DynamicModel)
    (variable_values : dict float) : result (dict float) :=
  compute_derivative_items (variables self) variable_values [].

Fixpoint euler_update (names : list string)
    (variable_values_t derivatives : dict float) (dt : float)
    (result_values : dict float) : result (dict float) :=
  match names with
  | [] => Ok result_values
  | variable :: rest =>
      x <- getitem variable_values_t variable ;;
      d <- getitem derivatives variable ;;
      euler_update rest variable_values_t derivatives dt
        (dict_set result_values variable (add x (mul d dt)))
  end.

Definition euler_step (self : DynamicModel) (dt : float)
    (result_df : DataFrame) : result (dict float * float) :=
  variable_values_t <- iloc_last result_df ;;
  derivatives <- compute_derivative self variable_values_t ;;
  result_values <-
    euler_update (keys derivatives) variable_values_t derivatives dt [] ;;
  t <- getitem result_values "t" ;;
  Ok (result_values, t).

(** The [while t < t_final] loop of [euler_integrate]. *)
Fixpoint euler_loop (self : DynamicModel) (t_final dt : float) (fuel : nat)
    (result_df : DataFrame) (t : float) : option (result DataFrame) :=
  if ltb t t_final then
    match fuel with
    | O => None
    | S fuel' =>
        match euler_step self dt result_df with
        | Raise e => Some (Raise e)
        | Ok (result_values, t') =>
            euler_loop self t_final dt fuel'
              (concat result_df (DataFrame_row result_values)) t'
        end
    end
  else Some (Ok result_df).

Definition initial_frame (self : DynamicModel)
    (variables_initial : dict float) : DataFrame :=
  concat (DataFrame_columns (keys (variables self)))
         (DataFrame_row variables_initial).

(** [euler_integrate]: the caller's dictionary as the call leaves it,
    and the outcome. *)
Definition euler_integrate (self : DynamicModel)
    (variables_initial : dict float) (t_final dt : float) (fuel : nat)
    : dict float * option (result DataFrame) :=
  let variables_initial :=
    if negb (contains "t" variables_initial)
    then dict_set variables_initial "t" 0%float
    else variables_initial in
  let result_df := initial_frame self variables_initial in
  (variables_initial,
   match last_value result_df "t" with
   | Raise e => Some (Raise e)
   | Ok t => euler_loop self t_final dt fuel result_df t
   end).

End Binary64.

(* ================================================================== *)
(** ** The 2D plotting methods, as the calls they make on the axes

    [plot_nullclines], [plot_streamplot] and [plot_phase_portrait] draw on
    a matplotlib [Axes].  The axes are the list of the calls made on them
    so far, oldest first; matplotlib is taken to accept every call.  A
    method leaves the axes as it drew on them also when it raises, so
    each method answers the axes and its outcome.  [None] for the axes
    stands for a call that passes neither [fig] nor [ax], [Some] for a
    call that passes both. *)

Module Rendering.

Import Numpy DynamicModel2D_Base.

Inductive call : Type :=
| plot (xs ys : list value) (color : option string)
| streamplot (xv yv xdot ydot : ndarray)
| set_xlim (lim : value * value)
| set_ylim (lim : value * value).

Definition axes : Type := list call.

(** [[f(_, pars) for _ in x]] *)
Fixpoint comprehension (f : value -> dict value -> result value)
    (pars : dict value) (x : list value) : result (list value) :=
  match x with
  | [] => Ok []
  | v :: rest =>
      y <- f v pars ;;
      ys <- comprehension f pars rest ;;
      Ok (y :: ys)
  end.

(** The body of the loop of [plot_nullclines] for one registered curve. *)
Definition plot_nullcline (xlim ylim : value * value)
    (color : option string) (ax : axes) (nullcline_dict : nullcline)
    : axes * result unit :=
  let f := nullcline_function nullcline_dict in
  let pars := nullcline_parameters nullcline_dict in
  if y_fun_x nullcline_dict then
    let x := linspace (fst xlim) (snd xlim) 1000 in
    match comprehension f pars x with
    | Raise e => (ax, Raise e)
    | Ok y => (ax ++ [plot x y color], Ok tt)
    end
  else
    let x := linspace (fst ylim) (snd ylim) 1000 in
    match comprehension f pars x with
    | Raise e => (ax, Raise e)
    | Ok y => (ax ++ [plot y x color], Ok tt)
    end.

Fixpoint plot_nullcline_list (xlim ylim : value * value)
    (color : option string) (ax : axes) (l : list nullcline)
    : axes * result unit :=
  match l with
  | [] => (ax, Ok tt)
  | nullcline_dict :: rest =>
      match plot_nullcline xlim ylim color ax nullcline_dict with
      | (ax', Raise e) => (ax', Raise e)
      | (ax', Ok _) => plot_nullcline_list xlim ylim color ax' rest
      end
  end.

(** The axes a method draws on: the ones passed, or fresh ones. *)
Definition subplots_unless (ax : option axes) : axes :=
  match ax with
  | Some a => a
  | None => []
  end.

(** [plot_nullclines]: the axes, and whether [(fig, ax)] is returned
    ([flag_ret_figs]) or [None]. *)
Definition plot_nullclines (self : DynamicModel2D) (variable : string)
    (xlim ylim : value * value) (ax : option axes) (color : option string)
    : axes * result bool :=
  let flag_ret_figs := match ax with None => true | Some _ => false end in
  let ax := subplots_unless ax in
  match dict_get (nullclines self) variable with
  | None => (ax, Raise (KeyError variable))
  | Some l =>
      match plot_nullcline_list xlim ylim color ax l with
      | (ax', Raise e) => (ax', Raise e)
      | (ax', Ok _) => (ax', Ok flag_ret_figs)
      end
  end.

(** [plot_streamplot]; the grid is sampled before the axes are made. *)
Definition plot_streamplot (garbage_x garbage_y : nat -> nat -> value)
    (self : DynamicModel2D) (t : value) (n_X n_Y : nat)
    (xlim ylim : value * value) (ax : option axes) : axes * result bool :=
  match create_meshgrid_derivatives garbage_x garbage_y self n_X n_Y
          xlim ylim t with
  | Raise e => (subplots_unless ax, Raise e)
  | Ok (xv, yv, xdot, ydot) =>
      let flag_ret_figs := match ax with None => true | Some _ => false end in
      (subplots_unless ax ++ [streamplot xv yv xdot ydot], Ok flag_ret_figs)
  end.

(** [colors[i]] *)
Definition color_at (colors : list string) (i : nat) : result string :=
  match nth_error colors i with
  | Some c => Ok c
  | None => Raise IndexError
  end.

(** [plot_phase_portrait].  With [colors] given, the nullclines of the y
    variable are asked for with [ylim] in the place of [xlim], as line
    143 has it. *)
Definition plot_phase_portrait (garbage_x garbage_y : nat -> nat -> value)
    (self : DynamicModel2D) (t : value) (n_X n_Y : nat)
    (xlim ylim : value * value) (colors : option (list string))
    (ax : option axes) : axes * result bool :=
  let flag_ret_figs := match ax with None => true | Some _ => false end in
  let ax := subplots_unless ax in
  match plot_streamplot garbage_x garbage_y self t n_X n_Y xlim ylim
          (Some ax) with
  | (ax, Raise e) => (ax, Raise e)
  | (ax, Ok _) =>
      let after_nullclines :=
        match colors with
        | None =>
            match plot_nullclines self (variable_x self) xlim ylim
                    (Some ax) None with
            | (ax, Raise e) => (ax, Raise e)
            | (ax, Ok _) =>
                plot_nullclines self (variable_y self) xlim ylim
                  (Some ax) None
            end
        | Some colors =>
            match color_at colors 0 with
            | Raise e => (ax, Raise e)
            | Ok c0 =>
                match plot_nullclines self (variable_x self) xlim ylim
                        (Some ax) (Some c0) with
                | (ax, Raise e) => (ax, Raise e)
                | (ax, Ok _) =>
                    match color_at colors 1 with
                    | Raise e => (ax, Raise e)
                    | Ok c1 =>
                        plot_nullclines self (variable_y self) ylim ylim
                          (Some ax) (Some c1)
                    end
                end
            end
        end in
      match after_nullclines with
      | (ax, Raise e) => (ax, Raise e)
      | (ax, Ok _) => (ax ++ [set_xlim xlim; set_ylim ylim], Ok flag_ret_figs)
      end
  end.

End Rendering.

Import Pandas ModelBase.

(* ================================================================== *)
(** ** Dictionaries *)

Section DictFacts.

Context {A : Type}.
Implicit Types (d : dict A) (k : string) (v : A).

Lemma mem_In k (l : list string) : mem k l = true <-> In k l.
Proof.
  unfold mem. rewrite existsb_exists. split.
  - intros [x [Hx Hk]]. apply String.eqb_eq in Hk. now subst.
  - intros H. exists k. split; [assumption | apply String.eqb_refl].
Qed.

Lemma mem_not_In k (l : list string) : mem k l = false <-> ~ In k l.
Proof.
  rewrite <- mem_In. destruct (mem k l); split; congruence.
Qed.

Lemma dict_get_None d k : dict_get d k = None <-> ~ In k (keys d).
Proof.
  induction d as [|[k' v'] d IH]; simpl.
  - tauto.
  - destruct (String.eqb_spec k k') as [->|Hne].
    + split; [discriminate | intros H; exfalso; apply H; now left].
    + rewrite IH. split; [intros H [E|E]; [congruence | auto] | tauto].
Qed.

Lemma dict_get_Some_In d k v : dict_get d k = Some v -> In k (keys d).
Proof.
  intros H. destruct (in_dec string_dec k (keys d)) as [Hin|Hnin].
  - assumption.
  - apply dict_get_None in Hnin. congruence.
Qed.

Lemma dict_get_In d k : In k (keys d) -> exists v, dict_get d k = Some v.
Proof.
  intros H. destruct (dict_get d k) as [v|] eqn:E.
  - now exists v.
  - apply dict_get_None in E. contradiction.
Qed.

Lemma dict_get_pair d k v :
  NoDup (keys d) -> In (k, v) d -> dict_get d k = Some v.
Proof.
  induction d as [|[k' v'] d IH]; simpl; intros Hnd Hin.
  - contradiction.
  - inversion Hnd as [|? ? Hnotin Hnd']; subst.
    destruct Hin as [E|Hin].
    + inversion E; subst. now rewrite String.eqb_refl.
    + destruct (String.eqb_spec k k') as [->|Hne].
      * exfalso. apply Hnotin. change (In k' (keys d)).
        unfold keys. apply in_map_iff. now exists (k', v).
      * now apply IH.
Qed.

Lemma contains_false d k : contains k d = false <-> dict_get d k = None.
Proof.
  unfold contains. destruct (dict_get d k); split; congruence.
Qed.

Lemma dict_get_set_same d k v : dict_get (dict_set d k v) k = Some v.
Proof.
  induction d as [|[k' v'] d IH]; simpl.
  - now rewrite String.eqb_refl.
  - destruct (String.eqb_spec k k') as [->|Hne]; simpl.
    + now rewrite String.eqb_refl.
    + destruct (String.eqb_spec k k'); [contradiction | exact IH].
Qed.

Lemma dict_get_set_other d k k' v :
  k' <> k -> dict_get (dict_set d k v) k' = dict_get d k'.
Proof.
  intros Hne. induction d as [|[k0 v0] d IH]; simpl.
  - destruct (String.eqb_spec k' k); [contradiction | reflexivity].
  - destruct (String.eqb_spec k k0) as [->|Hk]; simpl.
    + destruct (String.eqb_spec k' k0); [contradiction | reflexivity].
    + destruct (String.eqb_spec k' k0); [reflexivity | exact IH].
Qed.

(** Assigning to an absent key appends it. *)
Lemma dict_set_absent d k v :
  dict_get d k = None -> dict_set d k v = d ++ [(k, v)].
Proof.
  induction d as [|[k' v'] d IH]; simpl; intros H.
  - reflexivity.
  - destruct (String.eqb_spec k k'); [discriminate |].
    now rewrite IH.
Qed.

(** Assigning to a present key leaves the key list alone. *)
Lemma keys_dict_set_present d k v :
  In k (keys d) -> keys (dict_set d k v) = keys d.
Proof.
  induction d as [|[k' v'] d IH]; simpl; intros H.
  - contradiction.
  - destruct (String.eqb_spec k k') as [->|Hne]; simpl.
    + reflexivity.
    + f_equal. apply IH. destruct H; [congruence | assumption].
Qed.

Lemma keys_dict_set_absent d k v :
  ~ In k (keys d) -> keys (dict_set d k v) = keys d ++ [k].
Proof.
  intros H. apply dict_get_None in H.
  rewrite (dict_set_absent _ _ _ H). unfold keys. now rewrite map_app.
Qed.

Lemma In_keys_dict_set d k v k' :
  In k' (keys (dict_set d k v)) <-> k' = k \/ In k' (keys d).
Proof.
  destruct (in_dec string_dec k (keys d)) as [Hin|Hnin].
  - rewrite keys_dict_set_present by assumption.
    split; [tauto | intros [->|H]; assumption].
  - rewrite keys_dict_set_absent by assumption.
    rewrite in_app_iff. simpl. split.
    + intros [H|[H|[]]]; [now right | now left].
    + intros [->|H]; [right; now left | now left].
Qed.

Lemma NoDup_keys_dict_set d k v :
  NoDup (keys d) -> NoDup (keys (dict_set d k v)).
Proof.
  intros Hnd. destruct (in_dec string_dec k (keys d)) as [Hin|Hnin].
  - now rewrite keys_dict_set_present.
  - rewrite keys_dict_set_absent by assumption.
    apply NoDup_app; [assumption | repeat constructor; auto |].
    intros x Hx [<-|[]]. contradiction.
Qed.

End DictFacts.

(* ================================================================== *)
(** ** Frames *)

Lemma keys_reindex cols row : keys (reindex cols row) = cols.
Proof.
  unfold keys, reindex. rewrite map_map. simpl. apply map_id.
Qed.

Lemma dict_get_reindex cols row c :
  In c cols ->
  dict_get (reindex cols row) c =
  Some (match dict_get row c with Some v => v | None => NaN end).
Proof.
  induction cols as [|c' cols IH]; simpl; intros H.
  - contradiction.
  - destruct (String.eqb_spec c c') as [->|Hne]; [reflexivity |].
    apply IH. destruct H; [congruence | assumption].
Qed.

(** Relabelling a row to its own labels changes nothing. *)
Lemma reindex_id row : NoDup (keys row) -> reindex (keys row) row = row.
Proof.
  intros Hnd.
  assert (H : forall l, incl l row ->
            map (fun c => (c, match dict_get row c with
                              | Some v => v
                              | None => NaN
                              end)) (keys l) = l).
  { induction l as [|[k v] l IH]; simpl; intros Hincl.
    - reflexivity.
    - rewrite (dict_get_pair row k v Hnd) by (apply Hincl; now left).
      f_equal. apply IH. intros x Hx. apply Hincl. now right. }
  apply H. apply incl_refl.
Qed.

Lemma filter_absent_nil (cols names : list string) :
  incl names cols -> filter (fun c => negb (mem c cols)) names = [].
Proof.
  induction names as [|n names IH]; simpl; intros Hincl.
  - reflexivity.
  - assert (Hn : mem n cols = true) by (apply mem_In, Hincl; now left).
    rewrite Hn. simpl. apply IH. intros x Hx. apply Hincl. now right.
Qed.

Lemma NoDup_filter_absent (cols names : list string) :
  NoDup cols -> NoDup names ->
  NoDup (cols ++ filter (fun c => negb (mem c cols)) names).
Proof.
  intros Hc Hn. apply NoDup_app.
  - assumption.
  - now apply NoDup_filter.
  - intros x Hx Hf. apply filter_In in Hf. destruct Hf as [_ Hf].
    apply mem_In in Hx. rewrite Hx in Hf. discriminate.
Qed.

(** A frame whose rows are all keyed by its (distinct) columns. *)
Definition frame_ok (df : DataFrame) : Prop :=
  NoDup (columns df) /\ Forall (fun row => keys row = columns df) (rows df).

(** Appending a one-row frame whose labels the frame already has: the
    columns and the old rows stay, the new row is relabelled. *)
Lemma concat_row df row :
  frame_ok df -> incl (keys row) (columns df) ->
  concat df (DataFrame_row row) =
  {| columns := columns df;
     rows := rows df ++ [reindex (columns df) row] |}.
Proof.
  intros [Hnd Hrows] Hincl. unfold concat, DataFrame_row. simpl.
  rewrite (filter_absent_nil _ _ Hincl), app_nil_r. f_equal.
  rewrite map_app. simpl. f_equal.
  rewrite <- (map_id (rows df)) at 2. apply map_ext_in.
  intros r Hr. rewrite Forall_forall in Hrows.
  rewrite <- (Hrows r Hr). apply reindex_id. now rewrite (Hrows r Hr).
Qed.

Lemma concat_row_ok df row :
  frame_ok df -> incl (keys row) (columns df) ->
  frame_ok (concat df (DataFrame_row row)).
Proof.
  intros Hok Hincl. rewrite concat_row by assumption.
  destruct Hok as [Hnd Hrows]. split; simpl; [assumption |].
  apply Forall_app. split; [assumption |].
  constructor; [apply keys_reindex | constructor].
Qed.

Lemma initial_frame_columns self variables_initial :
  columns (initial_frame self variables_initial) =
  keys (variables self) ++
  filter (fun c => negb (mem c (keys (variables self))))
         (keys variables_initial).
Proof. reflexivity. Qed.

Lemma initial_frame_rows self variables_initial :
  rows (initial_frame self variables_initial) =
  [reindex (columns (initial_frame self variables_initial))
           variables_initial].
Proof. reflexivity. Qed.

Lemma initial_frame_ok self variables_initial :
  NoDup (keys (variables self)) -> NoDup (keys variables_initial) ->
  frame_ok (initial_frame self variables_initial).
Proof.
  intros Hs Hv. split.
  - rewrite initial_frame_columns. now apply NoDup_filter_absent.
  - rewrite initial_frame_rows. constructor; [apply keys_reindex | constructor].
Qed.

(** With no key outside the registry, the columns are the registered
    names. *)
Lemma initial_frame_columns_incl self variables_initial :
  incl (keys variables_initial) (keys (variables self)) ->
  columns (initial_frame self variables_initial) = keys (variables self).
Proof.
  intros H. rewrite initial_frame_columns, filter_absent_nil by assumption.
  apply app_nil_r.
Qed.

Lemma last_value_app df row c :
  In c (columns df) ->
  last_value {| columns := columns df; rows := rows df ++ [row] |} c =
  getitem row c.
Proof.
  intros H. unfold last_value. simpl.
  apply mem_In in H. rewrite H, rev_app_distr. reflexivity.
Qed.

Lemma iloc_last_app cols rs row :
  iloc_last {| columns := cols; rows := rs ++ [row] |} = Ok row.
Proof.
  unfold iloc_last. simpl. now rewrite rev_app_distr.
Qed.

(* ================================================================== *)
(** ** The derivative evaluator *)

(** The registry of a model: distinct names, ['t'] among them. *)
Definition model_ok (self : DynamicModel) : Prop :=
  NoDup (keys (variables self)) /\ In "t" (keys (variables self)).

(** ['t'] still has the entry [__init__] gave it. *)
Definition default_time (self : DynamicModel) : Prop :=
  dict_get (variables self) "t" = Some time_info.

(** Every registered derivative function returns on the snapshot [s]. *)
Definition returns_on (self : DynamicModel) (s : dict value) : Prop :=
  forall name info,
    In (name, info) (variables self) ->
    exists v, derivative_function info s (parameters info) = Ok v.

Lemma init_ok : model_ok init.
Proof.
  split; simpl.
  - repeat constructor. simpl. tauto.
  - now left.
Qed.

Lemma add_variable_ok self name f p :
  model_ok self -> model_ok (add_variable self name f p).
Proof.
  intros [Hnd Ht]. split; simpl.
  - now apply NoDup_keys_dict_set.
  - apply In_keys_dict_set. now right.
Qed.

Lemma add_variable_default_time self name f p :
  name <> "t" -> default_time self ->
  default_time (add_variable self name f p).
Proof.
  intros Hne Hd. unfold default_time. simpl.
  rewrite dict_get_set_other by congruence. exact Hd.
Qed.

Lemma compute_derivative_items_keys items s :
  NoDup (keys items) ->
  forall acc d,
    (forall k, In k (keys items) -> ~ In k (keys acc)) ->
    compute_derivative_items items s acc = Ok d ->
    keys d = keys acc ++ keys items.
Proof.
  induction items as [|[variable info] items IH]; simpl; intros Hnd acc d Hdis H.
  - inversion H; subst. now rewrite app_nil_r.
  - inversion Hnd as [|? ? Hnotin Hnd']; subst.
    destruct (derivative_function info s (parameters info)) as [v|e];
      simpl in H; [|discriminate].
    apply IH in H; [| assumption |].
    + rewrite H, keys_dict_set_absent by (apply Hdis; now left).
      now rewrite <- app_assoc.
    + intros k Hk Hin. apply In_keys_dict_set in Hin.
      destruct Hin as [->|Hin]; [contradiction |].
      apply (Hdis k); [now right | assumption].
Qed.

Lemma compute_derivative_items_get items s :
  NoDup (keys items) ->
  forall acc d,
    compute_derivative_items items s acc = Ok d ->
    (forall name info, In (name, info) items ->
       exists v, derivative_function info s (parameters info) = Ok v /\
                 dict_get d name = Some v) /\
    (forall name, ~ In name (keys items) ->
       dict_get d name = dict_get acc name).
Proof.
  induction items as [|[variable info] items IH]; simpl; intros Hnd acc d H.
  - inversion H; subst. split; [intros ? ? [] | reflexivity].
  - inversion Hnd as [|? ? Hnotin Hnd']; subst.
    destruct (derivative_function info s (parameters info)) as [v|e] eqn:Ef;
      simpl in H; [|discriminate].
    destruct (IH Hnd' _ _ H) as [Hin Hout]. split.
    + intros name info' [E|Hi].
      * inversion E; subst. exists v. split; [assumption |].
        rewrite (Hout name Hnotin). apply dict_get_set_same.
      * now apply Hin.
    + intros name Hn. rewrite Hout by tauto.
      apply dict_get_set_other. intros ->. apply Hn. now left.
Qed.

Lemma compute_derivative_items_returns items s acc :
  (forall name info, In (name, info) items ->
     exists v, derivative_function info s (parameters info) = Ok v) ->
  exists d, compute_derivative_items items s acc = Ok d.
Proof.
  revert acc. induction items as [|[variable info] items IH]; simpl; intros acc H.
  - now exists acc.
  - destruct (H variable info (or_introl eq_refl)) as [v ->]. simpl.
    apply IH. intros name info' Hin. apply (H name info'). now right.
Qed.

(** The evaluator's answer has exactly the registered names, in the
    registry's order. *)
Lemma compute_derivative_keys self s d :
  NoDup (keys (variables self)) ->
  compute_derivative self s = Ok d -> keys d = keys (variables self).
Proof.
  intros Hnd H. unfold compute_derivative in H.
  apply compute_derivative_items_keys in H; [exact H | assumption |].
  intros k _ [].
Qed.

Lemma compute_derivative_get self s d name info :
  NoDup (keys (variables self)) ->
  compute_derivative self s = Ok d ->
  In (name, info) (variables self) ->
  exists v, derivative_function info s (parameters info) = Ok v /\
            dict_get d name = Some v.
Proof.
  intros Hnd H Hin.
  destruct (compute_derivative_items_get _ s Hnd _ _ H) as [Hget _].
  now apply Hget.
Qed.

Lemma compute_derivative_returns self s :
  returns_on self s -> exists d, compute_derivative self s = Ok d.
Proof.
  intros H. now apply compute_derivative_items_returns.
Qed.

Lemma dict_get_In_pair {A : Type} (d : dict A) k v :
  dict_get d k = Some v -> In (k, v) d.
Proof.
  induction d as [|[k' v'] d IH]; simpl; [discriminate |].
  destruct (String.eqb_spec k k') as [->|Hne]; intros H.
  - inversion H; subst. now left.
  - right. now apply IH.
Qed.

(* ================================================================== *)
(** ** One Euler step *)

Lemma euler_update_keys names vv ds dt :
  NoDup names ->
  forall acc rv,
    (forall k, In k names -> ~ In k (keys acc)) ->
    euler_update names vv ds dt acc = Ok rv ->
    keys rv = keys acc ++ names.
Proof.
  induction names as [|n names IH]; simpl; intros Hnd acc rv Hdis H.
  - inversion H; subst. now rewrite app_nil_r.
  - inversion Hnd as [|? ? Hnotin Hnd']; subst.
    destruct (getitem vv n) as [x|e]; simpl in H; [|discriminate].
    destruct (getitem ds n) as [d|e]; simpl in H; [|discriminate].
    apply IH in H; [| assumption |].
    + rewrite H, keys_dict_set_absent by (apply Hdis; now left).
      now rewrite <- app_assoc.
    + intros k Hk Hin. apply In_keys_dict_set in Hin.
      destruct Hin as [->|Hin]; [contradiction |].
      apply (Hdis k); [now right | assumption].
Qed.

Lemma euler_update_get names vv ds dt :
  NoDup names ->
  forall acc rv,
    euler_update names vv ds dt acc = Ok rv ->
    (forall n, In n names ->
       exists x d, dict_get vv n = Some x /\ dict_get ds n = Some d /\
                   dict_get rv n = Some (vadd x (vmul d dt))) /\
    (forall n, ~ In n names -> dict_get rv n = dict_get acc n).
Proof.
  induction names as [|n names IH]; simpl; intros Hnd acc rv H.
  - inversion H; subst. split; [intros ? [] | reflexivity].
  - inversion Hnd as [|? ? Hnotin Hnd']; subst.
    unfold getitem in H.
    destruct (dict_get vv n) as [x|] eqn:Ex; simpl in H; [|discriminate].
    destruct (dict_get ds n) as [d|] eqn:Ed; simpl in H; [|discriminate].
    destruct (IH Hnd' _ _ H) as [Hin Hout]. split.
    + intros m [<-|Hm].
      * exists x, d. repeat split; try assumption.
        rewrite (Hout n Hnotin). apply dict_get_set_same.
      * now apply Hin.
    + intros m Hm. rewrite Hout by tauto.
      apply dict_get_set_other. intros ->. apply Hm. now left.
Qed.

Lemma euler_update_returns names vv ds dt acc :
  incl names (keys vv) -> incl names (keys ds) ->
  exists rv, euler_update names vv ds dt acc = Ok rv.
Proof.
  revert acc. induction names as [|n names IH]; simpl; intros acc Hv Hd.
  - now exists acc.
  - destruct (dict_get_In vv n) as [x Ex]; [apply Hv; now left |].
    destruct (dict_get_In ds n) as [d Ed]; [apply Hd; now left |].
    unfold getitem. rewrite Ex, Ed. simpl.
    apply IH; intros k Hk; [apply Hv | apply Hd]; now right.
Qed.

(** What a step that returns has computed from the last row. *)
Lemma euler_step_spec self dt cols rs row rv t :
  NoDup (keys (variables self)) ->
  euler_step self dt {| columns := cols; rows := rs ++ [row] |} = Ok (rv, t) ->
  keys rv = keys (variables self) /\
  dict_get rv "t" = Some t /\
  forall name info,
    In (name, info) (variables self) ->
    exists x d,
      dict_get row name = Some x /\
      derivative_function info row (parameters info) = Ok d /\
      dict_get rv name = Some (vadd x (vmul d dt)).
Proof.
  intros Hnd H. unfold euler_step in H. rewrite iloc_last_app in H.
  simpl in H.
  destruct (compute_derivative self row) as [ds|e] eqn:Ec; simpl in H;
    [|discriminate].
  pose proof (compute_derivative_keys _ _ _ Hnd Ec) as Hk.
  rewrite Hk in H.
  destruct (euler_update (keys (variables self)) row ds dt []) as [rv'|e]
    eqn:Eu; simpl in H; [|discriminate].
  unfold getitem in H.
  destruct (dict_get rv' "t") as [t'|] eqn:Et; simpl in H; [|discriminate].
  inversion H; subst rv' t'. clear H.
  split; [| split; [assumption |]].
  - apply euler_update_keys in Eu; [exact Eu | assumption | intros ? ? []].
  - intros name info Hin.
    destruct (compute_derivative_get _ _ _ _ _ Hnd Ec Hin) as [v [Hf Hv]].
    destruct (euler_update_get _ _ _ _ Hnd _ _ Eu) as [Hget _].
    destruct (Hget name) as [x [d [Hx [Hd Hr]]]].
    { unfold keys. apply in_map_iff. now exists (name, info). }
    exists x, d. rewrite Hd in Hv. inversion Hv; subst. auto.
Qed.

(** A step returns when the derivative functions do and the last row
    holds every registered name. *)
Lemma euler_step_returns self dt cols rs row :
  model_ok self ->
  returns_on self row ->
  incl (keys (variables self)) (keys row) ->
  exists rv t,
    euler_step self dt {| columns := cols; rows := rs ++ [row] |} = Ok (rv, t).
Proof.
  intros [Hnd Ht] Hret Hincl. unfold euler_step. rewrite iloc_last_app.
  simpl.
  destruct (compute_derivative_returns _ _ Hret) as [ds Ec]. rewrite Ec.
  simpl. pose proof (compute_derivative_keys _ _ _ Hnd Ec) as Hk.
  destruct (euler_update_returns (keys ds) row ds dt []) as [rv Eu].
  { now rewrite Hk. }
  { apply incl_refl. }
  rewrite Eu. simpl.
  assert (Hkr : keys rv = keys (variables self)).
  { rewrite Hk in Eu.
    apply euler_update_keys in Eu; [exact Eu | assumption | intros ? ? []]. }
  destruct (dict_get_In rv "t") as [t Et]; [now rewrite Hkr |].
  unfold getitem. rewrite Et. simpl. now exists rv, t.
Qed.

(* ================================================================== *)
(** ** The [while] loop *)

Lemma keys_map_cells cell row : keys (map_cells cell row) = keys row.
Proof.
  unfold keys, map_cells. rewrite map_map. reflexivity.
Qed.

Lemma map_cells_id row : map_cells (fun v => v) row = row.
Proof.
  unfold map_cells. rewrite <- (map_id row) at 2.
  apply map_ext. now intros [k v].
Qed.

Lemma dict_get_map_cells cell row k :
  dict_get (map_cells cell row) k = option_map cell (dict_get row k).
Proof.
  induction row as [|[k' v] row IH]; simpl; [reflexivity |].
  now destruct (String.eqb k k').
Qed.

Lemma zero_below_row bound rv :
  zero_below bound (DataFrame_row rv) =
  DataFrame_row (map_cells (below_to_zero bound) rv).
Proof.
  unfold zero_below, DataFrame_row. simpl. now rewrite keys_map_cells.
Qed.

(** The step reads the last row only. *)
Lemma euler_step_last self dt cols rs row :
  euler_step self dt {| columns := cols; rows := rs ++ [row] |} =
  euler_step self dt {| columns := cols; rows := [row] |}.
Proof.
  unfold euler_step. now rewrite iloc_last_app.
Qed.

(** Neighbours in a list are related by [R]. *)
Inductive chain {A : Type} (R : A -> A -> Prop) : list A -> Prop :=
| chain_nil : chain R []
| chain_one a : chain R [a]
| chain_cons a b l : R a b -> chain R (b :: l) -> chain R (a :: b :: l).

Lemma chain_snoc {A : Type} (R : A -> A -> Prop) l a b :
  chain R (l ++ [a]) -> R a b -> chain R ((l ++ [a]) ++ [b]).
Proof.
  induction l as [|x l IH]; simpl; intros Hc Hr.
  - constructor; [assumption | constructor].
  - destruct l as [|y l]; simpl in *.
    + inversion Hc; subst. constructor; [assumption |].
      constructor; [assumption | constructor].
    + inversion Hc; subst. constructor; [assumption | now apply IH].
Qed.

Lemma chain_nth {A : Type} (R : A -> A -> Prop) l :
  chain R l ->
  forall k a b,
    nth_error l k = Some a -> nth_error l (S k) = Some b -> R a b.
Proof.
  induction 1 as [|x|x y l Hxy Hc IH]; intros k a b Ha Hb.
  - destruct k; discriminate.
  - destruct k as [|[|k]]; discriminate.
  - destruct k as [|k]; simpl in *.
    + now inversion Ha; inversion Hb; subst.
    + now apply (IH k).
Qed.

Section Loop.

Variable post : DataFrame -> DataFrame.
Variable cell : value -> value.
Hypothesis post_row :
  forall rv, post (DataFrame_row rv) = DataFrame_row (map_cells cell rv).

Variable self : DynamicModel.
Hypothesis self_nodup : NoDup (keys (variables self)).

Variables t_final dt : value.

(** The loop variable [t] against the last row: the row's ['t'] as it was
    read from the initial frame, or as [post] left it. *)
Definition linked (t : value) (row : dict value) : Prop :=
  dict_get row "t" = Some t \/ dict_get row "t" = Some (cell t).

(** [b] is the row the loop appends after [a]. *)
Definition follows (cols : list string) (a b : dict value) : Prop :=
  exists t_a rv t_b,
    linked t_a a /\ vltb t_a t_final = true /\
    euler_step self dt {| columns := cols; rows := [a] |} = Ok (rv, t_b) /\
    b = reindex cols (map_cells cell rv).

Lemma euler_loop_chain fuel :
  forall df t df',
    frame_ok df ->
    incl (keys (variables self)) (columns df) ->
    (exists rs row, rows df = rs ++ [row] /\ linked t row) ->
    chain (follows (columns df)) (rows df) ->
    euler_loop post self t_final dt fuel df t = Some (Ok df') ->
    columns df' = columns df /\
    frame_ok df' /\
    chain (follows (columns df)) (rows df') /\
    (exists extra, rows df' = rows df ++ extra) /\
    (exists t' rs' row',
       rows df' = rs' ++ [row'] /\ linked t' row' /\
       vltb t' t_final = false).
Proof.
  induction fuel as [|fuel IH]; intros df t df' Hok Hincl Hlast Hchain H;
    simpl in H; destruct (vltb t t_final) eqn:Hlt; try discriminate.
  - inversion H; subst df'. clear H.
    repeat split; try apply Hok; try assumption.
    + exists []. now rewrite app_nil_r.
    + destruct Hlast as [rs [row [Hr Hl]]]. now exists t, rs, row.
  - destruct (euler_step self dt df) as [[rv t']|e] eqn:Es; [|discriminate].
    destruct Hlast as [rs [row [Hr Hl]]].
    destruct df as [cols rws]. simpl in *. subst rws.
    destruct (euler_step_spec _ _ _ _ _ _ _ self_nodup Es) as [Hk [Ht _]].
    rewrite post_row in H.
    assert (Hin : incl (keys (map_cells cell rv)) cols).
    { now rewrite keys_map_cells, Hk. }
    pose proof (concat_row_ok _ _ Hok Hin) as Hok2.
    rewrite (concat_row _ _ Hok Hin) in H, Hok2. simpl in H, Hok2.
    apply IH in H; simpl.
    + destruct H as [Hc [Hok' [Hch [[extra He] Hfin]]]]. simpl in *.
      repeat split; try apply Hok'; try assumption.
      exists (reindex cols (map_cells cell rv) :: extra).
      rewrite He, <- app_assoc. reflexivity.
    + exact Hok2.
    + assumption.
    + exists (rs ++ [row]), (reindex cols (map_cells cell rv)).
      split; [reflexivity |]. right.
      rewrite dict_get_reindex, dict_get_map_cells, Ht; [reflexivity |].
      apply Hincl. rewrite <- Hk. now apply dict_get_Some_In with (v := t').
    + apply chain_snoc; [assumption |].
      exists t, rv, t'. repeat split; try assumption.
      now rewrite <- euler_step_last with (rs := rs).
  - inversion H; subst df'. clear H.
    repeat split; try apply Hok; try assumption.
    + exists []. now rewrite app_nil_r.
    + destruct Hlast as [rs [row [Hr Hl]]]. now exists t, rs, row.
Qed.

(** The initial frame, read at ['t']. *)
Lemma initial_frame_last_value variables_initial :
  In "t" (columns (initial_frame self variables_initial)) ->
  last_value (initial_frame self variables_initial) "t" =
  Ok (match dict_get variables_initial "t" with
      | Some v => v
      | None => NaN
      end).
Proof.
  intros Hin. unfold last_value. apply mem_In in Hin. rewrite Hin.
  rewrite initial_frame_rows. simpl. unfold getitem.
  now rewrite dict_get_reindex by (now apply mem_In).
Qed.

(** Every frame an integrator returns: the columns of the initial frame,
    every row keyed by them, the initial row first, and each later row
    appended by the loop after the one before it. *)
Lemma integrate_from_rows variables_initial fuel df :
  In "t" (keys (variables self)) ->
  NoDup (keys variables_initial) ->
  integrate_from post self variables_initial t_final dt fuel = Some (Ok df) ->
  let cols := columns (initial_frame self variables_initial) in
  columns df = cols /\
  frame_ok df /\
  chain (follows cols) (rows df) /\
  (exists extra, rows df = reindex cols variables_initial :: extra) /\
  (exists t' rs' row',
     rows df = rs' ++ [row'] /\ linked t' row' /\ vltb t' t_final = false).
Proof.
  intros Ht Hv H cols. unfold integrate_from in H.
  assert (Hincl : incl (keys (variables self))
                       (columns (initial_frame self variables_initial))).
  { rewrite initial_frame_columns. apply incl_appl, incl_refl. }
  rewrite initial_frame_last_value in H by (now apply Hincl).
  apply euler_loop_chain in H.
  - destruct H as [Hc [Hok [Hch [[extra He] Hfin]]]].
    repeat split; try apply Hok; try assumption.
    exists extra. now rewrite He, initial_frame_rows.
  - now apply initial_frame_ok.
  - exact Hincl.
  - exists [], (reindex cols variables_initial).
    split; [apply initial_frame_rows |]. left.
    apply dict_get_reindex. now apply Hincl.
  - rewrite initial_frame_rows. constructor.
Qed.

End Loop.

(* ================================================================== *)
(** ** Numbers *)

Lemma vltb_Num x y : vltb (Num x) (Num y) = true <-> (x < y)%Q.
Proof.
  simpl. unfold Qltb. rewrite Qlt_alt.
  destruct (Qcompare x y); split; congruence.
Qed.

Lemma vltb_Num_false x y : vltb (Num x) (Num y) = false <-> (y <= x)%Q.
Proof.
  pose proof (vltb_Num x y) as H.
  destruct (vltb (Num x) (Num y)); split; intros H'.
  - discriminate.
  - exfalso. apply (Qlt_not_le x y); [now apply H | assumption].
  - apply Qnot_lt_le. intros Hlt. apply H in Hlt. discriminate.
  - reflexivity.
Qed.

(** Only numbers are below anything. *)
Lemma vltb_true_Num a b :
  vltb a b = true -> exists x y, a = Num x /\ b = Num y /\ (x < y)%Q.
Proof.
  destruct a as [x|], b as [y|]; try discriminate.
  intros H. exists x, y. repeat split. now apply vltb_Num.
Qed.

(* ================================================================== *)
(** ** The derivative of time *)

(** C7.  On every snapshot, whatever the evaluator returns maps ['t'] to
    [1], the snapshot's values playing no part: the entry [__init__]
    registers ignores its arguments.  The evaluator does return when the
    registered derivative functions return on the snapshot. *)
Theorem compute_derivative_time self s :
  NoDup (keys (variables self)) ->
  default_time self ->
  (forall d, compute_derivative self s = Ok d ->
             dict_get d "t" = Some (num 1)) /\
  (returns_on self s -> exists d, compute_derivative self s = Ok d).
Proof.
  intros Hnd Hdef. split; [| apply compute_derivative_returns].
  intros d Hd. apply dict_get_In_pair in Hdef.
  destruct (compute_derivative_get _ _ _ _ _ Hnd Hd Hdef) as [v [Hv Hg]].
  simpl in Hv. now inversion Hv; subst.
Qed.

Lemma example_nodup : NoDup (keys (variables Example.model)).
Proof.
  repeat constructor; simpl; intuition discriminate.
Qed.

Lemma example_ok : model_ok Example.model.
Proof.
  split; [apply example_nodup | now left].
Qed.

Lemma example_returns_on t x y :
  returns_on Example.model [("t", t); ("x", x); ("y", y)].
Proof.
  intros name info [E|[E|[E|[]]]]; inversion E; subst; eexists; reflexivity.
Qed.

Lemma compute_derivative_time_witness :
  let s := [("t", num 0); ("x", num 1); ("y", num 2)] in
  compute_derivative Example.model s
    = Ok [("t", num 1); ("x", num 2); ("y", num (-100))] /\
  (forall d, compute_derivative Example.model s = Ok d ->
             dict_get d "t" = Some (num 1)) /\
  (returns_on Example.model s ->
   exists d, compute_derivative Example.model s = Ok d).
Proof.
  split; [reflexivity |].
  apply (compute_derivative_time Example.model
           [("t", num 0); ("x", num 1); ("y", num 2)]).
  - repeat constructor; simpl; intuition discriminate.
  - reflexivity.
Defined.

(** The time entry of a fresh model is all there is to evaluate. *)
Example compute_derivative_init s :
  compute_derivative init s = Ok [("t", num 1)].
Proof. reflexivity. Qed.

(* ================================================================== *)
(** ** One step of the example model *)

(** C6.  From [{t: 0, x: 1, y: 2}], with [dx/dt = 1 * y] and
    [dy/dt = -100 * x], one step of size [0.1] of [euler_integrate]
    appends the row [t = 0.1], [x = 1.2], [y = -8.0]. *)
Theorem euler_integrate_linear_step :
  euler_step Example.model (num 0.1)
    (initial_frame Example.model [("t", num 0); ("x", num 1); ("y", num 2)])
  = Ok ([("t", num 0.1); ("x", num 1.2); ("y", num (-8.0))], num 0.1) /\
  snd (euler_integrate Example.model
         [("t", num 0); ("x", num 1); ("y", num 2)] (num 0.1) (num 0.1) 1)
  = Some (Ok {| columns := ["t"; "x"; "y"];
                rows := [[("t", num 0); ("x", num 1); ("y", num 2)];
                         [("t", num 0.1); ("x", num 1.2);
                          ("y", num (-8.0))]] |}).
Proof.
  split; vm_compute; reflexivity.
Qed.

(* ================================================================== *)
(** ** The caller's dictionary *)

(** C10.  Called on a dictionary without ['t'], [euler_integrate] leaves
    the caller's dictionary with ['t'] mapped to [0] appended and every
    other key as it was, whatever the outcome of the call. *)
Theorem euler_integrate_inserts_t self variables_initial t_final dt fuel :
  contains "t" variables_initial = false ->
  let after := fst (euler_integrate self variables_initial t_final dt fuel) in
  after = variables_initial ++ [("t", num 0)] /\
  dict_get after "t" = Some (num 0) /\
  keys after = keys variables_initial ++ ["t"] /\
  forall k, k <> "t" -> dict_get after k = dict_get variables_initial k.
Proof.
  intros Hc. unfold euler_integrate. rewrite Hc. simpl.
  apply contains_false in Hc.
  repeat split.
  - now apply dict_set_absent.
  - apply dict_get_set_same.
  - apply keys_dict_set_absent. now apply dict_get_None.
  - intros k Hk. now apply dict_get_set_other.
Qed.

Lemma euler_integrate_inserts_t_witness :
  let before := [("x", num 1); ("y", num 2)] in
  let after :=
    fst (euler_integrate Example.model before (num 1) (num 0.1) 3) in
  contains "t" before = false /\
  after = [("x", num 1); ("y", num 2); ("t", num 0)] /\
  dict_get after "t" = Some (num 0) /\
  keys after = ["x"; "y"; "t"] /\
  forall k, k <> "t" -> dict_get after k = dict_get before k.
Proof.
  split; [reflexivity |].
  apply (euler_integrate_inserts_t Example.model
           [("x", num 1); ("y", num 2)] (num 1) (num 0.1) 3).
  reflexivity.
Defined.

(* ================================================================== *)
(** ** The two integrators as instances of the loop *)

Lemma post_row_id rv :
  (fun df : DataFrame => df) (DataFrame_row rv) =
  DataFrame_row (map_cells (fun v => v) rv).
Proof. now rewrite map_cells_id. Qed.

Lemma initial_frame_columns_set_t self variables_initial v :
  In "t" (keys (variables self)) ->
  columns (initial_frame self (dict_set variables_initial "t" v)) =
  columns (initial_frame self variables_initial).
Proof.
  intros Ht. rewrite !initial_frame_columns. f_equal.
  destruct (in_dec string_dec "t" (keys variables_initial)) as [Hin|Hnin].
  - now rewrite keys_dict_set_present.
  - rewrite keys_dict_set_absent, filter_app by assumption. simpl.
    apply mem_In in Ht. rewrite Ht. simpl. apply app_nil_r.
Qed.

(** The dictionary [euler_integrate] goes on with. *)
Lemma euler_integrate_unfold self variables_initial t_final dt fuel :
  exists vi,
    euler_integrate self variables_initial t_final dt fuel =
    (vi, integrate_from (fun df => df) self vi t_final dt fuel) /\
    (NoDup (keys variables_initial) -> NoDup (keys vi)) /\
    (forall k, In k (keys vi) <-> k = "t" \/ In k (keys variables_initial)) /\
    dict_get vi "t" =
    Some (match dict_get variables_initial "t" with
          | Some v => v
          | None => num 0
          end) /\
    (In "t" (keys (variables self)) ->
     columns (initial_frame self vi) =
     columns (initial_frame self variables_initial)).
Proof.
  unfold euler_integrate, contains.
  destruct (dict_get variables_initial "t") as [v|] eqn:E; simpl.
  - exists variables_initial. repeat split; auto.
    intros [->|H]; [now apply dict_get_Some_In with (v := v) | assumption].
  - exists (dict_set variables_initial "t" (num 0)). repeat split.
    + apply NoDup_keys_dict_set.
    + apply In_keys_dict_set.
    + apply In_keys_dict_set.
    + apply dict_get_set_same.
    + apply initial_frame_columns_set_t.
Qed.

(* ================================================================== *)
(** ** Columns *)

(** C8.  When no key of the initial snapshot is outside the registry,
    every row of the frame either integrator returns is keyed by exactly
    the registered names, which are the frame's columns; and whatever the
    evaluator returns is keyed by exactly the registered names. *)
Theorem trajectory_columns self variables_initial t_final dt fuel :
  model_ok self ->
  NoDup (keys variables_initial) ->
  incl (keys variables_initial) (keys (variables self)) ->
  (forall df,
     snd (euler_integrate self variables_initial t_final dt fuel)
       = Some (Ok df) \/
     euler_integrate_keep_positive self variables_initial t_final dt fuel
       = Some (Ok df) ->
     columns df = keys (variables self) /\
     Forall (fun row => keys row = keys (variables self)) (rows df)) /\
  (forall s d,
     compute_derivative self s = Ok d -> keys d = keys (variables self)).
Proof.
  intros [Hnd Ht] Hv Hincl. split.
  - intros df [H|H].
    + destruct (euler_integrate_unfold self variables_initial t_final dt fuel)
        as [vi [E [Hvi [Hk _]]]].
      rewrite E in H. simpl in H.
      apply (integrate_from_rows _ _ post_row_id _ Hnd) in H;
        [| assumption | now apply Hvi].
      destruct H as [Hc [[_ Hrows] _]].
      rewrite initial_frame_columns_incl in Hc.
      * split; [assumption |]. now rewrite <- Hc.
      * intros k Hin. apply Hk in Hin.
        destruct Hin as [->|Hin]; [assumption | now apply Hincl].
    + unfold euler_integrate_keep_positive in H.
      apply (integrate_from_rows _ _ (zero_below_row _) _ Hnd) in H;
        [| assumption | assumption].
      destruct H as [Hc [[_ Hrows] _]].
      rewrite initial_frame_columns_incl in Hc by assumption.
      split; [assumption |]. now rewrite <- Hc.
  - intros s d H. now apply (compute_derivative_keys self s).
Qed.

Lemma trajectory_columns_witness :
  exists df,
    snd (euler_integrate Example.model [("x", num 1); ("y", num 2)]
           (num 0.2) (num 0.1) 5) = Some (Ok df) /\
    List.length (rows df) = 3%nat /\
    columns df = ["t"; "x"; "y"] /\
    Forall (fun row => keys row = ["t"; "x"; "y"]) (rows df).
Proof.
  eexists. split; [vm_compute; reflexivity |]. split; [reflexivity |].
  apply (proj1 (trajectory_columns Example.model
                  [("x", num 1); ("y", num 2)] (num 0.2) (num 0.1) 5
                  ltac:(split; [repeat constructor; simpl; intuition discriminate
                               | now left])
                  ltac:(repeat constructor; simpl; intuition discriminate)
                  ltac:(intros k [<-|[<-|[]]]; simpl; tauto))).
  left. vm_compute. reflexivity.
Defined.

(* ================================================================== *)
(** ** An initial snapshot without ['t'] *)

(** C3, as the code has it.  The empty frame is built with the registered
    names as columns, ['t'] among them, so reading ['t'] from the initial
    frame raises nothing: the cell is [nan], [nan < t_final] is false, and
    [euler_integrate_keep_positive] returns the initial frame at once.
    [euler_integrate] first sets ['t'] to [0] and enters the loop with
    [t = 0]. *)
Theorem integrators_without_t self variables_initial t_final dt fuel :
  model_ok self ->
  dict_get variables_initial "t" = None ->
  euler_integrate_keep_positive self variables_initial t_final dt fuel
    = Some (Ok (initial_frame self variables_initial)) /\
  last_value (initial_frame self variables_initial) "t" = Ok NaN /\
  List.length (rows (initial_frame self variables_initial)) = 1%nat /\
  let with_t := variables_initial ++ [("t", num 0)] in
  snd (euler_integrate self variables_initial t_final dt fuel)
    = euler_loop (fun df => df) self t_final dt fuel
        (initial_frame self with_t) (num 0).
Proof.
  intros [Hnd Ht] Hnone.
  assert (Hl : last_value (initial_frame self variables_initial) "t" = Ok NaN).
  { rewrite initial_frame_last_value, Hnone; [reflexivity |].
    rewrite initial_frame_columns. apply in_or_app. now left. }
  repeat split.
  - unfold euler_integrate_keep_positive, integrate_from. rewrite Hl.
    destruct fuel; reflexivity.
  - exact Hl.
  - unfold euler_integrate, contains. rewrite Hnone. simpl.
    rewrite (dict_set_absent _ _ _ Hnone).
    unfold integrate_from. rewrite initial_frame_last_value.
    + replace (dict_get (variables_initial ++ [("t", num 0)]) "t")
        with (Some (num 0)); [reflexivity |].
      rewrite <- (dict_set_absent _ _ _ Hnone).
      symmetry. apply dict_get_set_same.
    + rewrite initial_frame_columns. apply in_or_app. now left.
Qed.

Lemma integrators_without_t_witness :
  let variables_initial := [("x", num 1); ("y", num 2)] in
  euler_integrate_keep_positive Example.model variables_initial
    (num 1) (num 0.1) 20
    = Some (Ok (initial_frame Example.model variables_initial)) /\
  last_value (initial_frame Example.model variables_initial) "t" = Ok NaN /\
  List.length (rows (initial_frame Example.model variables_initial)) = 1%nat /\
  snd (euler_integrate Example.model variables_initial (num 1) (num 0.1) 20)
    = euler_loop (fun df => df) Example.model (num 1) (num 0.1) 20
        (initial_frame Example.model (variables_initial ++ [("t", num 0)]))
        (num 0).
Proof.
  apply (integrators_without_t Example.model
           [("x", num 1); ("y", num 2)] (num 1) (num 0.1) 20).
  - split; [repeat constructor; simpl; intuition discriminate | now left].
  - reflexivity.
Defined.

(** C3 as the spec states it fails: without ['t'], the clamped integrator
    raises no [KeyError]; it returns a one-row trajectory. *)
Lemma keep_positive_without_t_returns :
  dict_get [("x", num 1); ("y", num 2)] "t" = None /\
  euler_integrate_keep_positive Example.model [("x", num 1); ("y", num 2)]
    (num 1) (num 0.1) 20
  = Some (Ok {| columns := ["t"; "x"; "y"];
                rows := [[("t", NaN); ("x", num 1); ("y", num 2)]] |}) /\
  forall key,
    euler_integrate_keep_positive Example.model [("x", num 1); ("y", num 2)]
      (num 1) (num 0.1) 20
    <> Some (Raise (KeyError key)).
Proof.
  split; [reflexivity |]. split; [vm_compute; reflexivity |].
  intros key. vm_compute. discriminate.
Qed.

(* ================================================================== *)
(** ** The clamp *)

Lemma below_to_zero_lt bound q :
  (q < bound)%Q -> below_to_zero (num bound) (Num q) = num 0.
Proof.
  intros H. unfold below_to_zero, num.
  assert (E : vltb (Num q) (Num (Qred bound)) = true).
  { apply vltb_Num. now rewrite Qred_correct. }
  now rewrite E.
Qed.

Lemma below_to_zero_ge bound q :
  (bound <= q)%Q -> below_to_zero (num bound) (Num q) = Num q.
Proof.
  intros H. unfold below_to_zero, num.
  assert (E : vltb (Num q) (Num (Qred bound)) = false).
  { apply vltb_Num_false. now rewrite Qred_correct. }
  now rewrite E.
Qed.

(** C1, as the code has it.  In every frame
    [euler_integrate_keep_positive] returns, each row after the first
    holds the post-step values of the row before it with every value
    below the literal [1e-14] (the binary64 number
    [6338253001141147 / 2^99]) replaced by [0] and every other value
    kept: [5e-15] becomes [0], and so does [-3.0]; a value equal to the
    literal is kept, the comparison being strict. *)
Theorem keep_positive_records self variables_initial t_final dt fuel df :
  model_ok self ->
  NoDup (keys variables_initial) ->
  euler_integrate_keep_positive self variables_initial t_final dt fuel
    = Some (Ok df) ->
  (forall k a b,
     nth_error (rows df) k = Some a ->
     nth_error (rows df) (S k) = Some b ->
     exists rv t,
       euler_step self dt {| columns := columns df; rows := [a] |}
         = Ok (rv, t) /\
       forall name v,
         dict_get rv name = Some v ->
         dict_get b name = Some (below_to_zero (num literal_1e_14) v)) /\
  below_to_zero (num literal_1e_14) (num 5e-15) = num 0 /\
  below_to_zero (num literal_1e_14) (num (-3.0)) = num 0 /\
  below_to_zero (num literal_1e_14) (Num literal_1e_14)
    = Num literal_1e_14 /\
  (forall q, (q < literal_1e_14)%Q ->
             below_to_zero (num literal_1e_14) (Num q) = num 0) /\
  (forall q, (literal_1e_14 <= q)%Q ->
             below_to_zero (num literal_1e_14) (Num q) = Num q) /\
  below_to_zero (num literal_1e_14) NaN = NaN.
Proof.
  intros [Hnd Ht] Hv H.
  split; [| repeat split;
            [apply below_to_zero_lt | apply below_to_zero_ge]].
  intros k a b Ha Hb. unfold euler_integrate_keep_positive in H.
  apply (integrate_from_rows _ _ (zero_below_row _) _ Hnd) in H;
    [| assumption | assumption].
  destruct H as [Hc [_ [Hch _]]]. rewrite <- Hc in Hch.
  destruct (chain_nth _ _ Hch k a b Ha Hb) as [t_a [rv [t_b [_ [_ [Hs Hb']]]]]].
  exists rv, t_b. split; [assumption |].
  intros name v Hg. subst b.
  destruct (euler_step_spec self dt (columns df) [] a rv t_b Hnd Hs)
    as [Hk _].
  rewrite dict_get_reindex, dict_get_map_cells, Hg; [reflexivity |].
  rewrite Hc, initial_frame_columns. apply in_or_app. left.
  rewrite <- Hk. now apply dict_get_Some_In with (v := v).
Qed.

Lemma keep_positive_records_witness :
  exists df,
    euler_integrate_keep_positive Example.model
      [("t", num 0); ("x", num 0); ("y", num 5e-15)] (num 1) (num 1) 1
      = Some (Ok df) /\
    rows df = [[("t", num 0); ("x", num 0); ("y", num 5e-15)];
               [("t", num 1); ("x", num 0); ("y", num 0)]] /\
    forall k a b,
      nth_error (rows df) k = Some a ->
      nth_error (rows df) (S k) = Some b ->
      exists rv t,
        euler_step Example.model (num 1)
          {| columns := columns df; rows := [a] |} = Ok (rv, t) /\
        forall name v,
          dict_get rv name = Some v ->
          dict_get b name = Some (below_to_zero (num literal_1e_14) v).
Proof.
  eexists. split; [vm_compute; reflexivity |]. split; [reflexivity |].
  apply (proj1 (keep_positive_records Example.model
                  [("t", num 0); ("x", num 0); ("y", num 5e-15)]
                  (num 1) (num 1) 1 _
                  ltac:(split; [repeat constructor; simpl; intuition discriminate
                               | now left])
                  ltac:(repeat constructor; simpl; intuition discriminate)
                  ltac:(vm_compute; reflexivity))).
Defined.

(** C1 as the spec states it fails: a post-step value of [-3.0] is not
    kept.  From [{t: 0, x: 1, y: 2}] one step of size [0.05] computes
    [y = -3.0], and the row recorded has [y = 0]. *)
Lemma keep_positive_zeroes_minus_three :
  let variables_initial := [("t", num 0); ("x", num 1); ("y", num 2)] in
  euler_step Example.model (num 0.05)
    (initial_frame Example.model variables_initial)
  = Ok ([("t", num 0.05); ("x", num 1.1); ("y", num (-3.0))], num 0.05) /\
  euler_integrate_keep_positive Example.model variables_initial
    (num 0.05) (num 0.05) 1
  = Some (Ok {| columns := ["t"; "x"; "y"];
                rows := [[("t", num 0); ("x", num 1); ("y", num 2)];
                         [("t", num 0.05); ("x", num 1.1);
                          ("y", num 0)]] |}) /\
  num 0 <> num (-3.0).
Proof.
  repeat split; try (vm_compute; reflexivity).
  vm_compute. discriminate.
Qed.

(* ================================================================== *)
(** ** The times of a trajectory *)

(** C5.  With the default derivative of ['t'] and a step size [h > 0],
    in every frame [euler_integrate] returns, neighbouring entries of
    column ['t'] are numbers [x] and [y] with [y - x = h]; so the column
    is strictly increasing. *)
Theorem euler_integrate_time_increases
    self variables_initial t_final (h : Q) fuel df :
  model_ok self ->
  default_time self ->
  NoDup (keys variables_initial) ->
  (0 < h)%Q ->
  snd (euler_integrate self variables_initial t_final (Num h) fuel)
    = Some (Ok df) ->
  forall k a b,
    nth_error (column df "t") k = Some a ->
    nth_error (column df "t") (S k) = Some b ->
    exists x y,
      a = Some (Num x) /\ b = Some (Num y) /\
      (y - x == h)%Q /\ (x < y)%Q.
Proof.
  intros [Hnd Ht] Hdef Hv Hh H k a b Ha Hb.
  destruct (euler_integrate_unfold self variables_initial t_final (Num h) fuel)
    as [vi [E [Hvi _]]].
  rewrite E in H. simpl in H.
  apply (integrate_from_rows _ _ post_row_id _ Hnd) in H;
    [| assumption | now apply Hvi].
  destruct H as [Hc [_ [Hch _]]].
  unfold column in Ha, Hb.
  rewrite nth_error_map in Ha, Hb.
  destruct (nth_error (rows df) k) as [ra|] eqn:Hra; [|discriminate].
  destruct (nth_error (rows df) (S k)) as [rb|] eqn:Hrb; [|discriminate].
  simpl in Ha, Hb. inversion Ha; subst a. inversion Hb; subst b.
  clear Ha Hb.
  destruct (chain_nth _ _ Hch k ra rb Hra Hrb)
    as [t_a [rv [t_b [Hl [Hlt [Hs ->]]]]]].
  assert (Hta : dict_get ra "t" = Some t_a) by (destruct Hl; assumption).
  destruct (vltb_true_Num _ _ Hlt) as [x [tf [-> [_ _]]]].
  destruct (euler_step_spec self (Num h) _ [] ra rv t_b Hnd Hs)
    as [Hk [_ Hget]].
  apply dict_get_In_pair in Hdef.
  destruct (Hget "t" time_info Hdef) as [x0 [d [Hx0 [Hd Hrv]]]].
  rewrite Hta in Hx0. inversion Hx0; subst x0.
  simpl in Hd. inversion Hd; subst d. simpl in Hrv.
  exists x, (Qred (x + Qred (1 * h))).
  assert (Hy : (Qred (x + Qred (1 * h)) == x + h)%Q).
  { rewrite !Qred_correct. ring. }
  repeat split.
  - assumption.
  - rewrite dict_get_reindex, dict_get_map_cells, Hrv; [reflexivity |].
    rewrite initial_frame_columns. apply in_or_app. now left.
  - rewrite Hy. ring.
  - rewrite Hy. rewrite <- (Qplus_0_r x) at 1.
    apply Qplus_lt_r. assumption.
Qed.

Lemma example_returns_on_columns s :
  keys s = ["t"; "x"; "y"] -> returns_on Example.model s.
Proof.
  destruct s as [|[k1 v1] [|[k2 v2] [|[k3 v3] [|]]]]; simpl; intros H;
    try discriminate.
  inversion H; subst. apply example_returns_on.
Qed.

Lemma euler_integrate_time_increases_witness :
  exists df,
    snd (euler_integrate Example.model
           [("t", num 0); ("x", num 1); ("y", num 2)] (num 0.3) (Num 0.1) 5)
      = Some (Ok df) /\
    column df "t" =
      [Some (num 0); Some (num 0.1); Some (num 0.2); Some (num 0.3)] /\
    forall k a b,
      nth_error (column df "t") k = Some a ->
      nth_error (column df "t") (S k) = Some b ->
      exists x y,
        a = Some (Num x) /\ b = Some (Num y) /\
        (y - x == 0.1)%Q /\ (x < y)%Q.
Proof.
  eexists. split; [vm_compute; reflexivity |]. split; [reflexivity |].
  apply (euler_integrate_time_increases Example.model
           [("t", num 0); ("x", num 1); ("y", num 2)] (num 0.3) 0.1%Q 5 _
           ltac:(split; [repeat constructor; simpl; intuition discriminate
                        | now left])
           ltac:(reflexivity)
           ltac:(repeat constructor; simpl; intuition discriminate)
           ltac:(reflexivity)
           ltac:(vm_compute; reflexivity)).
Defined.

(* ================================================================== *)
(** ** Termination *)

Lemma euler_loop_done post self t_final dt fuel df t :
  vltb t t_final = false ->
  euler_loop post self t_final dt fuel df t = Some (Ok df).
Proof.
  intros H. destruct fuel; simpl; now rewrite H.
Qed.

Lemma euler_loop_S post self t_final dt fuel df t :
  vltb t t_final = true ->
  euler_loop post self t_final dt (S fuel) df t =
  match euler_step self dt df with
  | Raise e => Some (Raise e)
  | Ok (result_values, t') =>
      euler_loop post self t_final dt fuel
        (concat df (post (DataFrame_row result_values))) t'
  end.
Proof.
  intros H. simpl. now rewrite H.
Qed.

Lemma inject_Z_S m :
  (inject_Z (Z.of_nat (S m)) == inject_Z (Z.of_nat m) + 1)%Q.
Proof.
  rewrite Nat2Z.inj_succ. unfold Z.succ. now rewrite inject_Z_plus.
Qed.

(** With [m] steps of size [h] enough to reach [tf] from [t], the loop of
    [euler_integrate] is over within [m] iterations.  If it returns a
    frame, the last time is in [[tf, tf + h)]; and it returns a frame when
    the derivative functions return on every snapshot over the columns. *)
Lemma euler_loop_terminates self (tf h : Q) :
  model_ok self ->
  default_time self ->
  (0 < h)%Q ->
  forall m df t,
    frame_ok df ->
    incl (keys (variables self)) (columns df) ->
    (exists rs row, rows df = rs ++ [row] /\ dict_get row "t" = Some (Num t)) ->
    (t < tf + h)%Q ->
    (tf - t <= inject_Z (Z.of_nat m) * h)%Q ->
    exists r,
      euler_loop (fun df => df) self (Num tf) (Num h) m df (Num t) = Some r /\
      (forall df',
         r = Ok df' ->
         exists tl,
           last_value df' "t" = Ok (Num tl) /\
           (tf <= tl)%Q /\ (tl < tf + h)%Q) /\
      ((forall s, keys s = columns df -> returns_on self s) ->
       exists df', r = Ok df').
Proof.
  intros Hok Hdef Hh.
  assert (Hstop : forall fuel df t,
            incl (keys (variables self)) (columns df) ->
            (exists rs row,
               rows df = rs ++ [row] /\ dict_get row "t" = Some (Num t)) ->
            (t < tf + h)%Q ->
            vltb (Num t) (Num tf) = false ->
            exists r,
              euler_loop (fun df => df) self (Num tf) (Num h) fuel df (Num t)
                = Some r /\
              (forall df',
                 r = Ok df' ->
                 exists tl,
                   last_value df' "t" = Ok (Num tl) /\
                   (tf <= tl)%Q /\ (tl < tf + h)%Q) /\
              ((forall s, keys s = columns df -> returns_on self s) ->
               exists df', r = Ok df')).
  { intros fuel df t Hincl [rs [row [Hr Ht]]] Hlt Hc.
    exists (Ok df). rewrite euler_loop_done by assumption.
    split; [reflexivity |]. split; [| intros _; now exists df].
    intros df' E. inversion E; subst df'. exists t.
    repeat split; try assumption.
    - destruct df as [cols rws]. simpl in *. subst rws.
      rewrite (last_value_app {| columns := cols; rows := rs |}).
      + unfold getitem. now rewrite Ht.
      + apply Hincl, Hok.
    - now apply vltb_Num_false. }
  induction m as [|m IH]; intros df t Hdf Hincl Hlast Hlt Hm.
  - apply Hstop; try assumption.
    apply vltb_Num_false.
    change (inject_Z (Z.of_nat 0)) with 0%Q in Hm. lra.
  - destruct (vltb (Num t) (Num tf)) eqn:Hc; [| now apply Hstop].
    rewrite euler_loop_S by assumption.
    apply vltb_Num in Hc.
    destruct Hlast as [rs [row [Hr Ht]]].
    destruct df as [cols rws]. simpl in Hr, Hincl. subst rws.
    assert (Hkrow : keys row = cols).
    { destruct Hdf as [_ Hrows]. simpl in Hrows.
      apply Forall_app in Hrows. destruct Hrows as [_ Hrow].
      now inversion Hrow. }
    destruct (euler_step self (Num h)
                {| columns := cols; rows := rs ++ [row] |})
      as [[rv t']|e] eqn:Es.
    2:{ exists (Raise e). split; [reflexivity |].
        split; [discriminate |]. simpl. intros Hret.
        destruct (euler_step_returns self (Num h) cols rs row Hok)
          as [rv [t' Es']].
        - now apply Hret.
        - now rewrite Hkrow.
        - congruence. }
    destruct Hok as [Hnd HtIn].
    destruct (euler_step_spec _ _ _ _ _ _ _ Hnd Es) as [Hk [Hrvt Hget]].
    pose proof (dict_get_In_pair _ _ _ Hdef) as Hin.
    destruct (Hget "t" time_info Hin) as [x0 [d [Hx0 [Hd Hrv]]]].
    rewrite Ht in Hx0. inversion Hx0; subst x0.
    simpl in Hd. inversion Hd; subst d. simpl in Hrv.
    rewrite Hrvt in Hrv. inversion Hrv; subst t'. clear Hrv.
    assert (Hy : (Qred (t + Qred (1 * h)) == t + h)%Q).
    { rewrite !Qred_correct. ring. }
    assert (Hkin : incl (keys rv)
                     (columns {| columns := cols; rows := rs ++ [row] |})).
    { simpl. now rewrite Hk. }
    pose proof (concat_row_ok _ _ Hdf Hkin) as Hdf'.
    rewrite (concat_row _ _ Hdf Hkin) in Hdf' |- *.
    simpl in Hdf' |- *.
    destruct (IH {| columns := cols;
                    rows := (rs ++ [row]) ++ [reindex cols rv] |}
                 (Qred (t + Qred (1 * h))) Hdf' Hincl)
      as [r [Hr [Hlast Hret]]].
    + exists (rs ++ [row]), (reindex cols rv). split; [reflexivity |].
      rewrite dict_get_reindex, Hrvt by (now apply Hincl). reflexivity.
    + rewrite Hy. lra.
    + rewrite Hy. rewrite inject_Z_S in Hm. lra.
    + exists r. split; [exact Hr |]. split; [exact Hlast | exact Hret].
Qed.

Lemma steps_enough (t0 tf h : Q) :
  (0 < h)%Q ->
  (tf - t0 <=
   inject_Z (Z.of_nat (Z.to_nat (Qceiling ((tf - t0) / h)))) * h)%Q.
Proof.
  intros Hh. set (q := ((tf - t0) / h)%Q).
  assert (Hq : (q <= inject_Z (Z.of_nat (Z.to_nat (Qceiling q))))%Q).
  { apply Qle_trans with (inject_Z (Qceiling q)); [apply Qle_ceiling |].
    rewrite <- Zle_Qle. lia. }
  assert (E : (tf - t0 == q * h)%Q).
  { unfold q. field. intros H0. rewrite H0 in Hh. now apply Qlt_irrefl in Hh. }
  rewrite E at 1. apply Qmult_le_compat_r; [assumption | now apply Qlt_le_weak].
Qed.

(** With the default derivative of ['t'], a step size [h > 0] and a
    final time [tf] above the initial time, [euler_integrate] is over
    after finitely many iterations.  The time of the last row of the
    frame it returns lies in [[tf, tf + h)]; and it does return a frame,
    rather than pass on an exception of a derivative function, when the
    derivative functions return on every snapshot over the frame's
    columns. *)
Lemma euler_integrate_ends self variables_initial (t0 tf h : Q) :
  model_ok self ->
  default_time self ->
  NoDup (keys variables_initial) ->
  match dict_get variables_initial "t" with
  | Some v => v
  | None => num 0
  end = Num t0 ->
  (0 < h)%Q ->
  (t0 < tf)%Q ->
  exists fuel r,
    snd (euler_integrate self variables_initial (Num tf) (Num h) fuel)
      = Some r /\
    (forall df,
       r = Ok df ->
       exists tl,
         last_value df "t" = Ok (Num tl) /\
         (tf <= tl)%Q /\ (tl < tf + h)%Q) /\
    ((forall s,
        keys s = columns (initial_frame self variables_initial) ->
        returns_on self s) ->
     exists df, r = Ok df).
Proof.
  intros Hok Hdef Hv Ht0 Hh Hlt.
  set (m := Z.to_nat (Qceiling ((tf - t0) / h))).
  exists m.
  destruct (euler_integrate_unfold self variables_initial (Num tf) (Num h) m)
    as [vi [E [Hvi [_ [Hget Hcols]]]]].
  rewrite E. cbn [snd]. clear E. rewrite Ht0 in Hget.
  pose proof Hok as [Hnd Ht]. specialize (Hcols Ht).
  assert (Hincl : incl (keys (variables self))
                       (columns (initial_frame self vi))).
  { rewrite initial_frame_columns. apply incl_appl, incl_refl. }
  unfold integrate_from.
  rewrite initial_frame_last_value, Hget by (now apply Hincl).
  rewrite <- Hcols.
  apply euler_loop_terminates; try assumption.
  - apply initial_frame_ok; [assumption | now apply Hvi].
  - exists [], (reindex (columns (initial_frame self vi)) vi).
    split; [apply initial_frame_rows |].
    rewrite dict_get_reindex, Hget by (now apply Hincl). reflexivity.
  - lra.
  - now apply steps_enough.
Qed.

(** A run of three steps, last time [0.3]. *)
Example example_run_three_steps :
  exists df,
    snd (euler_integrate Example.model
           [("t", num 0); ("x", num 1); ("y", num 2)]
           (Num 0.25) (Num 0.1) 3) = Some (Ok df) /\
    List.length (rows df) = 4%nat /\
    last_value df "t" = Ok (num 0.3).
Proof.
  eexists. split; [vm_compute; reflexivity |]. split; reflexivity.
Qed.

(* ================================================================== *)
(** ** The evaluator and the state *)

Lemma lift_pure {W : Type} g : Effects.pure (W := W) (Effects.lift g).
Proof.
  exists g. reflexivity.
Qed.

Lemma lift_variables_pure {W : Type} items :
  Effects.all_pure (W := W) (Effects.lift_variables items).
Proof.
  unfold Effects.all_pure, Effects.lift_variables.
  apply Forall_forall. intros entry Hin. apply in_map_iff in Hin.
  destruct Hin as [[k info] [<- _]]. simpl. apply lift_pure.
Qed.

(** Over pure callables the loop hands back the entries, the snapshot and
    the world it was given, and its outcome does not depend on the
    world. *)
Lemma compute_derivative_items_pure {W : Type}
    (items : dict (Effects.var_info W)) variable_values :
  Effects.all_pure items ->
  forall derivatives,
  exists r,
    forall w,
      Effects.compute_derivative_items items variable_values w derivatives
      = (r, items, variable_values, w).
Proof.
  induction items as [|[variable info] items IH]; intros Hp derivatives.
  - exists (Ok derivatives). reflexivity.
  - inversion Hp as [|? ? [g Hg] Hp']; subst. simpl in Hg.
    destruct info as [f p]. simpl in Hg.
    destruct (g variable_values p) as [d|e] eqn:Eg.
    + destruct (IH Hp' (dict_set derivatives variable d)) as [r Hr].
      exists r. intros w. simpl. rewrite Hg, Eg, Hr. reflexivity.
    + exists (Raise e). intros w. simpl. rewrite Hg, Eg. reflexivity.
Qed.

(** Over callables that stand for functions of the two arguments, the
    evaluator with effects answers what [ModelBase.compute_derivative]
    answers. *)
Lemma compute_derivative_items_lift {W : Type} items s (w : W) :
  forall derivatives,
    fst (fst (fst (Effects.compute_derivative_items
                     (Effects.lift_variables items) s w derivatives)))
    = compute_derivative_items items s derivatives.
Proof.
  induction items as [|[variable info] items IH]; intros derivatives;
    simpl; [reflexivity |].
  unfold Effects.lift at 1.
  destruct (derivative_function info s (ModelBase.parameters info))
    as [d|e]; simpl; [| reflexivity].
  specialize (IH (dict_set derivatives variable d)).
  destruct (Effects.compute_derivative_items
              (Effects.lift_variables items) s w
              (dict_set derivatives variable d)) as [[[r its] vv] w'].
  exact IH.
Qed.

(** C9.  When every registered derivative function is pure, a call of the
    evaluator leaves the registry, the snapshot and everything else as it
    found them, a second call on the same snapshot returns what the first
    returned, and the answer does not depend on the state outside the
    registry and the snapshot. *)
Theorem compute_derivative_idempotent {W : Type} (h : Effects.heap W) :
  Effects.all_pure (Effects.self_variables h) ->
  let first := Effects.compute_derivative h in
  let second := Effects.compute_derivative (snd first) in
  snd first = h /\
  snd second = h /\
  fst second = fst first /\
  forall w,
    fst (Effects.compute_derivative
           {| Effects.self_variables := Effects.self_variables h;
              Effects.variable_values := Effects.variable_values h;
              Effects.world := w |}) = fst first.
Proof.
  intros Hp.
  destruct (compute_derivative_items_pure
              (Effects.self_variables h) (Effects.variable_values h) Hp [])
    as [r Hr].
  assert (E : forall w,
            Effects.compute_derivative
              {| Effects.self_variables := Effects.self_variables h;
                 Effects.variable_values := Effects.variable_values h;
                 Effects.world := w |}
            = (r, {| Effects.self_variables := Effects.self_variables h;
                     Effects.variable_values := Effects.variable_values h;
                     Effects.world := w |})).
  { intros w. unfold Effects.compute_derivative. simpl. now rewrite Hr. }
  destruct h as [sv vv w0]. simpl in *.
  rewrite (E w0). simpl. rewrite (E w0). simpl.
  repeat split. intros w. now rewrite (E w).
Qed.

Lemma compute_derivative_idempotent_witness :
  let h : Effects.heap nat :=
    {| Effects.self_variables :=
         Effects.lift_variables (variables Example.model);
       Effects.variable_values := [("t", num 0); ("x", num 1); ("y", num 2)];
       Effects.world := 7%nat |} in
  let first := Effects.compute_derivative h in
  let second := Effects.compute_derivative (snd first) in
  fst first = Ok [("t", num 1); ("x", num 2); ("y", num (-100))] /\
  snd first = h /\
  snd second = h /\
  fst second = fst first /\
  forall w,
    fst (Effects.compute_derivative
           {| Effects.self_variables := Effects.self_variables h;
              Effects.variable_values := Effects.variable_values h;
              Effects.world := w |}) = fst first.
Proof.
  split; [reflexivity |].
  apply (compute_derivative_idempotent
           {| Effects.self_variables :=
                Effects.lift_variables (variables Example.model);
              Effects.variable_values :=
                [("t", num 0); ("x", num 1); ("y", num 2)];
              Effects.world := 7%nat |}).
  repeat constructor; simpl; eexists; reflexivity.
Defined.

(** A callable that counts its calls in the world is not pure, and the
    evaluator then answers differently the second time. *)
Example compute_derivative_counting_callable :
  let counter : Effects.callable nat :=
    fun variables parameters w =>
      (Ok (Numpy.of_nat w), variables, parameters, S w) in
  let h : Effects.heap nat :=
    {| Effects.self_variables :=
         [("n", {| Effects.derivative_function := counter;
                   Effects.parameters := [] |})];
       Effects.variable_values := [];
       Effects.world := 0%nat |} in
  let first := Effects.compute_derivative h in
  let second := Effects.compute_derivative (snd first) in
  fst first = Ok [("n", num 0)] /\
  fst second = Ok [("n", num 1)] /\
  Effects.world (snd second) = 2%nat.
Proof.
  repeat split.
Qed.

(* ================================================================== *)
(** ** The grid sampler *)

Import Numpy DynamicModel2D_Base.

Lemma length_linspace start stop n : List.length (linspace start stop n) = n.
Proof.
  destruct n as [|[|n]]; simpl; try reflexivity.
  rewrite length_app, length_map, length_seq. simpl. lia.
Qed.

(** [np.meshgrid(xs, ys)[0]] has [len(ys)] rows of [len(xs)] entries. *)
Lemma getitem2_meshgrid_out xs ys i j :
  (List.length ys <= i \/ List.length xs <= j)%nat ->
  getitem2 (fst (meshgrid xs ys)) i j = Raise IndexError.
Proof.
  intros H. unfold getitem2, meshgrid. simpl. rewrite nth_error_map.
  destruct (nth_error ys i) as [y|] eqn:Ey; simpl; [| reflexivity].
  destruct H as [H|H].
  - apply nth_error_None in H. congruence.
  - apply nth_error_None in H. now rewrite H.
Qed.

Lemma sample_point_raises self t Xv Hv i j dots e :
  getitem2 Xv i j = Raise e ->
  sample_point self t Xv Hv i j dots = Raise e.
Proof.
  intros H. unfold sample_point. now rewrite H.
Qed.

Lemma sample_row_raises self t Xv Hv i j range_Y :
  In j range_Y ->
  (forall dots, exists e, sample_point self t Xv Hv i j dots = Raise e) ->
  forall dots, exists e, sample_row self t Xv Hv i range_Y dots = Raise e.
Proof.
  intros Hin Hp. induction range_Y as [|j' range_Y IH]; intros dots.
  - contradiction.
  - simpl. destruct (sample_point self t Xv Hv i j' dots) as [dots'|e] eqn:E.
    + simpl. destruct Hin as [->|Hin].
      * destruct (Hp dots) as [e He]. congruence.
      * now apply IH.
    + now exists e.
Qed.

Lemma sample_rows_raises self t Xv Hv i range_X range_Y :
  In i range_X ->
  (forall dots, exists e, sample_row self t Xv Hv i range_Y dots = Raise e) ->
  forall dots, exists e, sample_rows self t Xv Hv range_X range_Y dots = Raise e.
Proof.
  intros Hin Hp. induction range_X as [|i' range_X IH]; intros dots.
  - contradiction.
  - simpl. destruct (sample_row self t Xv Hv i' range_Y dots) as [dots'|e] eqn:E.
    + simpl. destruct Hin as [->|Hin].
      * destruct (Hp dots) as [e He]. congruence.
      * now apply IH.
    + now exists e.
Qed.

(** On a grid that is not square the sampler returns nothing: the arrays
    of [np.meshgrid] have [n_Y] rows and [n_X] columns, and the loops
    index them up to row [n_X - 1] and column [n_Y - 1]. *)
Lemma create_meshgrid_derivatives_not_square
    garbage_x garbage_y self n_X n_Y Xlim Ylim t :
  (1 <= n_X)%nat -> (1 <= n_Y)%nat -> n_X <> n_Y ->
  exists e,
    create_meshgrid_derivatives garbage_x garbage_y self n_X n_Y Xlim Ylim t
    = Raise e.
Proof.
  intros HX HY Hne. unfold create_meshgrid_derivatives.
  set (xs := linspace (fst Xlim) (snd Xlim) n_X).
  set (ys := linspace (fst Ylim) (snd Ylim) n_Y).
  assert (Hraise : forall dots, exists e,
            sample_rows self t (fst (meshgrid xs ys)) (snd (meshgrid xs ys))
              (seq 0 n_X) (seq 0 n_Y) dots = Raise e).
  { destruct (Nat.lt_ge_cases n_X n_Y) as [Hlt|Hge].
    - apply sample_rows_raises with (i := 0%nat); [apply in_seq; lia |].
      apply sample_row_raises with (j := n_X); [apply in_seq; lia |].
      intros dots. exists IndexError. apply sample_point_raises.
      apply getitem2_meshgrid_out. right. unfold xs.
      now rewrite length_linspace.
    - apply sample_rows_raises with (i := n_Y); [apply in_seq; lia |].
      apply sample_row_raises with (j := 0%nat); [apply in_seq; lia |].
      intros dots. exists IndexError. apply sample_point_raises.
      apply getitem2_meshgrid_out. left. unfold ys.
      now rewrite length_linspace. }
  destruct (meshgrid xs ys) as [Xv Hv]. simpl in Hraise.
  destruct (Hraise (empty_like garbage_x Xv, empty_like garbage_y Hv))
    as [e He].
  exists e. now rewrite He.
Qed.

(** C2 fails on the code.  Asked for a 2-by-3 grid, the sampler raises
    [IndexError] at [Xv[0, 2]] instead of returning four arrays. *)
Theorem create_meshgrid_derivatives_two_by_three garbage_x garbage_y :
  create_meshgrid_derivatives garbage_x garbage_y Example.model2D 2 3
    (num 0, num 1) (num 0, num 2) (num 0)
  = Raise IndexError.
Proof.
  reflexivity.
Qed.

(* ------------------------------------------------------------------ *)
(** *** What the sampler returns when it returns *)

Lemma set_nth_spec {A : Type} (l : list A) :
  forall n x l',
    set_nth l n x = Some l' ->
    List.length l' = List.length l /\
    nth_error l' n = Some x /\
    forall m, m <> n -> nth_error l' m = nth_error l m.
Proof.
  induction l as [|y l IH]; intros n x l' H; simpl in H.
  - destruct n; discriminate.
  - destruct n as [|n].
    + inversion H; subst. repeat split.
      intros [|m] Hm; [contradiction | reflexivity].
    + destruct (set_nth l n x) as [rest|] eqn:E; [|discriminate].
      inversion H; subst. destruct (IH _ _ _ E) as [Hlen [Hn Hm]].
      repeat split.
      * simpl. now rewrite Hlen.
      * exact Hn.
      * intros [|m] Hne; [reflexivity |]. simpl. apply Hm. congruence.
Qed.

Lemma setitem2_spec a i j v a' :
  setitem2 a i j v = Ok a' ->
  getitem2 a' i j = Ok v /\
  (forall i' j', (i' <> i \/ j' <> j) -> getitem2 a' i' j' = getitem2 a i' j') /\
  (forall r c, has_shape a r c -> has_shape a' r c).
Proof.
  unfold setitem2. intros H.
  destruct (nth_error a i) as [row|] eqn:Ei; [|discriminate].
  destruct (set_nth row j v) as [row'|] eqn:Er; [|discriminate].
  destruct (set_nth a i row') as [a''|] eqn:Ea; [|discriminate].
  inversion H; subst a''. clear H.
  destruct (set_nth_spec _ _ _ _ Er) as [Hlr [Hrj Hro]].
  destruct (set_nth_spec _ _ _ _ Ea) as [Hla [Hai Hao]].
  split; [| split].
  - unfold getitem2. now rewrite Hai, Hrj.
  - intros i' j' Hne. unfold getitem2.
    destruct (Nat.eq_dec i' i) as [->|Hi].
    + rewrite Hai, Ei. destruct Hne as [Hne|Hne]; [contradiction |].
      now rewrite (Hro j' Hne).
    + now rewrite (Hao i' Hi).
  - intros r c [Hlen Hrows]. split; [now rewrite Hla |].
    rewrite Forall_forall in *.
    intros r' Hin. apply In_nth_error in Hin. destruct Hin as [k Hk].
    destruct (Nat.eq_dec k i) as [->|Hki].
    + rewrite Hai in Hk. inversion Hk; subst r'. rewrite Hlr.
      apply Hrows. now apply nth_error_In with (n := i).
    + rewrite (Hao k Hki) in Hk. apply Hrows.
      now apply nth_error_In with (n := k).
Qed.

(** The entry [(i, j)] of the two derivative arrays is what the evaluator
    answers at the grid point [(Xv[i, j], Hv[i, j])]. *)
Definition sampled (self : DynamicModel2D) (t : value) (Xv Hv : ndarray)
    (dots : ndarray * ndarray) (i j : nat) : Prop :=
  exists x y derivatives,
    getitem2 Xv i j = Ok x /\
    getitem2 Hv i j = Ok y /\
    compute_derivative (base self)
      (dict_set (dict_set (dict_set [] "t" t) (variable_x self) x)
                (variable_y self) y) = Ok derivatives /\
    getitem2 (fst dots) i j = getitem derivatives (variable_x self) /\
    getitem2 (snd dots) i j = getitem derivatives (variable_y self).

Definition shapes (dots : ndarray * ndarray) (r c : nat) : Prop :=
  has_shape (fst dots) r c /\ has_shape (snd dots) r c.

Lemma sample_point_spec self t Xv Hv i j dots dots' :
  sample_point self t Xv Hv i j dots = Ok dots' ->
  sampled self t Xv Hv dots' i j /\
  (forall i' j',
     sampled self t Xv Hv dots i' j' -> sampled self t Xv Hv dots' i' j') /\
  (forall r c, shapes dots r c -> shapes dots' r c).
Proof.
  unfold sample_point. intros H.
  destruct (getitem2 Xv i j) as [x|] eqn:Ex; simpl in H; [|discriminate].
  destruct (getitem2 Hv i j) as [y|] eqn:Ey; simpl in H; [|discriminate].
  destruct (compute_derivative _ _) as [d|] eqn:Ed; simpl in H; [|discriminate].
  destruct (getitem d (variable_y self)) as [dy|] eqn:Edy; simpl in H;
    [|discriminate].
  destruct (setitem2 (snd dots) i j dy) as [Ydot|] eqn:Esy; simpl in H;
    [|discriminate].
  destruct (getitem d (variable_x self)) as [dx|] eqn:Edx; simpl in H;
    [|discriminate].
  destruct (setitem2 (fst dots) i j dx) as [Xdot|] eqn:Esx; simpl in H;
    [|discriminate].
  inversion H; subst dots'. clear H.
  destruct (setitem2_spec _ _ _ _ _ Esx) as [Hxs [Hxo Hxsh]].
  destruct (setitem2_spec _ _ _ _ _ Esy) as [Hys [Hyo Hysh]].
  assert (Hhere : sampled self t Xv Hv (Xdot, Ydot) i j).
  { exists x, y, d. simpl. rewrite Edx, Edy. auto. }
  split; [exact Hhere |]. split.
  - intros i' j' Hs.
    destruct (Nat.eq_dec i' i) as [->|Hi].
    + destruct (Nat.eq_dec j' j) as [->|Hj]; [exact Hhere |].
      destruct Hs as [x' [y' [d' [H1 [H2 [H3 [H4 H5]]]]]]].
      exists x', y', d'. simpl.
      rewrite Hxo, Hyo by (now right). auto.
    + destruct Hs as [x' [y' [d' [H1 [H2 [H3 [H4 H5]]]]]]].
      exists x', y', d'. simpl.
      rewrite Hxo, Hyo by (now left). auto.
  - intros r c [Hx Hy]. split; simpl; auto.
Qed.

Lemma sample_row_spec self t Xv Hv i range_Y :
  forall dots dots',
    sample_row self t Xv Hv i range_Y dots = Ok dots' ->
    (forall j, In j range_Y -> sampled self t Xv Hv dots' i j) /\
    (forall i' j',
       sampled self t Xv Hv dots i' j' -> sampled self t Xv Hv dots' i' j') /\
    (forall r c, shapes dots r c -> shapes dots' r c).
Proof.
  induction range_Y as [|j range_Y IH]; intros dots dots' H; simpl in H.
  - inversion H; subst. split; [intros j [] | split; auto].
  - destruct (sample_point self t Xv Hv i j dots) as [dots1|] eqn:E;
      simpl in H; [|discriminate].
    destruct (sample_point_spec _ _ _ _ _ _ _ _ E) as [Hj [Hkeep Hsh]].
    destruct (IH _ _ H) as [Hin [Hkeep' Hsh']].
    split; [| split; auto].
    intros j' [<-|Hj']; auto.
Qed.

Lemma sample_rows_spec self t Xv Hv range_X range_Y :
  forall dots dots',
    sample_rows self t Xv Hv range_X range_Y dots = Ok dots' ->
    (forall i j, In i range_X -> In j range_Y ->
                 sampled self t Xv Hv dots' i j) /\
    (forall i' j',
       sampled self t Xv Hv dots i' j' -> sampled self t Xv Hv dots' i' j') /\
    (forall r c, shapes dots r c -> shapes dots' r c).
Proof.
  induction range_X as [|i range_X IH]; intros dots dots' H; simpl in H.
  - inversion H; subst. split; [intros i j [] | split; auto].
  - destruct (sample_row self t Xv Hv i range_Y dots) as [dots1|] eqn:E;
      simpl in H; [|discriminate].
    destruct (sample_row_spec _ _ _ _ _ _ _ _ E) as [Hi [Hkeep Hsh]].
    destruct (IH _ _ H) as [Hin [Hkeep' Hsh']].
    split; [| split; auto].
    intros i' j [<-|Hi'] Hj; auto.
Qed.

Lemma meshgrid_shape xs ys :
  has_shape (fst (meshgrid xs ys)) (List.length ys) (List.length xs) /\
  has_shape (snd (meshgrid xs ys)) (List.length ys) (List.length xs).
Proof.
  unfold meshgrid, has_shape. simpl. rewrite !length_map.
  repeat split; apply Forall_forall; intros row Hin;
    apply in_map_iff in Hin; destruct Hin as [y [<- _]];
    [reflexivity | apply length_map].
Qed.

Lemma empty_like_shape garbage a r c :
  has_shape a r c -> has_shape (empty_like garbage a) r c.
Proof.
  intros [Hlen Hrows]. unfold empty_like, has_shape.
  rewrite length_map, length_seq. split; [assumption |].
  apply Forall_forall. intros row Hin. apply in_map_iff in Hin.
  destruct Hin as [k [<- Hk]]. apply in_seq in Hk.
  rewrite length_map, length_seq. rewrite Forall_forall in Hrows.
  apply Hrows. apply nth_In. lia.
Qed.

(** X19.  Whenever the sampler returns, the four arrays have [n_Y] rows and
    [n_X] columns, and at every index pair the loops visit the two
    derivative arrays hold the evaluator's answer at that grid point.  A
    returning call on a grid with [n_X, n_Y >= 1] has [n_X = n_Y], so
    there the arrays are [n_X]-by-[n_Y]. *)
Lemma create_meshgrid_derivatives_returns
    garbage_x garbage_y self n_X n_Y Xlim Ylim t Xv Hv Xdot Ydot :
  create_meshgrid_derivatives garbage_x garbage_y self n_X n_Y Xlim Ylim t
    = Ok (Xv, Hv, Xdot, Ydot) ->
  has_shape Xv n_Y n_X /\ has_shape Hv n_Y n_X /\
  has_shape Xdot n_Y n_X /\ has_shape Ydot n_Y n_X /\
  ((1 <= n_X)%nat -> (1 <= n_Y)%nat -> n_X = n_Y) /\
  forall i j,
    (i < n_X)%nat -> (j < n_Y)%nat ->
    sampled self t Xv Hv (Xdot, Ydot) i j.
Proof.
  intros H.
  assert (Hsq : (1 <= n_X)%nat -> (1 <= n_Y)%nat -> n_X = n_Y).
  { intros HX HY. destruct (Nat.eq_dec n_X n_Y) as [E|Hne]; [exact E |].
    destruct (create_meshgrid_derivatives_not_square
                garbage_x garbage_y self n_X n_Y Xlim Ylim t HX HY Hne)
      as [e He].
    congruence. }
  unfold create_meshgrid_derivatives in H.
  pose proof (meshgrid_shape (linspace (fst Xlim) (snd Xlim) n_X)
                             (linspace (fst Ylim) (snd Ylim) n_Y)) as Hm.
  rewrite !length_linspace in Hm.
  destruct (meshgrid _ _) as [Xv0 Hv0]. simpl in Hm.
  destruct Hm as [HshX HshY].
  destruct (sample_rows self t Xv0 Hv0 (seq 0 n_X) (seq 0 n_Y) _)
    as [[Xd Yd]|] eqn:E; simpl in H; [|discriminate].
  inversion H; subst. clear H.
  destruct (sample_rows_spec _ _ _ _ _ _ _ _ E) as [Hin [_ Hsh]].
  destruct (Hsh n_Y n_X) as [HX HY].
  { split; simpl; now apply empty_like_shape. }
  simpl in HX, HY.
  split; [exact HshX |]. split; [exact HshY |].
  split; [exact HX |]. split; [exact HY |]. split; [exact Hsq |].
  intros i j Hi Hj. apply Hin; apply in_seq; lia.
Qed.

(** A square grid on which the sampler does return. *)
Example create_meshgrid_derivatives_two_by_two garbage_x garbage_y :
  create_meshgrid_derivatives garbage_x garbage_y Example.model2D 2 2
    (num 0, num 1) (num 0, num 2) (num 0)
  = Ok ([[num 0; num 1]; [num 0; num 1]],
        [[num 0; num 0]; [num 2; num 2]],
        [[num 0; num 0]; [num 2; num 2]],
        [[num 0; num (-100)]; [num 0; num (-100)]]).
Proof.
  reflexivity.
Qed.

Lemma add_variable_2D_ok self name f p axis :
  model_ok self -> model_ok (DynamicModel2D_Base.add_variable self name f p axis).
Proof.
  intros [Hnd Ht]. split; simpl.
  - now apply NoDup_keys_dict_set.
  - apply In_keys_dict_set. now right.
Qed.

(* ================================================================== *)
(** ** The registry *)

(** X1.  After [add_variable], the name looks up to the entry just given
    and every other name to what it had; a name registered before keeps
    its place in the registry (the old entry is overwritten, no second one
    is made), a new name goes last. *)
Theorem add_variable_lookup self name f p :
  let self' := ModelBase.add_variable self name f p in
  dict_get (variables self') name
    = Some {| derivative_function := f; parameters := p; axis := None |} /\
  (forall other, other <> name ->
     dict_get (variables self') other = dict_get (variables self) other) /\
  (In name (keys (variables self)) ->
     keys (variables self') = keys (variables self)) /\
  (~ In name (keys (variables self)) ->
     keys (variables self') = keys (variables self) ++ [name]).
Proof.
  simpl. split; [apply dict_get_set_same |].
  split; [intros other Hne; now apply dict_get_set_other |].
  split; [apply keys_dict_set_present | apply keys_dict_set_absent].
Qed.

Lemma add_variable_lookup_witness :
  let f : dict value -> dict value -> result value :=
    fun _ _ => Ok (num 5) in
  let self' := ModelBase.add_variable Example.model "x" f [] in
  In "x" (keys (variables Example.model)) /\
  keys (variables self') = ["t"; "x"; "y"] /\
  dict_get (variables self') "x"
    = Some {| derivative_function := f; parameters := []; axis := None |} /\
  dict_get (variables self') "y" = dict_get (variables Example.model) "y" /\
  compute_derivative self' [("x", num 1)]
    = Ok [("t", num 1); ("x", num 5); ("y", num (-100))].
Proof.
  pose proof (add_variable_lookup Example.model "x"
                (fun _ _ => Ok (num 5)) []) as H.
  cbv zeta in H. destruct H as [Hget [Hother [Hin _]]].
  split; [right; now left |].
  split; [apply Hin; right; now left |].
  split; [exact Hget |].
  split; [apply Hother; discriminate | reflexivity].
Defined.

(** X2.  [DynamicModel2D.__init__] leaves a registry of distinct names
    with ['t'] among them, in which the y variable has the entry given
    for it, tagged ['y'].  The x variable has its entry, tagged ['x'],
    unless both variables have one name, and ['t'] keeps the constant
    derivative [1] unless one of the two is called ['t'].  With three
    distinct names the registry lists ['t'], x, y in this order. *)
Theorem init_2D_registry x fx px y fy py :
  let self := DynamicModel2D_Base.init x fx px y fy py in
  model_ok (base self) /\
  variable_x self = x /\ variable_y self = y /\ nullclines self = [] /\
  dict_get (variables (base self)) y
    = Some {| derivative_function := fy; parameters := py;
              axis := Some "y" |} /\
  (x <> y ->
   dict_get (variables (base self)) x
     = Some {| derivative_function := fx; parameters := px;
               axis := Some "x" |}) /\
  (x <> "t" -> y <> "t" -> default_time (base self)) /\
  (x <> "t" -> y <> "t" -> x <> y ->
   keys (variables (base self)) = ["t"; x; y]).
Proof.
  intros self.
  set (ix := {| derivative_function := fx; parameters := px;
                axis := Some "x" |}).
  set (iy := {| derivative_function := fy; parameters := py;
                axis := Some "y" |}).
  assert (Hv : variables (base self)
               = dict_set (dict_set [("t", time_info)] x ix) y iy)
    by reflexivity.
  split.
  { change (model_ok (DynamicModel2D_Base.add_variable
                        (DynamicModel2D_Base.add_variable ModelBase.init
                           x fx px "x") y fy py "y")).
    do 2 apply add_variable_2D_ok. apply init_ok. }
  repeat (split; [reflexivity |]).
  unfold default_time. rewrite Hv.
  split; [apply dict_get_set_same |].
  split; [| split].
  - intros Hne. rewrite dict_get_set_other by assumption.
    apply dict_get_set_same.
  - intros Hx Hy. rewrite !dict_get_set_other by congruence. reflexivity.
  - intros Hx Hy Hxy.
    assert (Hkx : keys (dict_set [("t", time_info)] x ix) = ["t"; x]).
    { rewrite keys_dict_set_absent; [reflexivity |].
      simpl. intros [E|[]]. congruence. }
    rewrite keys_dict_set_absent; rewrite Hkx; [reflexivity |].
    simpl. intros [E|[E|[]]]; congruence.
Qed.

Lemma init_2D_registry_witness :
  keys (variables (base Example.model2D)) = ["t"; "x"; "y"] /\
  default_time (base Example.model2D) /\
  model_ok (base Example.model2D).
Proof.
  pose proof (init_2D_registry "x" Example.derivative_function_x
                [("a", num 1)] "y" Example.derivative_function_y
                [("b", num 100)]) as H.
  cbv zeta in H.
  destruct H as [Hok [_ [_ [_ [_ [_ [Hdef Hkeys]]]]]]].
  split; [apply Hkeys; discriminate |].
  split; [apply Hdef; discriminate | exact Hok].
Defined.

(** X3.  [add_nullcline] puts the new curve after the curves the variable
    already has (alone, if it had none), leaves the curves of every other
    variable alone, and touches nothing else of the model. *)
Theorem add_nullcline_lookup self name f p b :
  let mydict := {| nullcline_function := f; nullcline_parameters := p;
                   y_fun_x := b |} in
  let self' := add_nullcline self name f p b in
  dict_get (nullclines self') name
    = Some (match dict_get (nullclines self) name with
            | Some l => l ++ [mydict]
            | None => [mydict]
            end) /\
  (forall other, other <> name ->
     dict_get (nullclines self') other = dict_get (nullclines self) other) /\
  base self' = base self /\
  variable_x self' = variable_x self /\
  variable_y self' = variable_y self.
Proof.
  simpl. split; [| split; [| repeat split]].
  - destruct (dict_get (nullclines self) name); apply dict_get_set_same.
  - intros other Hne.
    destruct (dict_get (nullclines self) name);
      now apply dict_get_set_other.
Qed.

Lemma add_nullcline_lookup_witness :
  let f1 : value -> dict value -> result value := fun x _ => Ok x in
  let f2 : value -> dict value -> result value := fun x _ => Ok (vneg x) in
  let self1 := add_nullcline Example.model2D "x" f1 [] true in
  let self2 := add_nullcline self1 "x" f2 [] false in
  dict_get (nullclines self2) "x"
    = Some [{| nullcline_function := f1; nullcline_parameters := [];
               y_fun_x := true |};
            {| nullcline_function := f2; nullcline_parameters := [];
               y_fun_x := false |}] /\
  (forall other, other <> "x" ->
     dict_get (nullclines self2) other = dict_get (nullclines self1) other).
Proof.
  pose proof (add_nullcline_lookup
                (add_nullcline Example.model2D "x" (fun x _ => Ok x) [] true)
                "x" (fun x _ => Ok (vneg x)) [] false) as H.
  cbv zeta in H. destruct H as [Hget [Hother _]].
  split; [exact Hget | exact Hother].
Defined.

(* ================================================================== *)
(** ** More on the evaluator *)

Lemma compute_derivative_items_Forall2 items s :
  NoDup (keys items) ->
  forall acc d,
    (forall k, In k (keys items) -> ~ In k (keys acc)) ->
    compute_derivative_items items s acc = Ok d ->
    exists new,
      d = acc ++ new /\
      Forall2 (fun (entry : string * var_info) (kv : string * value) =>
                 fst kv = fst entry /\
                 derivative_function (snd entry) s (parameters (snd entry))
                   = Ok (snd kv)) items new.
Proof.
  induction items as [|[variable info] items IH]; simpl;
    intros Hnd acc d Hdis H.
  - inversion H; subst. exists []. split; [now rewrite app_nil_r | constructor].
  - inversion Hnd as [|? ? Hnotin Hnd']; subst.
    destruct (derivative_function info s (parameters info)) as [v|e] eqn:Ef;
      simpl in H; [|discriminate].
    rewrite dict_set_absent in H
      by (apply dict_get_None, Hdis; now left).
    apply IH in H; [| assumption |].
    + destruct H as [new [-> HF]]. exists ((variable, v) :: new).
      split; [now rewrite <- app_assoc |].
      constructor; [split; [reflexivity | exact Ef] | exact HF].
    + intros k Hk Hin. unfold keys in Hin. rewrite map_app in Hin.
      apply in_app_iff in Hin. destruct Hin as [Hin|[<-|[]]].
      * apply (Hdis k); [now right | assumption].
      * contradiction.
Qed.

(** X4.  What the evaluator returns lists the registered names in the
    registry's order, each with the value its own derivative function
    returns on the snapshot and its own parameters. *)
Theorem compute_derivative_values self s d :
  NoDup (keys (variables self)) ->
  compute_derivative self s = Ok d ->
  Forall2 (fun (entry : string * var_info) (kv : string * value) =>
             fst kv = fst entry /\
             derivative_function (snd entry) s (parameters (snd entry))
               = Ok (snd kv)) (variables self) d.
Proof.
  intros Hnd H. unfold compute_derivative in H.
  apply compute_derivative_items_Forall2 in H; [| assumption | intros ? ? []].
  destruct H as [new [-> HF]]. exact HF.
Qed.

Lemma compute_derivative_values_witness :
  let s := [("t", num 7); ("x", num 3); ("y", num 4)] in
  compute_derivative Example.model s
    = Ok [("t", num 1); ("x", num 4); ("y", num (-300))] /\
  Forall2 (fun (entry : string * var_info) (kv : string * value) =>
             fst kv = fst entry /\
             derivative_function (snd entry) s (parameters (snd entry))
               = Ok (snd kv))
          (variables Example.model)
          [("t", num 1); ("x", num 4); ("y", num (-300))].
Proof.
  split; [reflexivity |].
  apply (compute_derivative_values Example.model
           [("t", num 7); ("x", num 3); ("y", num 4)]).
  - repeat constructor; simpl; intuition discriminate.
  - reflexivity.
Defined.

Lemma compute_derivative_items_first_raise pre name info post s e :
  (forall n i, In (n, i) pre ->
     exists v, derivative_function i s (parameters i) = Ok v) ->
  derivative_function info s (parameters info) = Raise e ->
  forall acc,
    compute_derivative_items (pre ++ (name, info) :: post) s acc = Raise e.
Proof.
  intros Hpre He. induction pre as [|[n i] pre IH]; intros acc; simpl.
  - now rewrite He.
  - destruct (Hpre n i (or_introl eq_refl)) as [v ->]. simpl.
    apply IH. intros n' i' Hin. apply (Hpre n' i'). now right.
Qed.

(** On functions of the two arguments alone: the evaluator passes on the
    exception of the first registered derivative function, in the
    registry's order, that raises on the snapshot. *)
Lemma compute_derivative_raises_first self pre name info post s e :
  variables self = pre ++ (name, info) :: post ->
  (forall n i, In (n, i) pre ->
     exists v, derivative_function i s (parameters i) = Ok v) ->
  derivative_function info s (parameters info) = Raise e ->
  compute_derivative self s = Raise e.
Proof.
  intros Hv Hpre He. unfold compute_derivative. rewrite Hv.
  now apply compute_derivative_items_first_raise.
Qed.

Lemma effects_items_first_raise {W : Type}
    (pre : dict (Effects.var_info W)) name info post e vv2 p2 w2 :
  forall vv w acc d pre' vv1 w1,
    Effects.compute_derivative_items pre vv w acc = (Ok d, pre', vv1, w1) ->
    Effects.derivative_function info vv1 (Effects.parameters info) w1
      = (Raise e, vv2, p2, w2) ->
    Effects.compute_derivative_items (pre ++ (name, info) :: post) vv w acc
      = (Raise e,
         pre' ++ (name,
                  {| Effects.derivative_function :=
                       Effects.derivative_function info;
                     Effects.parameters := p2 |}) :: post,
         vv2, w2).
Proof.
  induction pre as [|[n i] pre IH]; intros vv w acc d pre' vv1 w1 Hpre He.
  - cbn in Hpre. inversion Hpre; subst. cbn. now rewrite He.
  - cbn in Hpre |- *.
    destruct (Effects.derivative_function i vv (Effects.parameters i) w)
      as [[[r vv'] p'] w'].
    destruct r as [v|e']; [| discriminate].
    destruct (Effects.compute_derivative_items pre vv' w' (dict_set acc n v))
      as [[[r' rest'] vv''] w''] eqn:Hrest.
    inversion Hpre; subst.
    now rewrite (IH _ _ _ _ _ _ _ Hrest He).
Qed.

(** X5.  The evaluator passes on the exception of the first registered
    derivative function, in the registry's order, that raises, and calls
    no function registered after it: with callables that may write to
    the snapshot, to their parameters and to anything else, the snapshot
    and everything else are, when the evaluator raises, as the raising
    call left them, and the entries registered after it are as they
    were, whatever their functions would have done. *)
Theorem compute_derivative_first_raise {W : Type} (h : Effects.heap W)
    pre name info post e d pre' vv1 w1 vv2 p2 w2 :
  Effects.self_variables h = pre ++ (name, info) :: post ->
  Effects.compute_derivative_items pre (Effects.variable_values h)
    (Effects.world h) [] = (Ok d, pre', vv1, w1) ->
  Effects.derivative_function info vv1 (Effects.parameters info) w1
    = (Raise e, vv2, p2, w2) ->
  Effects.compute_derivative h
    = (Raise e,
       {| Effects.self_variables :=
            pre' ++ (name,
                     {| Effects.derivative_function :=
                          Effects.derivative_function info;
                        Effects.parameters := p2 |}) :: post;
          Effects.variable_values := vv2;
          Effects.world := w2 |}).
Proof.
  intros Hv Hpre He. unfold Effects.compute_derivative. rewrite Hv.
  now rewrite (effects_items_first_raise pre name info post e vv2 p2 w2
                 _ _ _ _ _ _ _ Hpre He).
Qed.

(** The registry ['t'], ['x'], ['n'] on the snapshot [{'t': 0}]: the
    function of ['t'] adds [1] to the count of calls, the function of
    ['x'] adds [10] and raises on the missing ['y'], and the function of
    ['n'], which would add [100], is not called: the count ends at
    [11]. *)
Lemma compute_derivative_first_raise_witness :
  let counting (k : nat) (g : dict value -> dict value -> result value)
      : Effects.callable nat :=
    fun variables parameters w =>
      (g variables parameters, variables, parameters, (k + w)%nat) in
  let info_t : Effects.var_info nat :=
    {| Effects.derivative_function := counting 1%nat (fun _ _ => Ok (num 1));
       Effects.parameters := [] |} in
  let info_x : Effects.var_info nat :=
    {| Effects.derivative_function :=
         counting 10%nat Example.derivative_function_x;
       Effects.parameters := [("a", num 1)] |} in
  let info_n : Effects.var_info nat :=
    {| Effects.derivative_function :=
         counting 100%nat (fun _ _ => Ok (num 0));
       Effects.parameters := [] |} in
  Effects.compute_derivative
    {| Effects.self_variables := [("t", info_t); ("x", info_x); ("n", info_n)];
       Effects.variable_values := [("t", num 0)];
       Effects.world := 0%nat |}
  = (Raise (KeyError "y"),
     {| Effects.self_variables :=
          [("t", info_t)] ++ ("x", info_x) :: [("n", info_n)];
        Effects.variable_values := [("t", num 0)];
        Effects.world := 11%nat |}).
Proof.
  intros counting info_t info_x info_n.
  apply (compute_derivative_first_raise
           {| Effects.self_variables :=
                [("t", info_t); ("x", info_x); ("n", info_n)];
              Effects.variable_values := [("t", num 0)];
              Effects.world := 0%nat |}
           [("t", info_t)] "x" info_x [("n", info_n)] (KeyError "y")
           [("t", num 1)] [("t", info_t)] [("t", num 0)] 1%nat
           [("t", num 0)] [("a", num 1)] 11%nat).
  - reflexivity.
  - reflexivity.
  - reflexivity.
Defined.

(* ================================================================== *)
(** ** More on the integrators *)

Lemma initial_frame_has_key self variables_initial k :
  In k (keys variables_initial) ->
  In k (columns (initial_frame self variables_initial)).
Proof.
  intros H. rewrite initial_frame_columns. apply in_or_app.
  destruct (mem k (keys (variables self))) eqn:E.
  - left. now apply mem_In.
  - right. apply filter_In. split; [assumption | now rewrite E].
Qed.



(** Each row after the first, entry by entry, from the row before it. *)
Lemma integrate_from_step_formula post cell self variables_initial
    t_final dt fuel df :
  (forall rv, post (DataFrame_row rv) = DataFrame_row (map_cells cell rv)) ->
  model_ok self ->
  NoDup (keys variables_initial) ->
  integrate_from post self variables_initial t_final dt fuel = Some (Ok df) ->
  forall k a b,
    nth_error (rows df) k = Some a ->
    nth_error (rows df) (S k) = Some b ->
    (forall name info,
       In (name, info) (variables self) ->
       exists x d,
         dict_get a name = Some x /\
         derivative_function info a (parameters info) = Ok d /\
         dict_get b name = Some (cell (vadd x (vmul d dt)))) /\
    (forall name,
       ~ In name (keys (variables self)) ->
       In name (columns df) ->
       dict_get b name = Some NaN) /\
    (forall name v,
       dict_get b name = Some v -> v = NaN \/ exists v0, v = cell v0).
Proof.
  intros Hpost [Hnd Ht] Hv H k a b Ha Hb.
  apply (integrate_from_rows _ _ Hpost _ Hnd) in H; [| assumption | assumption].
  destruct H as [Hc [[_ Hkeys] [Hch _]]]. rewrite <- Hc in Hch.
  destruct (chain_nth _ _ Hch k a b Ha Hb)
    as [t_a [rv [t_b [_ [_ [Hs ->]]]]]].
  destruct (euler_step_spec self dt (columns df) [] a rv t_b Hnd Hs)
    as [Hk [_ Hget]].
  assert (Hreg : incl (keys (variables self)) (columns df)).
  { rewrite Hc, initial_frame_columns. apply incl_appl, incl_refl. }
  split; [| split].
  - intros name info Hin.
    destruct (Hget name info Hin) as [x [d [Hx [Hd Hr]]]].
    exists x, d. repeat split; try assumption.
    rewrite dict_get_reindex, dict_get_map_cells, Hr; [reflexivity |].
    apply Hreg. unfold keys. apply in_map_iff. now exists (name, info).
  - intros name Hnot Hin.
    rewrite dict_get_reindex, dict_get_map_cells by assumption.
    rewrite <- Hk in Hnot. apply dict_get_None in Hnot. now rewrite Hnot.
  - intros name v Hg.
    assert (Hin : In name (columns df)).
    { apply dict_get_Some_In in Hg. now rewrite keys_reindex in Hg. }
    rewrite dict_get_reindex, dict_get_map_cells in Hg by assumption.
    inversion Hg. destruct (dict_get rv name) as [v0|]; simpl.
    + right. now exists v0.
    + now left.
Qed.

(** X7.  In every frame [euler_integrate] returns, each row after the
    first is the explicit Euler update of the row before it: for every
    registered variable, the old value plus [dt] times the value of its
    derivative function on the old row. *)
Theorem euler_integrate_step_formula self variables_initial t_final dt
    fuel df :
  model_ok self ->
  NoDup (keys variables_initial) ->
  snd (euler_integrate self variables_initial t_final dt fuel)
    = Some (Ok df) ->
  forall k a b,
    nth_error (rows df) k = Some a ->
    nth_error (rows df) (S k) = Some b ->
    forall name info,
      In (name, info) (variables self) ->
      exists x d,
        dict_get a name = Some x /\
        derivative_function info a (parameters info) = Ok d /\
        dict_get b name = Some (vadd x (vmul d dt)).
Proof.
  intros Hok Hv H k a b Ha Hb.
  destruct (euler_integrate_unfold self variables_initial t_final dt fuel)
    as [vi [E [Hvi _]]].
  rewrite E in H. cbn [snd] in H.
  exact (proj1 (integrate_from_step_formula _ _ _ _ _ _ _ _
                  post_row_id Hok (Hvi Hv) H k a b Ha Hb)).
Qed.

Lemma euler_integrate_step_formula_witness :
  exists df,
    snd (euler_integrate Example.model
           [("t", num 0); ("x", num 1); ("y", num 2)] (num 0.2) (num 0.1) 5)
      = Some (Ok df) /\
    List.length (rows df) = 3%nat /\
    forall k a b,
      nth_error (rows df) k = Some a ->
      nth_error (rows df) (S k) = Some b ->
      forall name info,
        In (name, info) (variables Example.model) ->
        exists x d,
          dict_get a name = Some x /\
          derivative_function info a (parameters info) = Ok d /\
          dict_get b name = Some (vadd x (vmul d (num 0.1))).
Proof.
  eexists. split; [vm_compute; reflexivity |]. split; [reflexivity |].
  apply (euler_integrate_step_formula Example.model
           [("t", num 0); ("x", num 1); ("y", num 2)] (num 0.2) (num 0.1) 5 _
           ltac:(split; [repeat constructor; simpl; intuition discriminate
                        | now left])
           ltac:(repeat constructor; simpl; intuition discriminate)
           ltac:(vm_compute; reflexivity)).
Defined.

(** X8.  In every frame [euler_integrate_keep_positive] returns, no row
    after the first holds a negative number: each number there is [0] or
    at least the literal [1e-14], the binary64 number
    [6338253001141147 / 2^99]. *)
Theorem keep_positive_nonnegative self variables_initial t_final dt fuel df :
  model_ok self ->
  NoDup (keys variables_initial) ->
  euler_integrate_keep_positive self variables_initial t_final dt fuel
    = Some (Ok df) ->
  forall k b name q,
    nth_error (rows df) (S k) = Some b ->
    dict_get b name = Some (Num q) ->
    (q == 0 \/ literal_1e_14 <= q)%Q.
Proof.
  intros Hok Hv H k b name q Hb Hg.
  destruct (nth_error (rows df) k) as [a|] eqn:Ha.
  2:{ apply nth_error_None in Ha.
      assert (Hlt : (S k < List.length (rows df))%nat)
        by (apply nth_error_Some; congruence).
      lia. }
  destruct (integrate_from_step_formula _ _ _ _ _ _ _ _
              (zero_below_row _) Hok Hv H k a b Ha Hb) as [_ [_ Hcell]].
  destruct (Hcell name (Num q) Hg) as [E|[v0 E]]; [discriminate |].
  unfold below_to_zero in E.
  destruct (vltb v0 (num literal_1e_14)) eqn:Hlt.
  - left. inversion E. reflexivity.
  - right. subst v0. apply vltb_Num_false in Hlt.
    now rewrite Qred_correct in Hlt.
Qed.

Lemma keep_positive_nonnegative_witness :
  exists df,
    euler_integrate_keep_positive Example.model
      [("t", num 0); ("x", num 1); ("y", num 2)] (num 0.2) (num 0.1) 5
      = Some (Ok df) /\
    nth_error (rows df) 1
      = Some [("t", num 0.1); ("x", num 1.2); ("y", num 0)] /\
    forall k b name q,
      nth_error (rows df) (S k) = Some b ->
      dict_get b name = Some (Num q) ->
      (q == 0 \/ literal_1e_14 <= q)%Q.
Proof.
  eexists. split; [vm_compute; reflexivity |]. split; [reflexivity |].
  apply (keep_positive_nonnegative Example.model
           [("t", num 0); ("x", num 1); ("y", num 2)] (num 0.2) (num 0.1) 5 _
           ltac:(split; [repeat constructor; simpl; intuition discriminate
                        | now left])
           ltac:(repeat constructor; simpl; intuition discriminate)
           ltac:(vm_compute; reflexivity)).
Defined.

Lemma integrate_from_first_row post cell self variables_initial
    t_final dt fuel df :
  (forall rv, post (DataFrame_row rv) = DataFrame_row (map_cells cell rv)) ->
  model_ok self ->
  NoDup (keys variables_initial) ->
  integrate_from post self variables_initial t_final dt fuel = Some (Ok df) ->
  columns df = columns (initial_frame self variables_initial) /\
  exists rest, rows df = reindex (columns df) variables_initial :: rest.
Proof.
  intros Hpost [Hnd Ht] Hv H.
  apply (integrate_from_rows _ _ Hpost _ Hnd) in H; [| assumption | assumption].
  destruct H as [Hc [_ [_ [[extra He] _]]]].
  split; [exact Hc |]. exists extra. now rewrite Hc.
Qed.

Lemma reindex_keeps cols row name v :
  In name cols -> dict_get row name = Some v ->
  dict_get (reindex cols row) name = Some v.
Proof.
  intros Hin Hg. now rewrite dict_get_reindex, Hg.
Qed.

Lemma euler_integrate_dict_get self variables_initial t_final dt fuel vi r :
  euler_integrate self variables_initial t_final dt fuel = (vi, r) ->
  forall name,
    name <> "t" -> dict_get vi name = dict_get variables_initial name.
Proof.
  unfold euler_integrate. intros H name Hne.
  destruct (negb (contains "t" variables_initial)); inversion H; subst.
  - now apply dict_get_set_other.
  - reflexivity.
Qed.

(** X9.  The frame either integrator returns starts with the initial
    snapshot as it was given: every key of the snapshot has its initial
    value in the first row, which the clamped integrator does not clamp;
    and when the snapshot has no ['t'], the first row of
    [euler_integrate] has ['t'] at [0]. *)
Theorem trajectory_first_row self variables_initial t_final dt fuel :
  model_ok self ->
  NoDup (keys variables_initial) ->
  (forall df,
     euler_integrate_keep_positive self variables_initial t_final dt fuel
       = Some (Ok df) ->
     exists row0 rest,
       rows df = row0 :: rest /\
       forall name v,
         dict_get variables_initial name = Some v ->
         dict_get row0 name = Some v) /\
  (forall df,
     snd (euler_integrate self variables_initial t_final dt fuel)
       = Some (Ok df) ->
     exists row0 rest,
       rows df = row0 :: rest /\
       (forall name v,
          dict_get variables_initial name = Some v ->
          dict_get row0 name = Some v) /\
       (dict_get variables_initial "t" = None ->
        dict_get row0 "t" = Some (num 0))).
Proof.
  intros Hok Hv. split; intros df H.
  - destruct (integrate_from_first_row _ _ _ _ _ _ _ _
                (zero_below_row _) Hok Hv H) as [Hc [rest Hr]].
    exists (reindex (columns df) variables_initial), rest.
    split; [exact Hr |]. intros name v Hg.
    apply reindex_keeps; [| assumption].
    rewrite Hc. apply initial_frame_has_key.
    now apply dict_get_Some_In with (v := v).
  - destruct (euler_integrate_unfold self variables_initial t_final dt fuel)
      as [vi [E [Hvi [Hk [Hget _]]]]].
    pose proof (euler_integrate_dict_get _ _ _ _ _ _ _ E) as Hsame.
    rewrite E in H. cbn [snd] in H.
    destruct (integrate_from_first_row _ _ _ _ _ _ _ _
                post_row_id Hok (Hvi Hv) H) as [Hc [rest Hr]].
    exists (reindex (columns df) vi), rest.
    split; [exact Hr |]. split.
    + intros name v Hg.
      assert (Hg' : dict_get vi name = Some v).
      { destruct (String.eqb_spec name "t") as [->|Hne].
        - now rewrite Hget, Hg.
        - now rewrite Hsame. }
      apply reindex_keeps; [| assumption].
      rewrite Hc. apply initial_frame_has_key.
      now apply dict_get_Some_In with (v := v).
    + intros Hnone. rewrite Hnone in Hget.
      apply reindex_keeps; [| assumption].
      rewrite Hc. apply initial_frame_has_key.
      now apply dict_get_Some_In with (v := num 0).
Qed.

Lemma trajectory_first_row_witness :
  exists df row0 rest,
    euler_integrate_keep_positive Example.model
      [("t", num 0); ("x", num (-5)); ("y", num 2)] (num 0.1) (num 0.1) 5
      = Some (Ok df) /\
    rows df = row0 :: rest /\
    dict_get row0 "x" = Some (num (-5)) /\
    forall name v,
      dict_get [("t", num 0); ("x", num (-5)); ("y", num 2)] name = Some v ->
      dict_get row0 name = Some v.
Proof.
  destruct (proj1 (trajectory_first_row Example.model
                     [("t", num 0); ("x", num (-5)); ("y", num 2)]
                     (num 0.1) (num 0.1) 5
                     ltac:(split; [repeat constructor; simpl;
                                   intuition discriminate | now left])
                     ltac:(repeat constructor; simpl; intuition discriminate))
                  _ ltac:(vm_compute; reflexivity))
    as [row0 [rest [Hr Hg]]].
  eexists. exists row0, rest.
  split; [vm_compute; reflexivity |]. split; [exact Hr |].
  split; [apply Hg; reflexivity | exact Hg].
Defined.

Lemma integrate_from_nan_column post cell self variables_initial
    t_final dt fuel df name :
  (forall rv, post (DataFrame_row rv) = DataFrame_row (map_cells cell rv)) ->
  cell NaN = NaN ->
  model_ok self ->
  NoDup (keys variables_initial) ->
  integrate_from post self variables_initial t_final dt fuel = Some (Ok df) ->
  In name (keys (variables self)) ->
  dict_get variables_initial name = None ->
  forall k row, nth_error (rows df) k = Some row ->
                dict_get row name = Some NaN.
Proof.
  intros Hpost Hnan Hok Hv H Hin Hnone.
  destruct (integrate_from_first_row _ _ _ _ _ _ _ _ Hpost Hok Hv H)
    as [Hc [rest Hr]].
  assert (Hcol : In name (columns df)).
  { rewrite Hc, initial_frame_columns. apply in_or_app. now left. }
  induction k as [|k IH]; intros row Hrow.
  - rewrite Hr in Hrow. inversion Hrow; subst row.
    now rewrite dict_get_reindex, Hnone.
  - destruct (nth_error (rows df) k) as [a|] eqn:Ha.
    2:{ apply nth_error_None in Ha.
        assert (Hlt : (S k < List.length (rows df))%nat)
          by (apply nth_error_Some; congruence).
        lia. }
    destruct (integrate_from_step_formula _ _ _ _ _ _ _ _
                Hpost Hok Hv H k a row Ha Hrow) as [Hf _].
    unfold keys in Hin. apply in_map_iff in Hin.
    destruct Hin as [[n info] [Hn Hin]]. simpl in Hn. subst n.
    destruct (Hf name info Hin) as [x [d [Hx [_ Hb]]]].
    rewrite (IH a eq_refl) in Hx. inversion Hx; subst x.
    simpl in Hb. now rewrite Hnan in Hb.
Qed.

(** X10.  A registered variable that the initial snapshot leaves out
    raises nothing: it is [nan] in every row of the frame either
    integrator returns (for [euler_integrate], every variable but ['t'],
    which is set to [0]). *)
Theorem missing_variable_is_nan self variables_initial t_final dt fuel name :
  model_ok self ->
  NoDup (keys variables_initial) ->
  In name (keys (variables self)) ->
  dict_get variables_initial name = None ->
  (forall df,
     euler_integrate_keep_positive self variables_initial t_final dt fuel
       = Some (Ok df) ->
     Forall (fun row => dict_get row name = Some NaN) (rows df)) /\
  (name <> "t" ->
   forall df,
     snd (euler_integrate self variables_initial t_final dt fuel)
       = Some (Ok df) ->
     Forall (fun row => dict_get row name = Some NaN) (rows df)).
Proof.
  intros Hok Hv Hin Hnone. split.
  - intros df H. apply Forall_forall. intros row Hrow.
    apply In_nth_error in Hrow. destruct Hrow as [k Hk].
    exact (integrate_from_nan_column _ _ _ _ _ _ _ _ _
             (zero_below_row _) eq_refl Hok Hv H Hin Hnone k row Hk).
  - intros Hne df H.
    destruct (euler_integrate_unfold self variables_initial t_final dt fuel)
      as [vi [E [Hvi _]]].
    pose proof (euler_integrate_dict_get _ _ _ _ _ _ _ E name Hne) as Hsame.
    rewrite E in H. cbn [snd] in H.
    apply Forall_forall. intros row Hrow.
    apply In_nth_error in Hrow. destruct Hrow as [k Hk].
    apply (integrate_from_nan_column _ _ _ _ _ _ _ _ _
             post_row_id eq_refl Hok (Hvi Hv) H Hin) with (k := k);
      [| assumption].
    now rewrite Hsame.
Qed.

Lemma missing_variable_is_nan_witness :
  exists df,
    snd (euler_integrate Example.model [("t", num 0); ("x", num 1)]
           (num 0.2) (num 0.1) 5) = Some (Ok df) /\
    List.length (rows df) = 3%nat /\
    Forall (fun row => dict_get row "y" = Some NaN) (rows df).
Proof.
  eexists. split; [vm_compute; reflexivity |]. split; [reflexivity |].
  apply (proj2 (missing_variable_is_nan Example.model
                  [("t", num 0); ("x", num 1)] (num 0.2) (num 0.1) 5 "y"
                  ltac:(split; [repeat constructor; simpl;
                                intuition discriminate | now left])
                  ltac:(repeat constructor; simpl; intuition discriminate)
                  ltac:(simpl; tauto)
                  ltac:(reflexivity))
               ltac:(discriminate)).
  vm_compute. reflexivity.
Defined.

(** X11.  A key of the initial snapshot that names no registered
    variable becomes a column after the registered ones; it holds the
    initial value in the first row and [nan] in every later row, for
    both integrators. *)
Theorem unregistered_key_column self variables_initial t_final dt fuel
    name v :
  model_ok self ->
  NoDup (keys variables_initial) ->
  dict_get variables_initial name = Some v ->
  ~ In name (keys (variables self)) ->
  forall df,
    snd (euler_integrate self variables_initial t_final dt fuel)
      = Some (Ok df) \/
    euler_integrate_keep_positive self variables_initial t_final dt fuel
      = Some (Ok df) ->
    columns df =
      keys (variables self) ++
      filter (fun c => negb (mem c (keys (variables self))))
             (keys variables_initial) /\
    In name (columns df) /\
    nth_error (column df name) 0 = Some (Some v) /\
    forall k c, nth_error (column df name) (S k) = Some c -> c = Some NaN.
Proof.
  intros Hok Hv Hg Hnot df H.
  assert (Hnt : name <> "t") by (intros ->; apply Hnot, Hok).
  assert (Hgen : forall post cell vi,
            (forall rv, post (DataFrame_row rv)
                        = DataFrame_row (map_cells cell rv)) ->
            NoDup (keys vi) ->
            dict_get vi name = Some v ->
            columns (initial_frame self vi)
              = columns (initial_frame self variables_initial) ->
            integrate_from post self vi t_final dt fuel = Some (Ok df) ->
            columns df =
              keys (variables self) ++
              filter (fun c => negb (mem c (keys (variables self))))
                     (keys variables_initial) /\
            In name (columns df) /\
            nth_error (column df name) 0 = Some (Some v) /\
            forall k c,
              nth_error (column df name) (S k) = Some c -> c = Some NaN).
  { intros post cell vi Hpost Hvi Hgi Hcols Hrun.
    destruct (integrate_from_first_row _ _ _ _ _ _ _ _ Hpost Hok Hvi Hrun)
      as [Hc [rest Hr]].
    assert (Hin : In name (columns df)).
    { rewrite Hc. apply initial_frame_has_key.
      now apply dict_get_Some_In with (v := v). }
    split; [now rewrite Hc, Hcols |]. split; [exact Hin |]. split.
    - unfold column. rewrite Hr. simpl.
      now rewrite (reindex_keeps _ _ _ _ Hin Hgi).
    - intros k c Hk. unfold column in Hk. rewrite nth_error_map in Hk.
      destruct (nth_error (rows df) (S k)) as [b|] eqn:Hb; [|discriminate].
      simpl in Hk. inversion Hk; subst c.
      destruct (nth_error (rows df) k) as [a|] eqn:Ha.
      2:{ apply nth_error_None in Ha.
          assert (Hlt : (S k < List.length (rows df))%nat)
            by (apply nth_error_Some; congruence).
          lia. }
      destruct (integrate_from_step_formula _ _ _ _ _ _ _ _
                  Hpost Hok Hvi Hrun k a b Ha Hb) as [_ [Hextra _]].
      now rewrite (Hextra name Hnot Hin). }
  destruct H as [H|H].
  - destruct (euler_integrate_unfold self variables_initial t_final dt fuel)
      as [vi [E [Hvi [_ [_ Hcols]]]]].
    pose proof (euler_integrate_dict_get _ _ _ _ _ _ _ E name Hnt) as Hsame.
    rewrite E in H. cbn [snd] in H.
    apply (Hgen _ _ vi post_row_id (Hvi Hv)); try assumption.
    + now rewrite Hsame.
    + apply Hcols, Hok.
  - apply (Hgen _ _ variables_initial (zero_below_row _) Hv Hg eq_refl H).
Qed.

Lemma unregistered_key_column_witness :
  exists df,
    snd (euler_integrate Example.model
           [("t", num 0); ("x", num 1); ("y", num 2); ("z", num 9)]
           (num 0.2) (num 0.1) 5) = Some (Ok df) /\
    columns df = ["t"; "x"; "y"; "z"] /\
    column df "z" = [Some (num 9); Some NaN; Some NaN] /\
    forall k c, nth_error (column df "z") (S k) = Some c -> c = Some NaN.
Proof.
  eexists. split; [vm_compute; reflexivity |].
  split; [reflexivity |]. split; [reflexivity |].
  apply (unregistered_key_column Example.model
           [("t", num 0); ("x", num 1); ("y", num 2); ("z", num 9)]
           (num 0.2) (num 0.1) 5 "z" (num 9)
           ltac:(split; [repeat constructor; simpl; intuition discriminate
                        | now left])
           ltac:(repeat constructor; simpl; intuition discriminate)
           ltac:(reflexivity)
           ltac:(simpl; intuition discriminate)).
  left. vm_compute. reflexivity.
Defined.

(* ================================================================== *)
(** ** The times of a trajectory, in closed form *)

(** The entries of column ['t'] of a frame [euler_integrate] returns. *)
Lemma euler_integrate_column_times self variables_initial t_final (t0 h : Q)
    fuel df :
  model_ok self ->
  default_time self ->
  NoDup (keys variables_initial) ->
  match dict_get variables_initial "t" with
  | Some v => v
  | None => num 0
  end = Num t0 ->
  snd (euler_integrate self variables_initial t_final (Num h) fuel)
    = Some (Ok df) ->
  forall k c,
    nth_error (column df "t") k = Some c ->
    exists x, c = Some (Num x) /\ (x == t0 + inject_Z (Z.of_nat k) * h)%Q.
Proof.
  intros Hok Hdef Hv Ht0 H.
  destruct (euler_integrate_unfold self variables_initial t_final (Num h) fuel)
    as [vi [E [Hvi [_ [Hget _]]]]].
  rewrite E in H. cbn [snd] in H. rewrite Ht0 in Hget.
  destruct (integrate_from_first_row _ _ _ _ _ _ _ _
              post_row_id Hok (Hvi Hv) H) as [Hc [rest Hr]].
  assert (Hin : In "t" (columns df)).
  { rewrite Hc. apply initial_frame_has_key.
    now apply dict_get_Some_In with (v := Num t0). }
  pose proof (dict_get_In_pair _ _ _ Hdef) as Htime.
  induction k as [|k IH]; intros c Hk; unfold column in Hk;
    rewrite nth_error_map in Hk.
  - rewrite Hr in Hk. simpl in Hk.
    rewrite (reindex_keeps _ _ _ _ Hin Hget) in Hk. inversion Hk; subst c.
    exists t0. split; [reflexivity |]. simpl. ring.
  - destruct (nth_error (rows df) (S k)) as [b|] eqn:Hb; [|discriminate].
    simpl in Hk. inversion Hk; subst c. clear Hk.
    destruct (nth_error (rows df) k) as [a|] eqn:Ha.
    2:{ apply nth_error_None in Ha.
        assert (Hlt : (S k < List.length (rows df))%nat)
          by (apply nth_error_Some; congruence).
        lia. }
    destruct (IH (dict_get a "t")) as [x [Hx Hxk]].
    { unfold column. now rewrite nth_error_map, Ha. }
    destruct (integrate_from_step_formula _ _ _ _ _ _ _ _
                post_row_id Hok (Hvi Hv) H k a b Ha Hb) as [Hf _].
    destruct (Hf "t" time_info Htime) as [x0 [d [Hx0 [Hd Hbt]]]].
    rewrite Hx in Hx0. inversion Hx0; subst x0.
    simpl in Hd. inversion Hd; subst d. simpl in Hbt.
    exists (Qred (x + Qred (1 * h))). split; [exact Hbt |].
    rewrite !Qred_correct, Hxk, inject_Z_S. ring.
Qed.

(** C4, where the arithmetic is exact (numbers given as [int] or
    [Fraction]).  With the default derivative of ['t'], a step size
    [h > 0] and a final time [tf] above the initial time [t0],
    [euler_integrate] is over after finitely many iterations.  The frame
    it returns is stepped from the initial time, row [k] having time
    [t0 + k * h], and the time of its last row lies in [[tf, tf + h)];
    and it does return a frame, rather than pass on an exception of a
    derivative function, when the derivative functions return on every
    snapshot over the frame's columns. *)
Theorem euler_integrate_terminates self variables_initial (t0 tf h : Q) :
  model_ok self ->
  default_time self ->
  NoDup (keys variables_initial) ->
  match dict_get variables_initial "t" with
  | Some v => v
  | None => num 0
  end = Num t0 ->
  (0 < h)%Q ->
  (t0 < tf)%Q ->
  exists fuel r,
    snd (euler_integrate self variables_initial (Num tf) (Num h) fuel)
      = Some r /\
    (forall df,
       r = Ok df ->
       (forall k row,
          nth_error (rows df) k = Some row ->
          exists x,
            dict_get row "t" = Some (Num x) /\
            (x == t0 + inject_Z (Z.of_nat k) * h)%Q) /\
       exists tl,
         last_value df "t" = Ok (Num tl) /\
         (tf <= tl)%Q /\ (tl < tf + h)%Q) /\
    ((forall s,
        keys s = columns (initial_frame self variables_initial) ->
        returns_on self s) ->
     exists df, r = Ok df).
Proof.
  intros Hok Hdef Hv Ht0 Hh Hlt.
  destruct (euler_integrate_ends self variables_initial t0 tf h
              Hok Hdef Hv Ht0 Hh Hlt) as [fuel [r [Hrun [Hlast Hret]]]].
  exists fuel, r. split; [exact Hrun |]. split; [| exact Hret].
  intros df ->. split; [| now apply Hlast].
  intros k row Hk.
  destruct (euler_integrate_column_times _ _ _ _ _ _ _ Hok Hdef Hv Ht0 Hrun
              k (dict_get row "t")) as [x [Hx Hxk]].
  - unfold column. now rewrite nth_error_map, Hk.
  - now exists x.
Qed.

Lemma euler_integrate_terminates_witness :
  exists fuel r,
    snd (euler_integrate Example.model
           [("t", num 0); ("x", num 1); ("y", num 2)]
           (Num 0.25) (Num 0.1) fuel) = Some r /\
    (forall df,
       r = Ok df ->
       (forall k row,
          nth_error (rows df) k = Some row ->
          exists x,
            dict_get row "t" = Some (Num x) /\
            (x == 0 + inject_Z (Z.of_nat k) * 0.1)%Q) /\
       exists tl,
         last_value df "t" = Ok (Num tl) /\
         (0.25 <= tl)%Q /\ (tl < 0.25 + 0.1)%Q) /\
    ((forall s,
        keys s = columns (initial_frame Example.model
                            [("t", num 0); ("x", num 1); ("y", num 2)]) ->
        returns_on Example.model s) ->
     exists df, r = Ok df).
Proof.
  apply (euler_integrate_terminates Example.model
           [("t", num 0); ("x", num 1); ("y", num 2)] 0%Q 0.25%Q 0.1%Q).
  - split; [repeat constructor; simpl; intuition discriminate | now left].
  - reflexivity.
  - repeat constructor; simpl; intuition discriminate.
  - reflexivity.
  - reflexivity.
  - reflexivity.
Defined.

(* ------------------------------------------------------------------ *)
(** *** The same loop in binary64 *)

Section Binary64Facts.

Import PrimFloat.

Lemma binary64_loop_stuck fuel :
  forall n,
    Binary64.euler_loop Binary64.init 2e16 0.5 fuel
      {| Binary64.columns := ["t"];
         Binary64.rows := repeat [("t", 1e16%float)] (S n) |} 1e16
    = None.
Proof.
  induction fuel as [|fuel IH]; intros n; [reflexivity |].
  assert (Hstep :
            Binary64.euler_step Binary64.init 0.5
              {| Binary64.columns := ["t"];
                 Binary64.rows := repeat [("t", 1e16%float)] (S n) |}
            = Ok ([("t", 1e16%float)], 1e16%float)).
  { unfold Binary64.euler_step, Binary64.iloc_last.
    cbn [Binary64.rows]. rewrite rev_repeat. reflexivity. }
  change (Binary64.euler_loop Binary64.init 2e16 0.5 (S fuel)
            {| Binary64.columns := ["t"];
               Binary64.rows := repeat [("t", 1e16%float)] (S n) |} 1e16)
    with (match Binary64.euler_step Binary64.init 0.5
                  {| Binary64.columns := ["t"];
                     Binary64.rows := repeat [("t", 1e16%float)] (S n) |}
          with
          | Raise e => Some (Raise e)
          | Ok (result_values, t') =>
              Binary64.euler_loop Binary64.init 2e16 0.5 fuel
                (Binary64.concat
                   {| Binary64.columns := ["t"];
                      Binary64.rows := repeat [("t", 1e16%float)] (S n) |}
                   (Binary64.DataFrame_row result_values)) t'
          end).
  rewrite Hstep.
  replace (Binary64.concat _ _)
    with {| Binary64.columns := ["t"];
            Binary64.rows := repeat [("t", 1e16%float)] (S (S n)) |};
    [apply IH |].
  unfold Binary64.concat, Binary64.DataFrame_row.
  cbn [Binary64.columns Binary64.rows]. f_equal.
  rewrite map_app, map_repeat.
  change (Binary64.reindex _ [("t", 1e16%float)]) with [("t", 1e16%float)].
  change (map _ [[("t", 1e16%float)]]) with [[("t", 1e16%float)]].
  now rewrite <- repeat_cons.
Qed.

(** C4 as the spec states it fails on binary64 input.  From [t = 1e16]
    with step size [0.5 > 0] and [t_final = 2e16 > t], on the model as
    [__init__] leaves it, the sum [t + 1 * 0.5] rounds back to [t]: the
    time never advances and no number of iterations ends
    [euler_integrate]. *)
Lemma euler_integrate_binary64_never_returns :
  ltb 0 0.5 = true /\
  ltb 1e16 2e16 = true /\
  add 1e16 (mul 1 0.5) = 1e16%float /\
  forall fuel,
    snd (Binary64.euler_integrate Binary64.init [("t", 1e16%float)]
           2e16 0.5 fuel) = None.
Proof.
  repeat (split; [reflexivity |]).
  intros fuel. exact (binary64_loop_stuck fuel 0).
Qed.

End Binary64Facts.

(** X12.  With the default derivative of ['t'], the [k]-th row of a frame
    [euler_integrate] returns has time [t0 + k * h], where [t0] is the
    initial time ([0] when the snapshot has none) and [h] the step
    size. *)
Theorem euler_integrate_times self variables_initial t_final (t0 h : Q)
    fuel df :
  model_ok self ->
  default_time self ->
  NoDup (keys variables_initial) ->
  match dict_get variables_initial "t" with
  | Some v => v
  | None => num 0
  end = Num t0 ->
  snd (euler_integrate self variables_initial t_final (Num h) fuel)
    = Some (Ok df) ->
  forall k row,
    nth_error (rows df) k = Some row ->
    exists x,
      dict_get row "t" = Some (Num x) /\
      (x == t0 + inject_Z (Z.of_nat k) * h)%Q.
Proof.
  intros Hok Hdef Hv Ht0 H k row Hk.
  destruct (euler_integrate_column_times _ _ _ _ _ _ _ Hok Hdef Hv Ht0 H
              k (dict_get row "t")) as [x [Hx Hxk]].
  - unfold column. now rewrite nth_error_map, Hk.
  - now exists x.
Qed.

Lemma euler_integrate_times_witness :
  exists df,
    snd (euler_integrate Example.model [("x", num 1); ("y", num 2)]
           (num 0.3) (Num 0.1) 5) = Some (Ok df) /\
    column df "t"
      = [Some (num 0); Some (num 0.1); Some (num 0.2); Some (num 0.3)] /\
    forall k row,
      nth_error (rows df) k = Some row ->
      exists x,
        dict_get row "t" = Some (Num x) /\
        (x == 0 + inject_Z (Z.of_nat k) * 0.1)%Q.
Proof.
  eexists. split; [vm_compute; reflexivity |]. split; [reflexivity |].
  apply (euler_integrate_times Example.model [("x", num 1); ("y", num 2)]
           (num 0.3) 0%Q 0.1%Q 5 _
           ltac:(split; [repeat constructor; simpl; intuition discriminate
                        | now left])
           ltac:(reflexivity)
           ltac:(repeat constructor; simpl; intuition discriminate)
           ltac:(reflexivity)
           ltac:(vm_compute; reflexivity)).
Defined.

Lemma Qceiling_unique (x : Q) (n : Z) :
  (inject_Z (n - 1) < x)%Q -> (x <= inject_Z n)%Q -> Qceiling x = n.
Proof.
  intros Hlo Hhi.
  pose proof (Qle_ceiling x) as Hc1. pose proof (Qceiling_lt x) as Hc2.
  assert (H1 : (inject_Z (n - 1) < inject_Z (Qceiling x))%Q)
    by (eapply Qlt_le_trans; eassumption).
  assert (H2 : (inject_Z (Qceiling x - 1) < inject_Z n)%Q)
    by (eapply Qlt_le_trans; eassumption).
  rewrite <- Zlt_Qlt in H1, H2. lia.
Qed.

(** X13.  With the default derivative of ['t'], a step size [h > 0] and a
    final time [tf] above the initial time [t0], every frame
    [euler_integrate] returns has exactly [1 + ceil ((tf - t0) / h)]
    rows. *)
Theorem euler_integrate_row_count self variables_initial (t0 tf h : Q)
    fuel df :
  model_ok self ->
  default_time self ->
  NoDup (keys variables_initial) ->
  match dict_get variables_initial "t" with
  | Some v => v
  | None => num 0
  end = Num t0 ->
  (0 < h)%Q ->
  (t0 < tf)%Q ->
  snd (euler_integrate self variables_initial (Num tf) (Num h) fuel)
    = Some (Ok df) ->
  List.length (rows df) = S (Z.to_nat (Qceiling ((tf - t0) / h))).
Proof.
  intros Hok Hdef Hv Ht0 Hh Hlt H.
  pose proof (euler_integrate_column_times _ _ _ _ _ _ _ Hok Hdef Hv Ht0 H)
    as Htimes.
  destruct (euler_integrate_unfold self variables_initial (Num tf) (Num h) fuel)
    as [vi [E [Hvi _]]].
  rewrite E in H. cbn [snd] in H.
  destruct Hok as [Hnd Ht].
  apply (integrate_from_rows _ _ post_row_id _ Hnd) in H;
    [| assumption | now apply Hvi].
  destruct H as [_ [_ [Hch [_ [t' [rs' [row' [Hr [Hl Hstop]]]]]]]]].
  assert (Hrowt : forall k row,
            nth_error (rows df) k = Some row ->
            exists x, dict_get row "t" = Some (Num x) /\
                      (x == t0 + inject_Z (Z.of_nat k) * h)%Q).
  { intros k row Hk. destruct (Htimes k (dict_get row "t")) as [x [Hx Hxk]].
    - unfold column. now rewrite nth_error_map, Hk.
    - now exists x. }
  set (n := List.length rs').
  assert (Hlen : List.length (rows df) = S n).
  { rewrite Hr, length_app. simpl. unfold n. lia. }
  assert (Hlast : nth_error (rows df) n = Some row').
  { rewrite Hr. unfold n. rewrite nth_error_app2 by lia.
    now rewrite Nat.sub_diag. }
  destruct (Hrowt n row' Hlast) as [xn [Hxn Hxnk]].
  assert (Ht' : t' = Num xn).
  { destruct Hl as [Hl|Hl]; rewrite Hxn in Hl; now inversion Hl. }
  subst t'. apply vltb_Num_false in Hstop.
  rewrite Hlen. f_equal.
  assert (Hn : (1 <= n)%nat).
  { destruct n as [|n']; [| lia]. exfalso.
    change (inject_Z (Z.of_nat 0)) with 0%Q in Hxnk. lra. }
  assert (Hprev : (t0 + inject_Z (Z.of_nat (n - 1)) * h < tf)%Q).
  { destruct (nth_error (rows df) (n - 1)) as [a|] eqn:Ha.
    2:{ apply nth_error_None in Ha. lia. }
    assert (Hb : nth_error (rows df) (S (n - 1)) = Some row').
    { now replace (S (n - 1)) with n by lia. }
    destruct (chain_nth _ _ Hch (n - 1)%nat a row' Ha Hb)
      as [t_a [_ [_ [Hla [Hlta _]]]]].
    destruct (Hrowt _ _ Ha) as [xa [Hxa Hxak]].
    assert (Hta : t_a = Num xa).
    { destruct Hla as [Hla|Hla]; rewrite Hxa in Hla; now inversion Hla. }
    subst t_a. apply vltb_Num in Hlta. now rewrite <- Hxak. }
  rewrite (Qceiling_unique ((tf - t0) / h) (Z.of_nat n)).
  - symmetry. apply Nat2Z.id.
  - apply Qlt_shift_div_l; [assumption |].
    replace (Z.of_nat n - 1)%Z with (Z.of_nat (n - 1)) by lia. lra.
  - apply Qle_shift_div_r; [assumption |]. lra.
Qed.

Lemma euler_integrate_row_count_witness :
  exists df,
    snd (euler_integrate Example.model
           [("t", num 0); ("x", num 1); ("y", num 2)]
           (Num 0.25) (Num 0.1) 7) = Some (Ok df) /\
    List.length (rows df) = 4%nat /\
    List.length (rows df) = S (Z.to_nat (Qceiling ((0.25 - 0) / 0.1))).
Proof.
  eexists. split; [vm_compute; reflexivity |]. split; [reflexivity |].
  apply (euler_integrate_row_count Example.model
           [("t", num 0); ("x", num 1); ("y", num 2)] 0%Q 0.25%Q 0.1%Q 7 _
           ltac:(split; [repeat constructor; simpl; intuition discriminate
                        | now left])
           ltac:(reflexivity)
           ltac:(repeat constructor; simpl; intuition discriminate)
           ltac:(reflexivity)
           ltac:(reflexivity)
           ltac:(reflexivity)
           ltac:(vm_compute; reflexivity)).
Defined.

(* ================================================================== *)
(** ** Runs that never return, and the clamped integrator's termination *)

(** One iteration of the loop, for either integrator: the new time is
    the last row's time plus the step, whatever the loop variable was. *)
Lemma euler_loop_step post cell self (t_final : value) (h : Q) fuel
    cols rs row (t : value) (r : Q) :
  (forall rv, post (DataFrame_row rv) = DataFrame_row (map_cells cell rv)) ->
  model_ok self ->
  default_time self ->
  frame_ok {| columns := cols; rows := rs ++ [row] |} ->
  incl (keys (variables self)) cols ->
  returns_on self row ->
  dict_get row "t" = Some (Num r) ->
  vltb t t_final = true ->
  exists row',
    euler_loop post self t_final (Num h) (S fuel)
      {| columns := cols; rows := rs ++ [row] |} t
    = euler_loop post self t_final (Num h) fuel
        {| columns := cols; rows := (rs ++ [row]) ++ [row'] |}
        (Num (Qred (r + Qred (1 * h)))) /\
    frame_ok {| columns := cols; rows := (rs ++ [row]) ++ [row'] |} /\
    dict_get row' "t" = Some (cell (Num (Qred (r + Qred (1 * h))))).
Proof.
  intros Hpost Hok Hdef Hdf Hincl Hret Hr Hlt.
  assert (Hkrow : keys row = cols).
  { destruct Hdf as [_ Hrows]. simpl in Hrows.
    apply Forall_app in Hrows. destruct Hrows as [_ Hrow].
    now inversion Hrow. }
  destruct (euler_step_returns self (Num h) cols rs row Hok Hret)
    as [rv [t' Es]]; [now rewrite Hkrow |].
  destruct Hok as [Hnd HtIn].
  destruct (euler_step_spec _ _ _ _ _ _ _ Hnd Es) as [Hk [Hrvt Hget]].
  pose proof (dict_get_In_pair _ _ _ Hdef) as Hin.
  destruct (Hget "t" time_info Hin) as [x0 [d [Hx0 [Hd Hrv]]]].
  rewrite Hr in Hx0. inversion Hx0; subst x0.
  simpl in Hd. inversion Hd; subst d. simpl in Hrv.
  rewrite Hrvt in Hrv. inversion Hrv; subst t'. clear Hrv.
  exists (reindex cols (map_cells cell rv)).
  rewrite euler_loop_S, Es, Hpost by assumption.
  assert (Hkin : incl (keys (map_cells cell rv))
                   (columns {| columns := cols; rows := rs ++ [row] |})).
  { simpl. now rewrite keys_map_cells, Hk. }
  pose proof (concat_row_ok _ _ Hdf Hkin) as Hdf'.
  rewrite (concat_row _ _ Hdf Hkin) in Hdf' |- *.
  simpl in Hdf' |- *.
  split; [reflexivity |]. split; [exact Hdf' |].
  rewrite dict_get_reindex, dict_get_map_cells, Hrvt by (now apply Hincl).
  reflexivity.
Qed.

Lemma euler_loop_never self (tf h : Q) :
  model_ok self ->
  default_time self ->
  (h <= 0)%Q ->
  forall fuel cols rs row t,
    frame_ok {| columns := cols; rows := rs ++ [row] |} ->
    incl (keys (variables self)) cols ->
    (forall s, keys s = cols -> returns_on self s) ->
    dict_get row "t" = Some (Num t) ->
    (t < tf)%Q ->
    euler_loop (fun df => df) self (Num tf) (Num h) fuel
      {| columns := cols; rows := rs ++ [row] |} (Num t) = None.
Proof.
  intros Hok Hdef Hh.
  induction fuel as [|fuel IH]; intros cols rs row t Hdf Hincl Hret Hr Hlt.
  - simpl. apply vltb_Num in Hlt. simpl in Hlt. now rewrite Hlt.
  - assert (Hkrow : keys row = cols).
    { destruct Hdf as [_ Hrows]. simpl in Hrows.
      apply Forall_app in Hrows. destruct Hrows as [_ Hrow].
      now inversion Hrow. }
    destruct (euler_loop_step _ _ self (Num tf) h fuel cols rs row (Num t) t
                post_row_id Hok Hdef Hdf Hincl (Hret row Hkrow) Hr)
      as [row' [E [Hdf' Hr']]]; [now apply vltb_Num |].
    rewrite E. apply IH; try assumption.
    rewrite !Qred_correct. lra.
Qed.

(** X14.  With a step size that is zero or negative, an initial time
    below [t_final] and derivative functions that return,
    [euler_integrate] never returns: the time does not advance, and no
    number of iterations ends the loop. *)
Theorem euler_integrate_never_returns self variables_initial (t0 tf h : Q) :
  model_ok self ->
  default_time self ->
  NoDup (keys variables_initial) ->
  (forall s,
     keys s = columns (initial_frame self variables_initial) ->
     returns_on self s) ->
  match dict_get variables_initial "t" with
  | Some v => v
  | None => num 0
  end = Num t0 ->
  (h <= 0)%Q ->
  (t0 < tf)%Q ->
  forall fuel,
    snd (euler_integrate self variables_initial (Num tf) (Num h) fuel) = None.
Proof.
  intros Hok Hdef Hv Hret Ht0 Hh Hlt fuel.
  destruct (euler_integrate_unfold self variables_initial (Num tf) (Num h) fuel)
    as [vi [E [Hvi [_ [Hget Hcols]]]]].
  rewrite E. cbn [snd]. clear E. rewrite Ht0 in Hget.
  pose proof Hok as [Hnd Ht]. specialize (Hcols Ht).
  assert (Hincl : incl (keys (variables self))
                       (columns (initial_frame self vi))).
  { rewrite initial_frame_columns. apply incl_appl, incl_refl. }
  unfold integrate_from.
  rewrite initial_frame_last_value, Hget by (now apply Hincl).
  pose proof (initial_frame_ok self vi Hnd (Hvi Hv)) as Hdf.
  pose proof (initial_frame_rows self vi) as Hrows.
  destruct (initial_frame self vi) as [cols rws]. simpl in *. subst rws.
  apply (euler_loop_never self tf h Hok Hdef Hh fuel cols []); try assumption.
  - intros s Hs. apply Hret. now rewrite <- Hcols.
  - rewrite dict_get_reindex, Hget by (now apply Hincl). reflexivity.
Qed.

Lemma euler_integrate_never_returns_witness :
  snd (euler_integrate Example.model
         [("t", num 0); ("x", num 1); ("y", num 2)]
         (Num 1) (Num 0) 40) = None.
Proof.
  apply (euler_integrate_never_returns Example.model
           [("t", num 0); ("x", num 1); ("y", num 2)] 0%Q 1%Q 0%Q).
  - split; [repeat constructor; simpl; intuition discriminate | now left].
  - reflexivity.
  - repeat constructor; simpl; intuition discriminate.
  - intros s Hs. apply example_returns_on_columns. exact Hs.
  - reflexivity.
  - discriminate.
  - reflexivity.
Defined.

Lemma keep_positive_loop_never self (tf h : Q) :
  model_ok self ->
  default_time self ->
  (0 < h)%Q -> (h < literal_1e_14)%Q -> (h < tf)%Q ->
  forall fuel cols rs row t r,
    frame_ok {| columns := cols; rows := rs ++ [row] |} ->
    incl (keys (variables self)) cols ->
    (forall s, keys s = cols -> returns_on self s) ->
    dict_get row "t" = Some (Num r) ->
    (r <= 0)%Q ->
    (t < tf)%Q ->
    euler_loop (zero_below (num literal_1e_14)) self (Num tf) (Num h) fuel
      {| columns := cols; rows := rs ++ [row] |} (Num t) = None.
Proof.
  intros Hok Hdef Hh Hsmall Htf.
  induction fuel as [|fuel IH]; intros cols rs row t r Hdf Hincl Hret Hr Hr0 Hlt.
  - simpl. apply vltb_Num in Hlt. simpl in Hlt. now rewrite Hlt.
  - assert (Hkrow : keys row = cols).
    { destruct Hdf as [_ Hrows]. simpl in Hrows.
      apply Forall_app in Hrows. destruct Hrows as [_ Hrow].
      now inversion Hrow. }
    destruct (euler_loop_step (zero_below (num literal_1e_14))
                (below_to_zero (num literal_1e_14)) self (Num tf) h fuel cols rs row
                (Num t) r
                (zero_below_row _) Hok Hdef Hdf Hincl (Hret row Hkrow) Hr)
      as [row' [E [Hdf' Hr']]]; [now apply vltb_Num |].
    rewrite E.
    assert (Hy : (Qred (r + Qred (1 * h)) == r + h)%Q).
    { rewrite !Qred_correct. ring. }
    rewrite below_to_zero_lt in Hr' by (rewrite Hy; lra).
    apply (IH cols (rs ++ [row]) row' _ 0%Q); try assumption.
    + lra.
    + rewrite Hy. lra.
Qed.

(** X15, in exact arithmetic.  Started at a time that is zero or
    negative, with a positive step size strictly below the literal
    [1e-14] (the binary64 number [6338253001141147 / 2^99]) and a final
    time beyond one step, [euler_integrate_keep_positive] never returns:
    each new time is below the literal, is recorded as [0], and the next
    step starts from [0] again. *)
Theorem keep_positive_never_returns self variables_initial (t0 tf h : Q) :
  model_ok self ->
  default_time self ->
  NoDup (keys variables_initial) ->
  (forall s,
     keys s = columns (initial_frame self variables_initial) ->
     returns_on self s) ->
  dict_get variables_initial "t" = Some (Num t0) ->
  (t0 <= 0)%Q ->
  (0 < h)%Q -> (h < literal_1e_14)%Q -> (h < tf)%Q ->
  forall fuel,
    euler_integrate_keep_positive self variables_initial (Num tf) (Num h) fuel
    = None.
Proof.
  intros Hok Hdef Hv Hret Hget Ht0 Hh Hsmall Htf fuel.
  pose proof Hok as [Hnd Ht].
  assert (Hincl : incl (keys (variables self))
                       (columns (initial_frame self variables_initial))).
  { rewrite initial_frame_columns. apply incl_appl, incl_refl. }
  unfold euler_integrate_keep_positive, integrate_from.
  rewrite initial_frame_last_value, Hget by (now apply Hincl).
  pose proof (initial_frame_ok self variables_initial Hnd Hv) as Hdf.
  pose proof (initial_frame_rows self variables_initial) as Hrows.
  destruct (initial_frame self variables_initial) as [cols rws].
  simpl in *. subst rws.
  apply (keep_positive_loop_never self tf h Hok Hdef Hh Hsmall Htf
           fuel cols [] _ t0 t0); try assumption.
  - rewrite dict_get_reindex, Hget by (now apply Hincl). reflexivity.
  - lra.
Qed.

Lemma keep_positive_never_returns_witness :
  euler_integrate_keep_positive Example.model
    [("t", num 0); ("x", num 1); ("y", num 2)]
    (Num 1) (Num 1e-15) 40 = None.
Proof.
  apply (keep_positive_never_returns Example.model
           [("t", num 0); ("x", num 1); ("y", num 2)] 0%Q 1%Q 1e-15%Q).
  - split; [repeat constructor; simpl; intuition discriminate | now left].
  - reflexivity.
  - repeat constructor; simpl; intuition discriminate.
  - intros s Hs. apply example_returns_on_columns. exact Hs.
  - reflexivity.
  - discriminate.
  - reflexivity.
  - reflexivity.
  - reflexivity.
Defined.

Lemma keep_positive_loop_returns self (tf h : Q) :
  model_ok self ->
  default_time self ->
  (0 < h)%Q ->
  forall m cols rs row t r,
    frame_ok {| columns := cols; rows := rs ++ [row] |} ->
    incl (keys (variables self)) cols ->
    (forall s, keys s = cols -> returns_on self s) ->
    dict_get row "t" = Some (Num r) ->
    (literal_1e_14 <= r + h)%Q ->
    (tf - r <= inject_Z (Z.of_nat m) * h)%Q ->
    exists df,
      euler_loop (zero_below (num literal_1e_14)) self (Num tf) (Num h) (S m)
        {| columns := cols; rows := rs ++ [row] |} (Num t) = Some (Ok df).
Proof.
  intros Hok Hdef Hh.
  assert (Hstep : forall fuel cols rs row t r,
            frame_ok {| columns := cols; rows := rs ++ [row] |} ->
            incl (keys (variables self)) cols ->
            (forall s, keys s = cols -> returns_on self s) ->
            dict_get row "t" = Some (Num r) ->
            (literal_1e_14 <= r + h)%Q ->
            vltb (Num t) (Num tf) = true ->
            exists row' r',
              euler_loop (zero_below (num literal_1e_14)) self (Num tf) (Num h)
                (S fuel) {| columns := cols; rows := rs ++ [row] |} (Num t)
              = euler_loop (zero_below (num literal_1e_14)) self (Num tf) (Num h)
                  fuel {| columns := cols; rows := (rs ++ [row]) ++ [row'] |}
                  (Num r') /\
              frame_ok {| columns := cols; rows := (rs ++ [row]) ++ [row'] |} /\
              dict_get row' "t" = Some (Num r') /\
              (r' == r + h)%Q).
  { intros fuel cols rs row t r Hdf Hincl Hret Hr Hbig Hc.
    assert (Hkrow : keys row = cols).
    { destruct Hdf as [_ Hrows]. simpl in Hrows.
      apply Forall_app in Hrows. destruct Hrows as [_ Hrow].
      now inversion Hrow. }
    destruct (euler_loop_step (zero_below (num literal_1e_14))
                (below_to_zero (num literal_1e_14)) self (Num tf) h fuel
                cols rs row (Num t) r
                (zero_below_row _) Hok Hdef Hdf Hincl (Hret row Hkrow) Hr Hc)
      as [row' [E [Hdf' Hr']]].
    assert (Hy : (Qred (r + Qred (1 * h)) == r + h)%Q)
      by (rewrite !Qred_correct; ring).
    rewrite below_to_zero_ge in Hr' by (rewrite Hy; lra).
    exists row', (Qred (r + Qred (1 * h))). auto. }
  induction m as [|m IH]; intros cols rs row t r Hdf Hincl Hret Hr Hbig Hm.
  - destruct (vltb (Num t) (Num tf)) eqn:Hc;
      [| eexists; now apply euler_loop_done].
    destruct (Hstep 0%nat cols rs row t r Hdf Hincl Hret Hr Hbig Hc)
      as [row' [r' [E [Hdf' [Hr' Hy]]]]].
    rewrite E. eexists. apply euler_loop_done. apply vltb_Num_false.
    change (inject_Z (Z.of_nat 0)) with 0%Q in Hm. rewrite Hy. lra.
  - destruct (vltb (Num t) (Num tf)) eqn:Hc;
      [| eexists; now apply euler_loop_done].
    destruct (Hstep (S m) cols rs row t r Hdf Hincl Hret Hr Hbig Hc)
      as [row' [r' [E [Hdf' [Hr' Hy]]]]].
    rewrite E.
    apply (IH cols (rs ++ [row]) row' r' r'); try assumption.
    + rewrite Hy. lra.
    + rewrite Hy. rewrite inject_Z_S in Hm. lra.
Qed.

(** X16, in exact arithmetic (numbers given as [int] or [Fraction]).
    With the default derivative of ['t'], derivative functions that
    return, a numeric initial time and a step size of at least the
    literal [1e-14] (the binary64 number [6338253001141147 / 2^99]),
    [euler_integrate_keep_positive] returns a frame after finitely many
    iterations. *)
Theorem keep_positive_terminates self variables_initial (t0 tf h : Q) :
  model_ok self ->
  default_time self ->
  NoDup (keys variables_initial) ->
  (forall s,
     keys s = columns (initial_frame self variables_initial) ->
     returns_on self s) ->
  dict_get variables_initial "t" = Some (Num t0) ->
  (literal_1e_14 <= h)%Q ->
  exists fuel df,
    euler_integrate_keep_positive self variables_initial (Num tf) (Num h) fuel
    = Some (Ok df).
Proof.
  intros Hok Hdef Hv Hret Hget Hh.
  assert (Hpos : (0 < h)%Q)
    by (apply Qlt_le_trans with literal_1e_14; [reflexivity | assumption]).
  pose proof Hok as [Hnd Ht].
  assert (Hincl : incl (keys (variables self))
                       (columns (initial_frame self variables_initial))).
  { rewrite initial_frame_columns. apply incl_appl, incl_refl. }
  unfold euler_integrate_keep_positive, integrate_from.
  rewrite initial_frame_last_value, Hget by (now apply Hincl).
  pose proof (initial_frame_ok self variables_initial Hnd Hv) as Hdf.
  pose proof (initial_frame_rows self variables_initial) as Hrows.
  destruct (initial_frame self variables_initial) as [cols rws].
  simpl in *. subst rws.
  set (row0 := reindex cols variables_initial) in *.
  assert (Hr0 : dict_get row0 "t" = Some (Num t0)).
  { unfold row0. rewrite dict_get_reindex, Hget by (now apply Hincl).
    reflexivity. }
  destruct (Qlt_le_dec (t0 + h) literal_1e_14) as [Hlow|Hhigh].
  - destruct (vltb (Num t0) (Num tf)) eqn:Hc.
    2:{ exists 0%nat. eexists. now apply euler_loop_done. }
    set (m := Z.to_nat (Qceiling ((tf - 0) / h))).
    exists (S (S m)).
    destruct (euler_loop_step (zero_below (num literal_1e_14))
                (below_to_zero (num literal_1e_14)) self (Num tf) h (S m)
                cols [] row0 (Num t0) t0
                (zero_below_row _) Hok Hdef Hdf Hincl
                (Hret row0 (keys_reindex _ _)) Hr0 Hc)
      as [row' [E [Hdf' Hr']]].
    simpl app in E. rewrite E.
    assert (Hy : (Qred (t0 + Qred (1 * h)) == t0 + h)%Q)
      by (rewrite !Qred_correct; ring).
    rewrite below_to_zero_lt in Hr' by (rewrite Hy; lra).
    apply (keep_positive_loop_returns self tf h Hok Hdef Hpos m cols
             ([] ++ [row0]) row' _ 0%Q); try assumption.
    + lra.
    + apply steps_enough. assumption.
  - set (m := Z.to_nat (Qceiling ((tf - t0) / h))).
    exists (S m).
    apply (keep_positive_loop_returns self tf h Hok Hdef Hpos m cols
             [] row0 t0 t0); try assumption.
    now apply steps_enough.
Qed.

Lemma keep_positive_terminates_witness :
  exists fuel df,
    euler_integrate_keep_positive Example.model
      [("t", num (-1)); ("x", num 1); ("y", num 2)]
      (Num 0.25) (Num 0.1) fuel = Some (Ok df).
Proof.
  apply (keep_positive_terminates Example.model
           [("t", num (-1)); ("x", num 1); ("y", num 2)] (-1)%Q 0.25%Q 0.1%Q).
  - split; [repeat constructor; simpl; intuition discriminate | now left].
  - reflexivity.
  - repeat constructor; simpl; intuition discriminate.
  - intros s Hs. apply example_returns_on_columns. exact Hs.
  - reflexivity.
  - discriminate.
Defined.

(** The run of that witness: the time recorded after the first step is
    [0], not [-0.9], and the trajectory goes on from [0]. *)
Example keep_positive_negative_start :
  exists df,
    euler_integrate_keep_positive Example.model
      [("t", num (-1)); ("x", num 1); ("y", num 2)]
      (Num 0.25) (Num 0.1) 10 = Some (Ok df) /\
    column df "t"
      = [Some (num (-1)); Some (num 0); Some (num 0.1); Some (num 0.2);
         Some (num 0.3)].
Proof.
  eexists. split; [vm_compute; reflexivity | reflexivity].
Qed.

(* ================================================================== *)
(** ** Where the two integrators agree *)

Lemma map_cells_fix cell row :
  (forall k v, In (k, v) row -> cell v = v) -> map_cells cell row = row.
Proof.
  intros H. unfold map_cells. rewrite <- (map_id row) at 2.
  apply map_ext_in. intros [k v] Hin. simpl. now rewrite (H k v Hin).
Qed.

(** The loop only appends. *)
Lemma euler_loop_prefix post cell self t_final dt :
  (forall rv, post (DataFrame_row rv) = DataFrame_row (map_cells cell rv)) ->
  NoDup (keys (variables self)) ->
  forall fuel df0 t df,
    frame_ok df0 ->
    incl (keys (variables self)) (columns df0) ->
    rows df0 <> [] ->
    euler_loop post self t_final dt fuel df0 t = Some (Ok df) ->
    exists extra, rows df = rows df0 ++ extra.
Proof.
  intros Hpost Hnd.
  induction fuel as [|fuel IH]; intros df0 t df Hok Hincl Hne H;
    simpl in H; destruct (vltb t t_final); try discriminate;
    try (inversion H; subst; exists []; now rewrite app_nil_r).
  destruct (euler_step self dt df0) as [[rv t']|e] eqn:Es; [|discriminate].
  destruct df0 as [cols rws]. simpl in *.
  destruct (exists_last Hne) as [rs [row ->]].
  destruct (euler_step_spec _ _ _ _ _ _ _ Hnd Es) as [Hk _].
  rewrite Hpost in H.
  assert (Hin : incl (keys (map_cells cell rv))
                  (columns {| columns := cols; rows := rs ++ [row] |})).
  { simpl. now rewrite keys_map_cells, Hk. }
  pose proof (concat_row_ok _ _ Hok Hin) as Hok2.
  rewrite (concat_row _ _ Hok Hin) in H, Hok2. simpl in H, Hok2.
  apply IH in H; try assumption.
  - destruct H as [extra He]. simpl in He.
    exists (reindex cols (map_cells cell rv) :: extra).
    now rewrite He, <- app_assoc.
  - simpl. intros E. now apply app_eq_nil in E as [_ E].
Qed.

Lemma euler_loop_agree self t_final dt :
  NoDup (keys (variables self)) ->
  forall fuel df0 t df,
    frame_ok df0 ->
    incl (keys (variables self)) (columns df0) ->
    rows df0 <> [] ->
    euler_loop (fun df => df) self t_final dt fuel df0 t = Some (Ok df) ->
    (forall k b name v,
       (List.length (rows df0) <= k)%nat ->
       nth_error (rows df) k = Some b ->
       In name (keys (variables self)) ->
       dict_get b name = Some v ->
       vltb v (num literal_1e_14) = false) ->
    euler_loop (zero_below (num literal_1e_14)) self t_final dt fuel df0 t
    = Some (Ok df).
Proof.
  intros Hnd.
  induction fuel as [|fuel IH]; intros df0 t df Hok Hincl Hne H Hbig;
    simpl in H |- *; destruct (vltb t t_final); try discriminate;
    try exact H.
  destruct (euler_step self dt df0) as [[rv t']|e] eqn:Es; [|discriminate].
  destruct df0 as [cols rws]. simpl in Hincl, Hne, Hbig.
  destruct (exists_last Hne) as [rs [row ->]].
  destruct (euler_step_spec _ _ _ _ _ _ _ Hnd Es) as [Hk _].
  assert (Hin : incl (keys rv)
                  (columns {| columns := cols; rows := rs ++ [row] |})).
  { simpl. now rewrite Hk. }
  pose proof (concat_row_ok _ _ Hok Hin) as Hok2.
  rewrite (concat_row _ _ Hok Hin) in H, Hok2. simpl in H, Hok2.
  assert (Hne2 : (rs ++ [row]) ++ [reindex cols rv] <> []).
  { intros E. now apply app_eq_nil in E as [_ E]. }
  destruct (euler_loop_prefix _ _ self t_final dt post_row_id Hnd
              fuel _ _ _ Hok2 Hincl Hne2 H) as [extra He].
  simpl in He.
  assert (Hfix : map_cells (below_to_zero (num literal_1e_14)) rv = rv).
  { apply map_cells_fix. intros k v Hkv.
    assert (Hget : dict_get rv k = Some v).
    { apply dict_get_pair; [now rewrite Hk | assumption]. }
    assert (Hkin : In k (keys (variables self))).
    { rewrite <- Hk. now apply dict_get_Some_In with (v := v). }
    unfold below_to_zero.
    rewrite (Hbig (List.length (rs ++ [row])) (reindex cols rv) k v);
      [reflexivity | lia | | assumption |].
    - rewrite He, <- app_assoc. simpl.
      rewrite nth_error_app2 by lia. now rewrite Nat.sub_diag.
    - apply reindex_keeps; [now apply Hincl | assumption]. }
  rewrite zero_below_row, Hfix.
  rewrite (concat_row _ _ Hok Hin). simpl.
  apply IH; try assumption.
  intros k b name v Hk' Hb Hname Hg.
  apply (Hbig k b name v); try assumption.
  simpl in Hk'. rewrite length_app in Hk'. simpl in Hk'. lia.
Qed.

(** X17.  On an initial snapshot that has ['t'], whenever
    [euler_integrate] returns a frame in which no registered variable
    falls below the literal [1e-14] (nor is [nan]) after the first row,
    [euler_integrate_keep_positive] returns the same frame. *)
Theorem keep_positive_agrees self variables_initial t_final dt fuel df :
  model_ok self ->
  NoDup (keys variables_initial) ->
  contains "t" variables_initial = true ->
  snd (euler_integrate self variables_initial t_final dt fuel)
    = Some (Ok df) ->
  (forall k b name v,
     nth_error (rows df) (S k) = Some b ->
     In name (keys (variables self)) ->
     dict_get b name = Some v ->
     vltb v (num literal_1e_14) = false) ->
  euler_integrate_keep_positive self variables_initial t_final dt fuel
  = Some (Ok df).
Proof.
  intros [Hnd Ht] Hv Hc H Hbig.
  unfold euler_integrate in H. rewrite Hc in H. simpl in H.
  unfold euler_integrate_keep_positive, integrate_from in *.
  destruct (last_value (initial_frame self variables_initial) "t")
    as [t|e]; [| exact H].
  apply euler_loop_agree; try assumption.
  - now apply initial_frame_ok.
  - rewrite initial_frame_columns. apply incl_appl, incl_refl.
  - rewrite initial_frame_rows. discriminate.
  - intros k b name v Hk Hb Hname Hg.
    rewrite initial_frame_rows in Hk. simpl in Hk.
    destruct k as [|k]; [lia |]. now apply (Hbig k b name v).
Qed.

Lemma keep_positive_agrees_witness :
  let grow : dict value -> dict value -> result value :=
    fun variables _ => getitem variables "x" in
  let self := ModelBase.add_variable ModelBase.init "x" grow [] in
  let variables_initial := [("t", num 1); ("x", num 1)] in
  exists df,
    snd (euler_integrate self variables_initial (num 2) (num 0.5) 5)
      = Some (Ok df) /\
    column df "x" = [Some (num 1); Some (num 1.5); Some (num 2.25)] /\
    euler_integrate_keep_positive self variables_initial (num 2) (num 0.5) 5
      = Some (Ok df).
Proof.
  eexists. split; [vm_compute; reflexivity |]. split; [reflexivity |].
  apply (keep_positive_agrees
           (ModelBase.add_variable ModelBase.init "x"
              (fun variables _ => getitem variables "x") [])
           [("t", num 1); ("x", num 1)] (num 2) (num 0.5) 5).
  - split; [repeat constructor; simpl; intuition discriminate | now left].
  - repeat constructor; simpl; intuition discriminate.
  - reflexivity.
  - vm_compute. reflexivity.
  - intros [|[|k]] b name v Hb Hname Hg;
      [| | destruct k; discriminate];
      vm_compute in Hb; inversion Hb; subst b;
      destruct Hname as [<-|[<-|[]]];
      vm_compute in Hg; inversion Hg; reflexivity.
Defined.

(* ================================================================== *)
(** ** More on the grid sampler *)

Lemma of_nat_Num k : exists q, of_nat k = Num q /\ (q == inject_Z (Z.of_nat k))%Q.
Proof.
  exists (Qred (inject_Z (Z.of_nat k))). split; [reflexivity |].
  apply Qred_correct.
Qed.






Lemma create_meshgrid_derivatives_returns_witness :
  exists Xv Hv Xdot Ydot,
    create_meshgrid_derivatives (fun _ _ => NaN) (fun _ _ => NaN)
      Example.model2D 2 2 (num 0, num 1) (num 0, num 2) (num 0)
      = Ok (Xv, Hv, Xdot, Ydot) /\
    has_shape Xv 2 2 /\ has_shape Hv 2 2 /\
    has_shape Xdot 2 2 /\ has_shape Ydot 2 2 /\
    ((1 <= 2)%nat -> (1 <= 2)%nat -> 2%nat = 2%nat) /\
    forall i j,
      (i < 2)%nat -> (j < 2)%nat ->
      sampled Example.model2D (num 0) Xv Hv (Xdot, Ydot) i j.
Proof.
  do 4 eexists. split; [vm_compute; reflexivity |].
  apply (create_meshgrid_derivatives_returns (fun _ _ => NaN)
           (fun _ _ => NaN) Example.model2D 2 2 (num 0, num 1)
           (num 0, num 2) (num 0)).
  vm_compute. reflexivity.
Defined.

Lemma getitem2_in a r c i j :
  has_shape a r c -> (i < r)%nat -> (j < c)%nat ->
  exists v, getitem2 a i j = Ok v.
Proof.
  intros [Hlen Hrows] Hi Hj. unfold getitem2.
  destruct (nth_error a i) as [row|] eqn:Ei.
  2:{ apply nth_error_None in Ei. lia. }
  rewrite Forall_forall in Hrows.
  pose proof (Hrows row (nth_error_In _ _ Ei)) as Hr.
  destruct (nth_error row j) as [v|] eqn:Ej.
  - now exists v.
  - apply nth_error_None in Ej. lia.
Qed.

Lemma set_nth_in {A : Type} (l : list A) :
  forall n x, (n < List.length l)%nat -> exists l', set_nth l n x = Some l'.
Proof.
  induction l as [|y l IH]; intros n x Hn; simpl in Hn; [lia |].
  destruct n as [|n]; simpl.
  - now eexists.
  - destruct (IH n x) as [l' ->]; [lia |]. now eexists.
Qed.

Lemma setitem2_in a r c i j v :
  has_shape a r c -> (i < r)%nat -> (j < c)%nat ->
  exists a', setitem2 a i j v = Ok a'.
Proof.
  intros [Hlen Hrows] Hi Hj. unfold setitem2.
  destruct (nth_error a i) as [row|] eqn:Ei.
  2:{ apply nth_error_None in Ei. lia. }
  rewrite Forall_forall in Hrows.
  pose proof (Hrows row (nth_error_In _ _ Ei)) as Hr.
  destruct (set_nth_in row j v) as [row' ->]; [lia |].
  destruct (set_nth_in a i row') as [a' ->]; [lia |].
  now exists a'.
Qed.

(** The snapshot the sampler evaluates at a grid point. *)
Definition grid_snapshot (self : DynamicModel2D) (t x y : value)
    : dict value :=
  dict_set (dict_set (dict_set [] "t" t) (variable_x self) x)
           (variable_y self) y.

Lemma sample_point_returns self t Xv Hv r c i j dots :
  NoDup (keys (variables (base self))) ->
  In (variable_x self) (keys (variables (base self))) ->
  In (variable_y self) (keys (variables (base self))) ->
  (forall x y, returns_on (base self) (grid_snapshot self t x y)) ->
  has_shape Xv r c -> has_shape Hv r c -> shapes dots r c ->
  (i < r)%nat -> (j < c)%nat ->
  exists dots', sample_point self t Xv Hv i j dots = Ok dots'.
Proof.
  intros Hnd HX HY Hret HsX HsH [HdX HdY] Hi Hj. unfold sample_point.
  destruct (getitem2_in _ _ _ _ _ HsX Hi Hj) as [x ->].
  destruct (getitem2_in _ _ _ _ _ HsH Hi Hj) as [y ->]. cbn [bind].
  destruct (compute_derivative_returns _ _ (Hret x y)) as [d Hd].
  unfold grid_snapshot in Hd. rewrite Hd. cbn [bind].
  pose proof (compute_derivative_keys _ _ _ Hnd Hd) as Hk.
  destruct (dict_get_In d (variable_y self)) as [dy Hdy]; [now rewrite Hk |].
  destruct (dict_get_In d (variable_x self)) as [dx Hdx]; [now rewrite Hk |].
  unfold getitem. rewrite Hdy. cbn [bind].
  destruct (setitem2_in _ _ _ _ _ dy HdY Hi Hj) as [Yd ->]. cbn [bind].
  rewrite Hdx. cbn [bind].
  destruct (setitem2_in _ _ _ _ _ dx HdX Hi Hj) as [Xd ->]. cbn [bind].
  now eexists.
Qed.

Lemma sample_rows_returns self t Xv Hv r c range_X range_Y :
  NoDup (keys (variables (base self))) ->
  In (variable_x self) (keys (variables (base self))) ->
  In (variable_y self) (keys (variables (base self))) ->
  (forall x y, returns_on (base self) (grid_snapshot self t x y)) ->
  has_shape Xv r c -> has_shape Hv r c ->
  (forall i j, In i range_X -> In j range_Y -> (i < r)%nat /\ (j < c)%nat) ->
  forall dots,
    shapes dots r c ->
    exists dots', sample_rows self t Xv Hv range_X range_Y dots = Ok dots'.
Proof.
  intros Hnd HX HY Hret HsX HsH.
  assert (Hrow : forall i js,
            (forall j, In j js -> (i < r)%nat /\ (j < c)%nat) ->
            forall dots, shapes dots r c ->
            exists dots', sample_row self t Xv Hv i js dots = Ok dots').
  { intros i. induction js as [|j js IH]; intros Hin dots Hd; simpl.
    - now exists dots.
    - destruct (Hin j (or_introl eq_refl)) as [Hi Hj].
      destruct (sample_point_returns self t Xv Hv r c i j dots
                  Hnd HX HY Hret HsX HsH Hd Hi Hj) as [dots1 E].
      rewrite E. simpl.
      apply IH; [intros j' Hj'; apply Hin; now right |].
      destruct (sample_point_spec _ _ _ _ _ _ _ _ E) as [_ [_ Hsh]].
      now apply Hsh. }
  induction range_X as [|i range_X IH]; intros Hin dots Hd; simpl.
  - now exists dots.
  - destruct (Hrow i range_Y) with (dots := dots) as [dots1 E];
      [intros j Hj; apply Hin; [now left | assumption] | assumption |].
    rewrite E. simpl.
    apply IH; [intros i' j' Hi' Hj'; apply Hin; [now right | assumption] |].
    destruct (sample_row_spec _ _ _ _ _ _ _ _ E) as [_ [_ Hsh]].
    now apply Hsh.
Qed.

(** X20.  For a model whose derivative functions return on every grid
    snapshot, the sampler returns exactly when the grid is square or has
    no points ([n_X = n_Y], [n_X = 0] or [n_Y = 0]); on every other grid
    it raises. *)
Theorem create_meshgrid_derivatives_returns_iff
    garbage_x garbage_y self n_X n_Y Xlim Ylim t :
  NoDup (keys (variables (base self))) ->
  In (variable_x self) (keys (variables (base self))) ->
  In (variable_y self) (keys (variables (base self))) ->
  (forall x y, returns_on (base self) (grid_snapshot self t x y)) ->
  (exists arrays,
     create_meshgrid_derivatives garbage_x garbage_y self n_X n_Y Xlim Ylim t
     = Ok arrays)
  <-> (n_X = n_Y \/ n_X = 0%nat \/ n_Y = 0%nat).
Proof.
  intros Hnd HX HY Hret. split.
  - intros [arrays H].
    destruct (Nat.eq_dec n_X n_Y) as [E|Hne]; [now left |].
    destruct n_X as [|n_X]; [right; now left |].
    destruct n_Y as [|n_Y]; [right; now right |].
    destruct (create_meshgrid_derivatives_not_square garbage_x garbage_y
                self (S n_X) (S n_Y) Xlim Ylim t) as [e He]; try lia.
    congruence.
  - intros Hgrid. unfold create_meshgrid_derivatives.
    pose proof (meshgrid_shape (linspace (fst Xlim) (snd Xlim) n_X)
                               (linspace (fst Ylim) (snd Ylim) n_Y)) as Hm.
    rewrite !length_linspace in Hm.
    destruct (meshgrid _ _) as [Xv Hv]. simpl in Hm.
    destruct Hm as [HsX HsH].
    destruct (sample_rows_returns self t Xv Hv n_Y n_X
                (seq 0 n_X) (seq 0 n_Y) Hnd HX HY Hret HsX HsH)
      with (dots := (empty_like garbage_x Xv, empty_like garbage_y Hv))
      as [dots E].
    + intros i j Hi Hj. apply in_seq in Hi, Hj. lia.
    + split; simpl; now apply empty_like_shape.
    + rewrite E. simpl. now eexists.
Qed.

Lemma example2D_returns_on t x y :
  returns_on (base Example.model2D) (grid_snapshot Example.model2D t x y).
Proof.
  intros name info [E|[E|[E|[]]]]; inversion E; subst; eexists; reflexivity.
Qed.

Lemma create_meshgrid_derivatives_returns_iff_witness :
  (exists arrays,
     create_meshgrid_derivatives (fun _ _ => NaN) (fun _ _ => NaN)
       Example.model2D 3 2 (num 0, num 1) (num 0, num 2) (num 0)
     = Ok arrays)
  <-> (3%nat = 2%nat \/ 3%nat = 0%nat \/ 2%nat = 0%nat).
Proof.
  apply (create_meshgrid_derivatives_returns_iff (fun _ _ => NaN)
           (fun _ _ => NaN) Example.model2D 3 2 (num 0, num 1)
           (num 0, num 2) (num 0)).
  - repeat constructor; simpl; intuition discriminate.
  - simpl. tauto.
  - simpl. tauto.
  - intros x y name info [E|[E|[E|[]]]]; inversion E; subst; eexists;
      reflexivity.
Defined.

(* ================================================================== *)
(** ** Nullclines and the plotting methods *)

Import Rendering.

(** A registration: the arguments of one [add_nullcline] call. *)
Definition registration : Type :=
  string * (value -> dict value -> result value) * dict value * bool.

Definition registered_name (r : registration) : string :=
  fst (fst (fst r)).

Definition registered_curve (r : registration) : nullcline :=
  {| nullcline_function := snd (fst (fst r));
     nullcline_parameters := snd (fst r);
     y_fun_x := snd r |}.

(** The model after a sequence of [add_nullcline] calls. *)
Definition add_nullclines (self : DynamicModel2D) (rs : list registration)
    : DynamicModel2D :=
  fold_left
    (fun s r =>
       add_nullcline s (registered_name r)
         (nullcline_function (registered_curve r))
         (nullcline_parameters (registered_curve r))
         (y_fun_x (registered_curve r)))
    rs self.

(** The curves registered for [variable], in the order of the calls. *)
Definition curves_for (variable : string) (rs : list registration)
    : list nullcline :=
  map registered_curve
      (filter (fun r => String.eqb (registered_name r) variable) rs).

Lemma add_nullcline_get self name f p b variable :
  dict_get (nullclines (add_nullcline self name f p b)) variable =
  if String.eqb variable name
  then Some (match dict_get (nullclines self) name with
             | Some l => l ++ [{| nullcline_function := f;
                                  nullcline_parameters := p;
                                  y_fun_x := b |}]
             | None => [{| nullcline_function := f;
                           nullcline_parameters := p;
                           y_fun_x := b |}]
             end)
  else dict_get (nullclines self) variable.
Proof.
  unfold add_nullcline. cbn [nullclines].
  destruct (String.eqb_spec variable name) as [->|Hne].
  - destruct (dict_get (nullclines self) name); apply dict_get_set_same.
  - destruct (dict_get (nullclines self) name);
      now apply dict_get_set_other.
Qed.

Lemma add_nullclines_cons self r rs :
  add_nullclines self (r :: rs) =
  add_nullclines
    (add_nullcline self (registered_name r)
       (nullcline_function (registered_curve r))
       (nullcline_parameters (registered_curve r))
       (y_fun_x (registered_curve r))) rs.
Proof. reflexivity. Qed.

Lemma add_nullclines_lookup rs :
  forall self variable,
    dict_get (nullclines (add_nullclines self rs)) variable =
    match dict_get (nullclines self) variable with
    | Some l => Some (l ++ curves_for variable rs)
    | None =>
        match curves_for variable rs with
        | [] => None
        | c :: l => Some (c :: l)
        end
    end.
Proof.
  induction rs as [|r rs IH]; intros self variable.
  - simpl. destruct (dict_get (nullclines self) variable);
      [now rewrite app_nil_r | reflexivity].
  - rewrite add_nullclines_cons, IH, add_nullcline_get.
    unfold curves_for. cbn [filter].
    rewrite (String.eqb_sym variable (registered_name r)).
    destruct (String.eqb_spec (registered_name r) variable) as [E|Hne].
    + subst variable. cbn [map].
      change {| nullcline_function := nullcline_function (registered_curve r);
                nullcline_parameters :=
                  nullcline_parameters (registered_curve r);
                y_fun_x := y_fun_x (registered_curve r) |}
        with (registered_curve r).
      destruct (dict_get (nullclines self) (registered_name r)) as [l|].
      * now rewrite <- app_assoc.
      * reflexivity.
    + reflexivity.
Qed.

Lemma curves_for_nil variable rs :
  curves_for variable rs = [] <-> ~ In variable (map registered_name rs).
Proof.
  unfold curves_for. induction rs as [|r rs IH]; simpl; [tauto |].
  destruct (String.eqb_spec (registered_name r) variable) as [E|Hne]; simpl.
  - split; [discriminate | intros H; exfalso; apply H; now left].
  - rewrite IH. tauto.
Qed.

(** X21.  On a 2D model as constructed and then given any sequence of
    [add_nullcline] calls, the curves held for a variable are those
    registered under its name, in the order of the calls; and
    [plot_nullclines] for a variable that no call named raises
    [KeyError] with nothing drawn. *)
Theorem plot_nullclines_unregistered x fx px y fy py rs variable :
  let self := add_nullclines (DynamicModel2D_Base.init x fx px y fy py) rs in
  (In variable (map registered_name rs) ->
   dict_get (nullclines self) variable = Some (curves_for variable rs) /\
   curves_for variable rs <> []) /\
  (~ In variable (map registered_name rs) ->
   forall xlim ylim ax color,
     plot_nullclines self variable xlim ylim ax color
     = (subplots_unless ax, Raise (KeyError variable))).
Proof.
  intros self.
  assert (H : dict_get (nullclines self) variable =
              match curves_for variable rs with
              | [] => None
              | c :: l => Some (c :: l)
              end).
  { unfold self. now rewrite add_nullclines_lookup. }
  split.
  - intros Hin. destruct (curves_for variable rs) as [|c l] eqn:E.
    + apply curves_for_nil in E. contradiction.
    + split; [exact H | discriminate].
  - intros Hnot xlim ylim ax color.
    apply curves_for_nil in Hnot. rewrite Hnot in H.
    unfold plot_nullclines. now rewrite H.
Qed.

Lemma plot_nullclines_unregistered_witness :
  let f1 : value -> dict value -> result value := fun v _ => Ok v in
  let f2 : value -> dict value -> result value := fun v _ => Ok (vneg v) in
  let rs : list registration :=
    [("x", f1, [], true); ("y", f1, [], true); ("x", f2, [], false)] in
  let self := add_nullclines Example.model2D rs in
  dict_get (nullclines self) "x"
    = Some [{| nullcline_function := f1; nullcline_parameters := [];
               y_fun_x := true |};
            {| nullcline_function := f2; nullcline_parameters := [];
               y_fun_x := false |}] /\
  plot_nullclines self "t" (num 0, num 1) (num 0, num 1) None None
    = ([], Raise (KeyError "t")).
Proof.
  pose proof (plot_nullclines_unregistered
                "x" Example.derivative_function_x [("a", num 1)]
                "y" Example.derivative_function_y [("b", num 100)]
                [("x", (fun v _ => Ok v), [], true);
                 ("y", (fun v _ => Ok v), [], true);
                 ("x", (fun v _ => Ok (vneg v)), [], false)]) as H.
  split.
  - destruct (H "x") as [Hin _]. apply Hin. simpl. tauto.
  - destruct (H "t") as [_ Hout]. apply Hout. simpl. intuition discriminate.
Defined.

Lemma comprehension_spec f pars x :
  forall y,
    comprehension f pars x = Ok y ->
    Forall2 (fun v w => f v pars = Ok w) x y.
Proof.
  induction x as [|v x IH]; intros y H; simpl in H.
  - inversion H. constructor.
  - destruct (f v pars) as [w|] eqn:Ef; simpl in H; [|discriminate].
    destruct (comprehension f pars x) as [ys|]; simpl in H; [|discriminate].
    inversion H; subst. constructor; [exact Ef | now apply IH].
Qed.

(** The [ax.plot] call made for one registered curve: 1000 samples of the
    curve's argument over the limits of its axis, and the curve's values
    there, on the other axis. *)
Definition curve_drawn (xlim ylim : value * value) (color : option string)
    (n : nullcline) (c : call) : Prop :=
  exists samples values,
    List.length samples = 1000%nat /\
    Forall2 (fun v w => nullcline_function n v (nullcline_parameters n) = Ok w)
            samples values /\
    if y_fun_x n
    then samples = linspace (fst xlim) (snd xlim) 1000 /\
         c = plot samples values color
    else samples = linspace (fst ylim) (snd ylim) 1000 /\
         c = plot values samples color.

Lemma plot_nullcline_list_spec xlim ylim color l :
  forall ax ax' u,
    plot_nullcline_list xlim ylim color ax l = (ax', Ok u) ->
    exists curves,
      ax' = ax ++ curves /\
      Forall2 (curve_drawn xlim ylim color) l curves.
Proof.
  induction l as [|n l IH]; intros ax ax' u H; simpl in H.
  - inversion H; subst. exists []. split; [now rewrite app_nil_r | constructor].
  - unfold plot_nullcline in H.
    destruct (y_fun_x n) eqn:Eb.
    + destruct (comprehension _ _ _) as [ys|] eqn:Ec; [|discriminate].
      apply IH in H. destruct H as [curves [-> HF]].
      exists (plot (linspace (fst xlim) (snd xlim) 1000) ys color :: curves).
      split; [now rewrite <- app_assoc |].
      constructor; [| exact HF].
      exists (linspace (fst xlim) (snd xlim) 1000), ys.
      split; [apply length_linspace |].
      split; [now apply comprehension_spec |].
      rewrite Eb. split; reflexivity.
    + destruct (comprehension _ _ _) as [ys|] eqn:Ec; [|discriminate].
      apply IH in H. destruct H as [curves [-> HF]].
      exists (plot ys (linspace (fst ylim) (snd ylim) 1000) color :: curves).
      split; [now rewrite <- app_assoc |].
      constructor; [| exact HF].
      exists (linspace (fst ylim) (snd ylim) 1000), ys.
      split; [apply length_linspace |].
      split; [now apply comprehension_spec |].
      rewrite Eb. split; reflexivity.
Qed.

Lemma plot_nullclines_spec self variable xlim ylim ax color ax' flag :
  plot_nullclines self variable xlim ylim ax color = (ax', Ok flag) ->
  exists l curves,
    dict_get (nullclines self) variable = Some l /\
    ax' = subplots_unless ax ++ curves /\
    Forall2 (curve_drawn xlim ylim color) l curves.
Proof.
  unfold plot_nullclines. intros H.
  destruct (dict_get (nullclines self) variable) as [l|]; [|discriminate].
  destruct (plot_nullcline_list xlim ylim color (subplots_unless ax) l)
    as [ax1 [u|e]] eqn:E; [|discriminate].
  inversion H; subst. apply plot_nullcline_list_spec in E.
  destruct E as [curves [-> HF]]. now exists l, curves.
Qed.

(** X22.  When [plot_nullclines] returns, it has left what was on the
    axes in place and added one [plot] call per curve registered for the
    variable, in registration order: each holds 1000 evenly spaced
    samples over [xlim] with the curve's values as ordinates when the
    curve is given as y of x, and 1000 samples over [ylim] as ordinates
    with the curve's values as abscissae otherwise.  It answers
    [(fig, ax)] only when it was passed neither. *)
Theorem plot_nullclines_draws self variable xlim ylim ax color ax' flag :
  plot_nullclines self variable xlim ylim ax color = (ax', Ok flag) ->
  flag = match ax with None => true | Some _ => false end /\
  exists l curves,
    dict_get (nullclines self) variable = Some l /\
    ax' = subplots_unless ax ++ curves /\
    Forall2 (curve_drawn xlim ylim color) l curves.
Proof.
  intros H. split; [| now apply plot_nullclines_spec with (flag := flag)].
  unfold plot_nullclines in H.
  destruct (dict_get (nullclines self) variable) as [l|]; [|discriminate].
  destruct (plot_nullcline_list xlim ylim color (subplots_unless ax) l)
    as [ax1 [u|e]]; [|discriminate].
  now inversion H.
Qed.

Lemma plot_nullclines_draws_witness :
  let f1 : value -> dict value -> result value := fun v _ => Ok v in
  let f2 : value -> dict value -> result value := fun v _ => Ok (vneg v) in
  let self :=
    add_nullclines Example.model2D
      [("x", f1, [], true); ("x", f2, [], false)] in
  exists ax',
    plot_nullclines self "x" (num 0, num 1) (num 0, num 2)
      (Some [set_xlim (num 0, num 1)]) (Some "red") = (ax', Ok false) /\
    List.length ax' = 3%nat /\
    exists l curves,
      dict_get (nullclines self) "x" = Some l /\
      ax' = [set_xlim (num 0, num 1)] ++ curves /\
      Forall2 (curve_drawn (num 0, num 1) (num 0, num 2) (Some "red"))
              l curves.
Proof.
  eexists. split; [vm_compute; reflexivity |]. split; [reflexivity |].
  apply (plot_nullclines_draws
           (add_nullclines Example.model2D
              [("x", (fun v _ => Ok v), [], true);
               ("x", (fun v _ => Ok (vneg v)), [], false)])
           "x" (num 0, num 1) (num 0, num 2)
           (Some [set_xlim (num 0, num 1)]) (Some "red") _ false).
  vm_compute. reflexivity.
Defined.

(** X23.  On a grid that is not square ([n_X <> n_Y], both at least 1)
    [plot_streamplot] and [plot_phase_portrait] raise before any call is
    made on the axes. *)
Theorem plot_phase_portrait_not_square garbage_x garbage_y self t n_X n_Y
    xlim ylim colors ax :
  (1 <= n_X)%nat -> (1 <= n_Y)%nat -> n_X <> n_Y ->
  exists e,
    plot_streamplot garbage_x garbage_y self t n_X n_Y xlim ylim ax
      = (subplots_unless ax, Raise e) /\
    plot_phase_portrait garbage_x garbage_y self t n_X n_Y xlim ylim
      colors ax
      = (subplots_unless ax, Raise e).
Proof.
  intros HX HY Hne.
  destruct (create_meshgrid_derivatives_not_square garbage_x garbage_y
              self n_X n_Y xlim ylim t HX HY Hne) as [e He].
  exists e. unfold plot_phase_portrait, plot_streamplot.
  rewrite He. split; reflexivity.
Qed.

Lemma plot_phase_portrait_not_square_witness :
  exists e,
    plot_streamplot (fun _ _ => NaN) (fun _ _ => NaN) Example.model2D
      (num 0) 20 30 (num 0, num 1) (num 0, num 2) None
      = ([], Raise e) /\
    plot_phase_portrait (fun _ _ => NaN) (fun _ _ => NaN) Example.model2D
      (num 0) 20 30 (num 0, num 1) (num 0, num 2) None None
      = ([], Raise e).
Proof.
  apply (plot_phase_portrait_not_square (fun _ _ => NaN) (fun _ _ => NaN)
           Example.model2D (num 0) 20 30 (num 0, num 1) (num 0, num 2)
           None None); [lia | lia | discriminate].
Defined.

(** X24.  When [plot_phase_portrait], called without [colors], returns,
    the calls it has added to the axes are, in this order: the
    streamplot of the sampled grid, the curves of the x variable, the
    curves of the y variable, [set_xlim] and [set_ylim].  So it returns
    only where the sampler does and where both variables have nullclines
    registered. *)
Theorem plot_phase_portrait_draws garbage_x garbage_y self t n_X n_Y
    xlim ylim ax ax' flag :
  plot_phase_portrait garbage_x garbage_y self t n_X n_Y xlim ylim None ax
    = (ax', Ok flag) ->
  flag = match ax with None => true | Some _ => false end /\
  exists xv yv xdot ydot lx ly cx cy,
    create_meshgrid_derivatives garbage_x garbage_y self n_X n_Y xlim ylim t
      = Ok (xv, yv, xdot, ydot) /\
    dict_get (nullclines self) (variable_x self) = Some lx /\
    dict_get (nullclines self) (variable_y self) = Some ly /\
    Forall2 (curve_drawn xlim ylim None) lx cx /\
    Forall2 (curve_drawn xlim ylim None) ly cy /\
    ax' = subplots_unless ax ++ [streamplot xv yv xdot ydot] ++ cx ++ cy
          ++ [set_xlim xlim; set_ylim ylim].
Proof.
  unfold plot_phase_portrait, plot_streamplot. intros H.
  destruct (create_meshgrid_derivatives garbage_x garbage_y self n_X n_Y
              xlim ylim t) as [[[[xv yv] xdot] ydot]|e] eqn:Ec;
    [|discriminate].
  cbn [subplots_unless] in H.
  match type of H with
  | context [plot_nullclines ?a ?b ?c ?d ?e ?f] =>
      destruct (plot_nullclines a b c d e f) as [ax1 [f1|e1]] eqn:E1;
        [| discriminate]
  end.
  match type of H with
  | context [plot_nullclines ?a ?b ?c ?d ?e ?f] =>
      destruct (plot_nullclines a b c d e f) as [ax2 [f2|e2]] eqn:E2;
        [| discriminate]
  end.
  inversion H; subst. clear H.
  split; [reflexivity |].
  apply plot_nullclines_spec in E1. destruct E1 as [lx [cx [Hlx [-> Hcx]]]].
  apply plot_nullclines_spec in E2. destruct E2 as [ly [cy [Hly [-> Hcy]]]].
  exists xv, yv, xdot, ydot, lx, ly, cx, cy.
  split; [reflexivity |]. split; [exact Hlx |]. split; [exact Hly |].
  split; [exact Hcx |]. split; [exact Hcy |].
  cbn [subplots_unless]. now rewrite <- !app_assoc.
Qed.

Lemma plot_phase_portrait_draws_witness :
  let f1 : value -> dict value -> result value := fun v _ => Ok v in
  let self :=
    add_nullclines Example.model2D
      [("x", f1, [], true); ("y", f1, [], false)] in
  exists ax',
    plot_phase_portrait (fun _ _ => NaN) (fun _ _ => NaN) self (num 0) 2 2
      (num 0, num 1) (num 0, num 2) None None = (ax', Ok true) /\
    List.length ax' = 5%nat /\
    exists xv yv xdot ydot lx ly cx cy,
      create_meshgrid_derivatives (fun _ _ => NaN) (fun _ _ => NaN) self
        2 2 (num 0, num 1) (num 0, num 2) (num 0)
        = Ok (xv, yv, xdot, ydot) /\
      dict_get (nullclines self) (variable_x self) = Some lx /\
      dict_get (nullclines self) (variable_y self) = Some ly /\
      Forall2 (curve_drawn (num 0, num 1) (num 0, num 2) None) lx cx /\
      Forall2 (curve_drawn (num 0, num 1) (num 0, num 2) None) ly cy /\
      ax' = subplots_unless None ++ [streamplot xv yv xdot ydot] ++ cx ++ cy
            ++ [set_xlim (num 0, num 1); set_ylim (num 0, num 2)].
Proof.
  eexists. split; [vm_compute; reflexivity |]. split; [reflexivity |].
  apply (plot_phase_portrait_draws (fun _ _ => NaN) (fun _ _ => NaN)
           (add_nullclines Example.model2D
              [("x", (fun v _ => Ok v), [], true);
               ("y", (fun v _ => Ok v), [], false)])
           (num 0) 2 2 (num 0, num 1) (num 0, num 2) None _ true).
  vm_compute. reflexivity.
Defined.
